(** * A shallow embedding of the minimal cJSON library of file_agent

    The development follows the C translation unit function by function:
    the value model ([cJSON] nodes), the allocator hook registry, the
    recursive-descent parser over a [parse_buffer], the serializer over a
    [printbuffer], and the accessor / builder API.

    Conventions.
    - A byte ([unsigned char]) is a [Z] in [0, 256).
    - A [const char *] that the library only treats as a C string is the
      list of its bytes, the end of the list standing for the terminator.
    - The text handed to the parser is raw memory: a list of bytes that
      starts where the pointer points and ends where the allocation ends;
      a read past its end has no defined result ([Undefined]).
    - [int] values are [Z]; the nodes of a sibling chain ([next]/[prev])
      are the elements of a list, in chain order. *)

From Stdlib Require Import ZArith List Bool Lia String Ascii.
From Stdlib Require Import DecimalString DecimalZ DecimalN DecimalPos DecimalFacts.
Import ListNotations.
Local Open Scope Z_scope.

(** ** Outcomes of running C code *)

Inductive outcome (A : Type) : Type :=
| Ret (a : A)
| Undefined
| OutOfFuel.
Arguments Ret {A} a.
Arguments Undefined {A}.
Arguments OutOfFuel {A}.

Definition bind {A B : Type} (m : outcome A) (k : A -> outcome B) : outcome B :=
  match m with
  | Ret a => k a
  | Undefined => Undefined
  | OutOfFuel => OutOfFuel
  end.

Notation "x <- m ;; k" := (bind m (fun x => k))
  (at level 61, m at next level, right associativity).
Notation "' p <- m ;; k" := (bind m (fun p => k))
  (at level 61, p pattern, m at next level, right associativity).

(** ** Bytes and character constants *)

Definition byte := Z.

Definition bytes_of_string (s : String.string) : list byte :=
  map (fun c => Z.of_N (N_of_ascii c)) (list_ascii_of_string s).

Definition NUL : byte := 0.
Definition QUOTE : byte := 34.       (* double quote *)
Definition BACKSLASH : byte := 92.   (* backslash *)
Definition SLASH : byte := 47.       (* slash *)
Definition QUESTION : byte := 63.    (* question mark *)
Definition COMMA : byte := 44.
Definition COLON : byte := 58.
Definition MINUS : byte := 45.
Definition PLUS : byte := 43.
Definition DOT : byte := 46.
Definition LBRACKET : byte := 91.
Definition RBRACKET : byte := 93.
Definition LBRACE : byte := 123.
Definition RBRACE : byte := 125.
Definition CH_b : byte := 98.
Definition CH_f : byte := 102.
Definition CH_n : byte := 110.
Definition CH_r : byte := 114.
Definition CH_t : byte := 116.
Definition CH_u : byte := 117.
Definition CH_e : byte := 101.
Definition BS : byte := 8.           (* backspace *)
Definition FF : byte := 12.          (* form feed *)
Definition LF : byte := 10.          (* line feed *)
Definition CR : byte := 13.          (* carriage return *)
Definition TAB : byte := 9.          (* tab *)

Definition is_digit (c : byte) : bool := (48 <=? c) && (c <=? 57).

(** ** C library: strings *)

(** [strlen] on raw memory: the offset of the first NUL. *)
Fixpoint strlen (s : list byte) : outcome nat :=
  match s with
  | [] => Undefined
  | c :: r => if c =? NUL then Ret 0%nat else n <- strlen r ;; Ret (S n)
  end.

(** The text of a C string: the bytes before the first NUL. *)
Fixpoint c_str (s : list byte) : list byte :=
  match s with
  | [] => []
  | c :: r => if c =? NUL then [] else c :: c_str r
  end.

(** [strdup] copies the text. *)
Definition strdup_text (s : list byte) : list byte := c_str s.

Fixpoint strcmp (a b : list byte) : Z :=
  match a, b with
  | [], [] => 0
  | [], y :: _ => 0 - y
  | x :: _, [] => x
  | x :: a', y :: b' =>
      if x =? y then (if x =? NUL then 0 else strcmp a' b') else x - y
  end.

Definition tolower (c : byte) : byte :=
  if (65 <=? c) && (c <=? 90) then c + 32 else c.

Fixpoint strcasecmp (a b : list byte) : Z :=
  match a, b with
  | [], [] => 0
  | [], y :: _ => 0 - tolower y
  | x :: _, [] => tolower x
  | x :: a', y :: b' =>
      if tolower x =? tolower y
      then (if x =? NUL then 0 else strcasecmp a' b')
      else tolower x - tolower y
  end.

(** [strncmp mem lit n] of raw memory against a literal without NUL:
    bytes are compared in order and the scan stops at the first
    difference, so memory is read only as far as it agrees. *)
Fixpoint strncmp (mem lit : list byte) (n : nat) {struct n} : outcome Z :=
  match n with
  | O => Ret 0
  | S n' =>
      match lit with
      | [] => match mem with
              | [] => Undefined
              | x :: _ => Ret x
              end
      | y :: lit' =>
          match mem with
          | [] => Undefined
          | x :: mem' => if x =? y then strncmp mem' lit' n' else Ret (x - y)
          end
      end
  end.

(** ** Doubles

    The library stores, compares, converts, prints and scans doubles; it
    does no arithmetic on them.  A double is kept as the exact value it
    denotes: [Fin neg m e] is (-1)^neg * m * 2^e, with [m = 0] a signed
    zero.  The C library functions that produce doubles ([strtod]) round
    into the binary64 format. *)

Inductive double : Type :=
| NaN
| Inf (neg : bool)
| Fin (neg : bool) (m : N) (e : Z).

Definition signed (neg : bool) (v : Z) : Z := if neg then - v else v.

Definition isnan (d : double) : bool :=
  match d with NaN => true | _ => false end.

Definition isinf (d : double) : bool :=
  match d with Inf _ => true | _ => false end.

(** The C comparison [a == b]. *)
Definition double_eqb (a b : double) : bool :=
  match a, b with
  | Fin n1 m1 e1, Fin n2 m2 e2 =>
      let e := Z.min e1 e2 in
      signed n1 (Z.of_N m1) * 2 ^ (e1 - e) =? signed n2 (Z.of_N m2) * 2 ^ (e2 - e)
  | Inf n1, Inf n2 => Bool.eqb n1 n2
  | _, _ => false
  end.

Definition INT_MIN : Z := -2147483648.
Definition INT_MAX : Z := 2147483647.

(** The conversion [(double)i] of an [int] is exact. *)
Definition double_of_int (i : Z) : double := Fin (i <? 0) (Z.abs_N i) 0.

(** The value of a finite double with its fraction discarded. *)
Definition truncate (d : double) : option Z :=
  match d with
  | Fin neg m e =>
      Some (signed neg (if 0 <=? e then Z.of_N m * 2 ^ e else Z.of_N m / 2 ^ (- e)))
  | _ => None
  end.

(** The conversion [(int)d].  C defines it only when the truncated value
    fits an [int]; elsewhere the result taken here is the one the x86
    conversion instruction delivers, [INT_MIN]. *)
Definition int_of_double (d : double) : Z :=
  match truncate d with
  | Some t => if (INT_MIN <=? t) && (t <=? INT_MAX) then t else INT_MIN
  | None => INT_MIN
  end.

(** Rounding of the positive rational [p / q] to the nearest binary64
    value, ties to even; integers below 2^53 are representable as they
    are. *)
Definition round_half_even (num den : Z) : Z :=
  let m := num / den in
  let r := num mod den in
  if 2 * r <? den then m
  else if den <? 2 * r then m + 1
  else if Z.even m then m else m + 1.

Definition scaled_num (p e : Z) : Z := if 0 <=? e then p else p * 2 ^ (- e).
Definition scaled_den (q e : Z) : Z := if 0 <=? e then q * 2 ^ e else q.

Definition round_binary64 (neg : bool) (p q : Z) : double :=
  if p =? 0 then Fin neg 0 0
  else if (q =? 1) && (p <? 2 ^ 53) then Fin neg (Z.to_N p) 0
  else
    let e1 := Z.log2 p - Z.log2 q - 52 in
    let e2 := if scaled_num p e1 / scaled_den q e1 <? 2 ^ 52 then e1 - 1 else e1 in
    let e := Z.max e2 (-1074) in
    let m := round_half_even (scaled_num p e) (scaled_den q e) in
    if m =? 0 then Fin neg 0 0
    else if 1024 <=? Z.log2 m + e then Inf neg
    else Fin neg (Z.to_N m) e.

(** ** C library: decimal text of integers *)

Fixpoint bytes_of_uint (u : Decimal.uint) : list byte :=
  match u with
  | Decimal.Nil => []
  | Decimal.D0 u => 48 :: bytes_of_uint u
  | Decimal.D1 u => 49 :: bytes_of_uint u
  | Decimal.D2 u => 50 :: bytes_of_uint u
  | Decimal.D3 u => 51 :: bytes_of_uint u
  | Decimal.D4 u => 52 :: bytes_of_uint u
  | Decimal.D5 u => 53 :: bytes_of_uint u
  | Decimal.D6 u => 54 :: bytes_of_uint u
  | Decimal.D7 u => 55 :: bytes_of_uint u
  | Decimal.D8 u => 56 :: bytes_of_uint u
  | Decimal.D9 u => 57 :: bytes_of_uint u
  end.

(** [sprintf] with the format percent-d. *)
Definition fmt_d (i : Z) : list byte :=
  match Z.to_int i with
  | Decimal.Pos u => bytes_of_uint u
  | Decimal.Neg u => MINUS :: bytes_of_uint u
  end.

(** The decimal digits of a natural number. *)
Definition dec (n : Z) : list byte := bytes_of_uint (N.to_uint (Z.to_N n)).

(** ** C library: [sprintf] with the format percent-g

    Precision 6, no flags: the value is rounded to six significant
    decimal digits (ties to even on the exact value), printed in fixed
    notation when its decimal exponent X satisfies -4 <= X < 6 and in
    exponent notation otherwise, trailing zeros of the fraction and an
    empty fraction removed. *)

Definition fraction_of (m : N) (e : Z) : Z * Z :=
  if 0 <=? e then (Z.of_N m * 2 ^ e, 1) else (Z.of_N m, 2 ^ (- e)).

Fixpoint neg_exponent (fuel : nat) (p q k : Z) : Z :=
  match fuel with
  | O => k
  | S f => if q <=? p * 10 ^ k then k else neg_exponent f p q (k + 1)
  end.

(** The X with 10^X <= p/q < 10^(X+1). *)
Definition decimal_exponent (p q : Z) : Z :=
  if q <=? p then Z.of_nat (List.length (dec (p / q))) - 1
  else - neg_exponent (S (Z.to_nat (Z.log2 q))) p q 1.

Fixpoint drop_zeros (l : list byte) : list byte :=
  match l with
  | c :: r => if c =? 48 then drop_zeros r else l
  | [] => []
  end.

Definition strip_zeros (l : list byte) : list byte := rev (drop_zeros (rev l)).

Definition with_fraction (int frac : list byte) : list byte :=
  match strip_zeros frac with
  | [] => int
  | f => int ++ DOT :: f
  end.

Definition fmt_exponent (X : Z) : list byte :=
  CH_e :: (if X <? 0 then MINUS else PLUS)
       :: (if Z.abs X <? 10 then 48 :: dec (Z.abs X) else dec (Z.abs X)).

Definition fmt_g_pos (p q : Z) : list byte :=
  let X0 := decimal_exponent p q in
  let s := 5 - X0 in
  let n0 := if 0 <=? s then round_half_even (p * 10 ^ s) q
            else round_half_even p (q * 10 ^ (- s)) in
  let X := if n0 =? 1000000 then X0 + 1 else X0 in
  let n := if n0 =? 1000000 then 100000 else n0 in
  let ds := dec n in
  if (-4 <=? X) && (X <? 6) then
    if 0 <=? X
    then with_fraction (firstn (Z.to_nat (X + 1)) ds) (skipn (Z.to_nat (X + 1)) ds)
    else with_fraction [48] (repeat 48 (Z.to_nat (- X - 1)) ++ ds)
  else with_fraction (firstn 1 ds) (skipn 1 ds) ++ fmt_exponent X.

Definition fmt_g (d : double) : list byte :=
  match d with
  | NaN => bytes_of_string "nan"
  | Inf neg => (if neg then [MINUS] else []) ++ bytes_of_string "inf"
  | Fin neg m e =>
      (if neg then [MINUS] else []) ++
      (if (m =? 0)%N then [48]
       else let '(p, q) := fraction_of m e in fmt_g_pos p q)
  end.



(** ** C library: [strtod]

    The scan of the C standard in the C locale: white space, a sign, then
    INF / INFINITY, NAN with an optional parenthesised tag, a hexadecimal
    or a decimal floating constant.  The result is the value and the
    number of bytes consumed, 0 when no conversion is possible.  The scan
    reads the byte that ends it, so memory that ends first leaves the
    call [Undefined]. *)

Definition peek (s : list byte) : outcome byte :=
  match s with
  | [] => Undefined
  | c :: _ => Ret c
  end.

Definition isspace (c : byte) : bool := (c =? 32) || ((9 <=? c) && (c <=? 13)).

Fixpoint skip_spaces (s : list byte) : list byte :=
  match s with
  | c :: r => if isspace c then skip_spaces r else s
  | [] => []
  end.

Definition digit_cons (c : byte) (u : Decimal.uint) : Decimal.uint :=
  match c with
  | 48 => Decimal.D0 u | 49 => Decimal.D1 u | 50 => Decimal.D2 u
  | 51 => Decimal.D3 u | 52 => Decimal.D4 u | 53 => Decimal.D5 u
  | 54 => Decimal.D6 u | 55 => Decimal.D7 u | 56 => Decimal.D8 u
  | _ => Decimal.D9 u
  end.

Fixpoint scan_digits (s : list byte) : Decimal.uint * list byte :=
  match s with
  | [] => (Decimal.Nil, [])
  | c :: r =>
      if is_digit c
      then let '(u, rest) := scan_digits r in (digit_cons c u, rest)
      else (Decimal.Nil, s)
  end.

Definition hex_value (c : byte) : option Z :=
  if is_digit c then Some (c - 48)
  else if (97 <=? tolower c) && (tolower c <=? 102) then Some (tolower c - 87)
  else None.

(** Hexadecimal digits: their value, their number, and the rest. *)
Fixpoint scan_hex_digits (s : list byte) (acc : Z) (n : Z) : Z * Z * list byte :=
  match s with
  | [] => (acc, n, [])
  | c :: r =>
      match hex_value c with
      | Some v => scan_hex_digits r (16 * acc + v) (n + 1)
      | None => (acc, n, s)
      end
  end.

Fixpoint match_ci (lit s : list byte) : outcome (option (list byte)) :=
  match lit with
  | [] => Ret (Some s)
  | y :: lit' =>
      match s with
      | [] => Undefined
      | x :: s' => if tolower x =? y then match_ci lit' s' else Ret None
      end
  end.

Definition scan_sign (s : list byte) : outcome (bool * list byte) :=
  c <- peek s ;;
  Ret (if c =? MINUS then (true, tl s)
       else if c =? PLUS then (false, tl s) else (false, s)).

(** The optional exponent part after a mantissa ending at [s]: the
    letter [mark], a sign, digits.  Without digits nothing is consumed. *)
Definition scan_exponent (mark : byte) (s : list byte) : outcome (Z * list byte) :=
  c <- peek s ;;
  if tolower c =? mark then
    '(eneg, r) <- scan_sign (tl s) ;;
    let '(u, r') := scan_digits r in
    _ <- peek r' ;;
    match u with
    | Decimal.Nil => Ret (0, s)
    | _ => Ret (signed eneg (Z.of_uint u), r')
    end
  else Ret (0, s).

Definition scan_decimal (neg : bool) (s : list byte)
  : outcome (option (double * list byte)) :=
  let '(u1, r1) := scan_digits s in
  c1 <- peek r1 ;;
  '(u2, r2) <- (if c1 =? DOT
                then let '(u, r) := scan_digits (tl r1) in
                     _ <- peek r ;; Ret (u, r)
                else Ret (Decimal.Nil, r1)) ;;
  match u1, u2 with
  | Decimal.Nil, Decimal.Nil => Ret None
  | _, _ =>
      '(ex, r3) <- scan_exponent CH_e r2 ;;
      let M := Z.of_uint (Decimal.app u1 u2) in
      let E := ex - Z.of_nat (Decimal.nb_digits u2) in
      Ret (Some (if 0 <=? E then round_binary64 neg (M * 10 ^ E) 1
                 else round_binary64 neg M (10 ^ (- E)), r3))
  end.

Definition scan_hex (neg : bool) (s : list byte)
  : outcome (option (double * list byte)) :=
  let '(m1, n1, r1) := scan_hex_digits s 0 0 in
  c1 <- peek r1 ;;
  '(m2, n2, r2) <- (if c1 =? DOT
                    then let '(m, n, r) := scan_hex_digits (tl r1) m1 0 in
                         _ <- peek r ;; Ret (m, n, r)
                    else Ret (m1, 0, r1)) ;;
  if n1 + n2 =? 0 then Ret None
  else
    '(ex, r3) <- scan_exponent 112 r2 ;;
    let E := ex - 4 * n2 in
    Ret (Some (if 0 <=? E then round_binary64 neg (m2 * 2 ^ E) 1
               else round_binary64 neg m2 (2 ^ (- E)), r3)).

Definition is_nchar (c : byte) : bool :=
  is_digit c || ((97 <=? tolower c) && (tolower c <=? 122)) || (c =? 95).

Fixpoint skip_nchars (s : list byte) : list byte :=
  match s with
  | c :: r => if is_nchar c then skip_nchars r else s
  | [] => []
  end.

Definition scan_nan_tag (s : list byte) : outcome (list byte) :=
  c <- peek s ;;
  if c =? 40 then
    let r := skip_nchars (tl s) in
    c' <- peek r ;;
    Ret (if c' =? 41 then tl r else s)
  else Ret s.

Definition strtod_unsigned (neg : bool) (s : list byte)
  : outcome (option (double * list byte)) :=
  c <- peek s ;;
  if tolower c =? 105 then
    m <- match_ci (bytes_of_string "inf") s ;;
    match m with
    | Some r =>
        m' <- match_ci (bytes_of_string "inity") r ;;
        Ret (Some (Inf neg, match m' with Some r' => r' | None => r end))
    | None => Ret None
    end
  else if tolower c =? CH_n then
    m <- match_ci (bytes_of_string "nan") s ;;
    match m with
    | Some r => r' <- scan_nan_tag r ;; Ret (Some (NaN, r'))
    | None => Ret None
    end
  else if c =? 48 then
    c' <- peek (tl s) ;;
    if tolower c' =? 120 then
      h <- scan_hex neg (tl (tl s)) ;;
      match h with
      | Some x => Ret (Some x)
      | None => scan_decimal neg s
      end
    else scan_decimal neg s
  else scan_decimal neg s.

Definition strtod (s : list byte) : outcome (double * nat) :=
  '(neg, s2) <- scan_sign (skip_spaces s) ;;
  r <- strtod_unsigned neg s2 ;;
  Ret (match r with
       | Some (d, rest) => (d, (List.length s - List.length rest)%nat)
       | None => (Fin false 0 0, 0%nat)
       end).


(** ** The value model (cJSON.h) *)

Definition cJSON_Invalid : Z := 0.
Definition cJSON_False : Z := Z.shiftl 1 0.
Definition cJSON_True : Z := Z.shiftl 1 1.
Definition cJSON_NULL : Z := Z.shiftl 1 2.
Definition cJSON_Number : Z := Z.shiftl 1 3.
Definition cJSON_String : Z := Z.shiftl 1 4.
Definition cJSON_Array : Z := Z.shiftl 1 5.
Definition cJSON_Object : Z := Z.shiftl 1 6.
Definition cJSON_Raw : Z := Z.shiftl 1 7.

Definition cJSON_IsReference : Z := 256.
Definition cJSON_StringIsConst : Z := 512.

(** The struct without its [next] and [prev] links: a node's siblings are
    its neighbours in the list that holds it, and [child] is the whole
    chain that starts at the C field of that name. *)
#[local] Unset Elimination Schemes.
Inductive cJSON : Type := mk_cJSON {
  child : list cJSON;
  type : Z;
  valuestring : option (list byte);
  valueint : Z;
  valuedouble : double;
  string : option (list byte)
}.
#[local] Set Elimination Schemes.

Definition set_child (c : list cJSON) (i : cJSON) : cJSON :=
  mk_cJSON c (type i) (valuestring i) (valueint i) (valuedouble i) (string i).
Definition set_type (t : Z) (i : cJSON) : cJSON :=
  mk_cJSON (child i) t (valuestring i) (valueint i) (valuedouble i) (string i).
Definition set_valuestring (s : option (list byte)) (i : cJSON) : cJSON :=
  mk_cJSON (child i) (type i) s (valueint i) (valuedouble i) (string i).
Definition set_number (d : double) (n : Z) (i : cJSON) : cJSON :=
  mk_cJSON (child i) (type i) (valuestring i) n d (string i).
Definition set_string (s : option (list byte)) (i : cJSON) : cJSON :=
  mk_cJSON (child i) (type i) (valuestring i) (valueint i) (valuedouble i) s.

(** The kind of a node: [item->type & 0xFF]. *)
Definition kind (i : cJSON) : Z := Z.land (type i) 255.

Definition c_bool (b : bool) : Z := if b then 1 else 0.

(** ** Process-wide state: allocator hooks, error slot, heap *)

(** A [malloc] or [free] function pointer: the platform's, or one the
    caller installed. *)
Inductive fnptr : Type :=
| libc
| hook (id : nat).

Definition fnptr_eqb (a b : fnptr) : bool :=
  match a, b with
  | libc, libc => true
  | hook x, hook y => Nat.eqb x y
  | _, _ => false
  end.

(** One call of an allocation or release function. *)
Inductive mem_event : Type :=
| ev_malloc (via : fnptr) (size : Z) (granted : bool)
| ev_free (via : fnptr).

(** [heap_grants n] tells whether the allocation requested after [n]
    earlier heap calls is granted; [heap_trace] lists the calls made, the
    latest first. *)
Record world : Type := mk_world {
  global_malloc : fnptr;
  global_free : fnptr;
  global_error : option String.string;
  heap_grants : nat -> bool;
  heap_trace : list mem_event
}.

Definition set_error (e : option String.string) (w : world) : world :=
  mk_world (global_malloc w) (global_free w) e (heap_grants w) (heap_trace w).

Definition log_event (ev : mem_event) (w : world) : world :=
  mk_world (global_malloc w) (global_free w) (global_error w) (heap_grants w)
           (ev :: heap_trace w).

Definition call_malloc (via : fnptr) (size : Z) (w : world) : bool * world :=
  let ok := heap_grants w (List.length (heap_trace w)) in
  (ok, log_event (ev_malloc via size ok) w).

Definition call_free (via : fnptr) (w : world) : world :=
  log_event (ev_free via) w.

Record cJSON_Hooks : Type := mk_hooks {
  malloc_fn : option fnptr;
  free_fn : option fnptr
}.

Definition cJSON_InitHooks (hooks : option cJSON_Hooks) (w : world) : world :=
  match hooks with
  | None =>
      mk_world libc libc (global_error w) (heap_grants w) (heap_trace w)
  | Some h =>
      mk_world (match malloc_fn h with Some f => f | None => libc end)
               (match free_fn h with Some f => f | None => libc end)
               (global_error w) (heap_grants w) (heap_trace w)
  end.

Definition sizeof_cJSON : Z := 64.

Definition zero_item : cJSON := mk_cJSON [] 0 None 0 (Fin false 0 0) None.

Definition cJSON_New_Item (w : world) : option cJSON * world :=
  let '(ok, w1) := call_malloc (global_malloc w) sizeof_cJSON w in
  (if ok then Some zero_item else None, w1).

Definition has_flag (flag : Z) (i : cJSON) : bool :=
  negb (Z.land (type i) flag =? 0).

(** [cJSON_Delete] walks the chain that starts at [item]. *)
Fixpoint delete_node (i : cJSON) (w : world) : world :=
  let w1 := if negb (has_flag cJSON_IsReference i)
            then fold_left (fun w' c => delete_node c w') (child i) w
            else w in
  let w2 := match valuestring i with
            | Some _ => if negb (has_flag cJSON_IsReference i)
                        then call_free (global_free w1) w1 else w1
            | None => w1
            end in
  let w3 := match string i with
            | Some _ => if negb (has_flag cJSON_StringIsConst i)
                        then call_free (global_free w2) w2 else w2
            | None => w2
            end in
  call_free (global_free w3) w3.

Definition cJSON_Delete (item : list cJSON) (w : world) : world :=
  fold_left (fun w' c => delete_node c w') item w.

Definition cJSON_GetErrorPtr (w : world) : option String.string := global_error w.

(** ** Type checking *)

Definition cJSON_IsInvalid (item : option cJSON) : Z :=
  match item with
  | None => 1
  | Some i => c_bool (kind i =? cJSON_Invalid)
  end.

Definition cJSON_IsFalse (item : option cJSON) : Z :=
  match item with
  | None => 0
  | Some i => c_bool (kind i =? cJSON_False)
  end.

Definition cJSON_IsTrue (item : option cJSON) : Z :=
  match item with
  | None => 0
  | Some i => c_bool (kind i =? cJSON_True)
  end.

Definition cJSON_IsBool (item : option cJSON) : Z :=
  match item with
  | None => 0
  | Some i => c_bool ((kind i =? cJSON_True) || (kind i =? cJSON_False))
  end.

Definition cJSON_IsNull (item : option cJSON) : Z :=
  match item with
  | None => 0
  | Some i => c_bool (kind i =? cJSON_NULL)
  end.

Definition cJSON_IsNumber (item : option cJSON) : Z :=
  match item with
  | None => 0
  | Some i => c_bool (kind i =? cJSON_Number)
  end.

Definition cJSON_IsString (item : option cJSON) : Z :=
  match item with
  | None => 0
  | Some i => c_bool (kind i =? cJSON_String)
  end.

Definition cJSON_IsArray (item : option cJSON) : Z :=
  match item with
  | None => 0
  | Some i => c_bool (kind i =? cJSON_Array)
  end.

Definition cJSON_IsObject (item : option cJSON) : Z :=
  match item with
  | None => 0
  | Some i => c_bool (kind i =? cJSON_Object)
  end.

Definition cJSON_IsRaw (item : option cJSON) : Z :=
  match item with
  | None => 0
  | Some i => c_bool (kind i =? cJSON_Raw)
  end.

(** ** Object and array access *)

Definition cJSON_GetArraySize (array : option cJSON) : Z :=
  match array with
  | None => 0
  | Some a => Z.of_nat (List.length (child a))
  end.

Definition cJSON_GetArrayItem (array : option cJSON) (index : Z) : option cJSON :=
  match array with
  | None => None
  | Some a => if index <? 0 then None else nth_error (child a) (Z.to_nat index)
  end.

(** The loop of both object lookups: the first node of the chain whose
    key is present and compares equal under [cmp]. *)
Fixpoint first_with_key (cmp : list byte -> list byte -> Z)
         (chain : list cJSON) (key : list byte) : option cJSON :=
  match chain with
  | [] => None
  | c :: next =>
      match string c with
      | Some k => if cmp k key =? 0 then Some c else first_with_key cmp next key
      | None => first_with_key cmp next key
      end
  end.

Definition cJSON_GetObjectItem (object : option cJSON) (key : option (list byte))
  : option cJSON :=
  match object, key with
  | Some o, Some s => first_with_key strcasecmp (child o) s
  | _, _ => None
  end.

Definition cJSON_GetObjectItemCaseSensitive (object : option cJSON)
           (key : option (list byte)) : option cJSON :=
  match object, key with
  | Some o, Some s => first_with_key strcmp (child o) s
  | _, _ => None
  end.

Definition cJSON_HasObjectItem (object : option cJSON) (key : option (list byte)) : Z :=
  match cJSON_GetObjectItem object key with
  | Some _ => 1
  | None => 0
  end.

(** ** Create items *)

Definition create_with (f : cJSON -> cJSON) (w : world) : option cJSON * world :=
  let '(item, w1) := cJSON_New_Item w in
  (option_map f item, w1).

Definition cJSON_CreateNull : world -> option cJSON * world :=
  create_with (set_type cJSON_NULL).
Definition cJSON_CreateTrue : world -> option cJSON * world :=
  create_with (set_type cJSON_True).
Definition cJSON_CreateFalse : world -> option cJSON * world :=
  create_with (set_type cJSON_False).
Definition cJSON_CreateBool (boolean : Z) : world -> option cJSON * world :=
  create_with (set_type (if boolean =? 0 then cJSON_False else cJSON_True)).
Definition cJSON_CreateNumber (num : double) : world -> option cJSON * world :=
  create_with (fun i => set_number num (int_of_double num) (set_type cJSON_Number i)).
Definition cJSON_CreateArray : world -> option cJSON * world :=
  create_with (set_type cJSON_Array).
Definition cJSON_CreateObject : world -> option cJSON * world :=
  create_with (set_type cJSON_Object).

(** [strdup] allocates with the platform's [malloc], whatever hooks are
    installed. *)
Definition strdup (s : list byte) (w : world) : option (list byte) * world :=
  let '(ok, w1) := call_malloc libc (Z.of_nat (List.length (c_str s)) + 1) w in
  (if ok then Some (strdup_text s) else None, w1).

Definition cJSON_CreateString (str : option (list byte)) (w : world)
  : option cJSON * world :=
  let '(item, w1) := cJSON_New_Item w in
  match item with
  | None => (None, w1)
  | Some i =>
      let i1 := set_type cJSON_String i in
      match str with
      | None => (Some (set_valuestring None i1), w1)
      | Some s =>
          let '(copy, w2) := strdup s w1 in
          match copy with
          | Some c => (Some (set_valuestring (Some c) i1), w2)
          | None => (None, cJSON_Delete [set_valuestring None i1] w2)
          end
      end
  end.

Definition cJSON_CreateRaw (raw : option (list byte)) (w : world)
  : option cJSON * world :=
  let '(item, w1) := cJSON_New_Item w in
  match item with
  | None => (None, w1)
  | Some i =>
      let i1 := set_type cJSON_Raw i in
      match raw with
      | None => (Some (set_valuestring None i1), w1)
      | Some s =>
          let '(copy, w2) := strdup s w1 in
          (Some (set_valuestring copy i1), w2)
      end
  end.

(** ** Add to array or object

    The C functions update the container in place and return an [int];
    here the updated container (and, for objects, the updated item) is
    returned with it. *)

Definition add_item_to_array (array item : option cJSON) : Z * option cJSON :=
  match array, item with
  | Some a, Some i => (1, Some (set_child (child a ++ [i]) a))
  | _, _ => (0, array)
  end.

Definition cJSON_AddItemToArray (array item : option cJSON) : Z * option cJSON :=
  add_item_to_array array item.

Definition add_item_to_object (object : option cJSON) (key : option (list byte))
           (item : option cJSON) (constant_key : Z) (w : world)
  : Z * option cJSON * option cJSON * world :=
  match object, key, item with
  | Some _, Some s, Some i =>
      if constant_key =? 0 then
        let '(copy, w1) := strdup s w in
        let i1 := set_string copy i in
        match copy with
        | None => (0, object, Some i1, w1)
        | Some _ =>
            let '(r, o1) := add_item_to_array object (Some i1) in
            (r, o1, Some i1, w1)
        end
      else
        let i1 := set_type (Z.lor (type i) cJSON_StringIsConst)
                           (set_string (Some (c_str s)) i) in
        let '(r, o1) := add_item_to_array object (Some i1) in
        (r, o1, Some i1, w)
  | _, _, _ => (0, object, item, w)
  end.

Definition cJSON_AddItemToObject (object : option cJSON) (key : option (list byte))
           (item : option cJSON) (w : world) :=
  add_item_to_object object key item 0 w.

Definition cJSON_AddItemToObjectCS (object : option cJSON) (key : option (list byte))
           (item : option cJSON) (w : world) :=
  add_item_to_object object key item 1 w.

Definition chain_of (item : option cJSON) : list cJSON :=
  match item with
  | Some i => [i]
  | None => []
  end.

(** The body shared by the create-and-attach helpers: attach the item
    just created, and delete it when the attach fails.  The result is the
    attached item (or NULL), the updated object and the world. *)
Definition add_created_to_object (created : option cJSON * world)
           (object : option cJSON) (name : option (list byte))
  : option cJSON * option cJSON * world :=
  let '(item, w1) := created in
  let '(r, o1, i1, w2) := cJSON_AddItemToObject object name item w1 in
  if r =? 0 then (None, o1, cJSON_Delete (chain_of i1) w2) else (i1, o1, w2).

Definition cJSON_AddNullToObject (object : option cJSON) (name : option (list byte))
           (w : world) :=
  add_created_to_object (cJSON_CreateNull w) object name.
Definition cJSON_AddTrueToObject (object : option cJSON) (name : option (list byte))
           (w : world) :=
  add_created_to_object (cJSON_CreateTrue w) object name.
Definition cJSON_AddFalseToObject (object : option cJSON) (name : option (list byte))
           (w : world) :=
  add_created_to_object (cJSON_CreateFalse w) object name.
Definition cJSON_AddBoolToObject (object : option cJSON) (name : option (list byte))
           (boolean : Z) (w : world) :=
  add_created_to_object (cJSON_CreateBool boolean w) object name.
Definition cJSON_AddNumberToObject (object : option cJSON) (name : option (list byte))
           (number : double) (w : world) :=
  add_created_to_object (cJSON_CreateNumber number w) object name.
Definition cJSON_AddStringToObject (object : option cJSON) (name : option (list byte))
           (str : option (list byte)) (w : world) :=
  add_created_to_object (cJSON_CreateString str w) object name.
Definition cJSON_AddRawToObject (object : option cJSON) (name : option (list byte))
           (raw : option (list byte)) (w : world) :=
  add_created_to_object (cJSON_CreateRaw raw w) object name.
Definition cJSON_AddObjectToObject (object : option cJSON) (name : option (list byte))
           (w : world) :=
  add_created_to_object (cJSON_CreateObject w) object name.
Definition cJSON_AddArrayToObject (object : option cJSON) (name : option (list byte))
           (w : world) :=
  add_created_to_object (cJSON_CreateArray w) object name.

(** ** Print JSON

    A [printbuffer] is the bytes written so far and the capacity of the
    allocation that holds them; its [offset] is the number of bytes
    written.  Every writer leaves a NUL after the last byte, so the C
    string returned in the end is exactly the bytes written.  The unused
    [format] and [depth] fields are left out, and sizes are taken to stay
    below the range of [size_t]. *)

Record printbuffer : Type := mk_printbuffer {
  buffer : list byte;
  capacity : Z
}.

Definition written (p : printbuffer) : Z := Z.of_nat (List.length (buffer p)).

Definition emit (text : list byte) (p : printbuffer) : printbuffer :=
  mk_printbuffer (buffer p ++ text) (capacity p).

Definition ensure_buffer (p : printbuffer) (needed : Z) (w : world)
  : Z * printbuffer * world :=
  let needed := needed + written p + 1 in
  if needed <=? capacity p then (1, p, w)
  else
    let new_size := needed * 2 in
    let '(ok, w1) := call_malloc (global_malloc w) new_size w in
    if ok
    then (1, mk_printbuffer (buffer p) new_size, call_free (global_free w1) w1)
    else (0, p, w1).

Definition hex_digit (v : Z) : byte := if v <? 10 then 48 + v else 87 + v.

Definition escape_byte (c : byte) : list byte :=
  if c =? QUOTE then [BACKSLASH; QUOTE]
  else if c =? BACKSLASH then [BACKSLASH; BACKSLASH]
  else if c =? BS then [BACKSLASH; CH_b]
  else if c =? FF then [BACKSLASH; CH_f]
  else if c =? LF then [BACKSLASH; CH_n]
  else if c =? CR then [BACKSLASH; CH_r]
  else if c =? TAB then [BACKSLASH; CH_t]
  else if c <? 32
       then [BACKSLASH; CH_u; 48; 48; hex_digit (c / 16); hex_digit (c mod 16)]
  else [c].

Definition escape (s : list byte) : list byte := flat_map escape_byte s.

(** The text [print_string_ptr] writes for [str]: NULL counts as the
    empty string. *)
Definition string_text (str : option (list byte)) : list byte :=
  let s := match str with Some s => c_str s | None => [] end in
  QUOTE :: escape s ++ [QUOTE].

Definition print_string_ptr (str : option (list byte)) (p : printbuffer) (w : world)
  : Z * printbuffer * world :=
  let s := match str with Some s => c_str s | None => [] end in
  let len := Z.of_nat (List.length s) in
  let '(ok, p1, w1) := ensure_buffer p (len * 6 + 3) w in
  if ok =? 0 then (0, p1, w1)
  else (1, emit (string_text str) p1, w1).

(** The text [print_number] writes for [item]. *)
Definition number_text (item : cJSON) : list byte :=
  let d := valuedouble item in
  if isnan d || isinf d then bytes_of_string "null"
  else if double_eqb d (double_of_int (valueint item)) then fmt_d (valueint item)
  else fmt_g d.

Definition print_number (item : cJSON) (p : printbuffer) (w : world)
  : Z * printbuffer * world :=
  let '(ok, p1, w1) := ensure_buffer p 64 w in
  if ok =? 0 then (0, p1, w1)
  else (1, emit (number_text item) p1, w1).

Definition print_result : Type := (Z * printbuffer * world)%type.

Definition emit_byte (c : byte) (p : printbuffer) (w : world) : print_result :=
  let '(ok, p1, w1) := ensure_buffer p 1 w in
  if ok =? 0 then (0, p1, w1) else (1, emit [c] p1, w1).

(** The loop of [print_array] over the chain of children. *)
Definition print_array_loop (pv : cJSON -> printbuffer -> world -> print_result)
  : list cJSON -> printbuffer -> world -> print_result :=
  fix loop (chain : list cJSON) (p : printbuffer) (w : world) : print_result :=
    match chain with
    | [] => (1, p, w)
    | c :: next =>
        let '(ok, p1, w1) := pv c p w in
        if ok =? 0 then (0, p1, w1)
        else match next with
             | [] => (1, p1, w1)
             | _ :: _ =>
                 let '(ok2, p2, w2) := emit_byte COMMA p1 w1 in
                 if ok2 =? 0 then (0, p2, w2) else loop next p2 w2
             end
    end.

(** The loop of [print_object]: each child preceded by its key. *)
Definition print_object_loop (pv : cJSON -> printbuffer -> world -> print_result)
  : list cJSON -> printbuffer -> world -> print_result :=
  fix loop (chain : list cJSON) (p : printbuffer) (w : world) : print_result :=
    match chain with
    | [] => (1, p, w)
    | c :: next =>
        let '(ok0, p0, w0) := print_string_ptr (string c) p w in
        if ok0 =? 0 then (0, p0, w0)
        else
          let '(ok1, p1, w1) := emit_byte COLON p0 w0 in
          if ok1 =? 0 then (0, p1, w1)
          else
            let '(ok2, p2, w2) := pv c p1 w1 in
            if ok2 =? 0 then (0, p2, w2)
            else match next with
                 | [] => (1, p2, w2)
                 | _ :: _ =>
                     let '(ok3, p3, w3) := emit_byte COMMA p2 w2 in
                     if ok3 =? 0 then (0, p3, w3) else loop next p3 w3
                 end
    end.

Definition print_bracketed (opening closing : byte)
           (loop : list cJSON -> printbuffer -> world -> print_result)
           (item : cJSON) (p : printbuffer) (w : world) : print_result :=
  let '(ok, p1, w1) := emit_byte opening p w in
  if ok =? 0 then (0, p1, w1)
  else
    let '(ok2, p2, w2) := loop (child item) p1 w1 in
    if ok2 =? 0 then (0, p2, w2)
    else emit_byte closing p2 w2.

Definition print_literal (text : list byte) (p : printbuffer) (w : world)
  : print_result :=
  let '(ok, p1, w1) := ensure_buffer p (Z.of_nat (List.length text) + 1) w in
  if ok =? 0 then (0, p1, w1) else (1, emit text p1, w1).

(** [print_value] on a node that is not NULL. *)
Fixpoint print_item (item : cJSON) (p : printbuffer) (w : world) {struct item}
  : print_result :=
  let k := kind item in
  if k =? cJSON_NULL then print_literal (bytes_of_string "null") p w
  else if k =? cJSON_False then print_literal (bytes_of_string "false") p w
  else if k =? cJSON_True then print_literal (bytes_of_string "true") p w
  else if k =? cJSON_Number then print_number item p w
  else if (k =? cJSON_Raw) || (k =? cJSON_String)
       then print_string_ptr (valuestring item) p w
  else if k =? cJSON_Array
       then print_bracketed LBRACKET RBRACKET (print_array_loop print_item) item p w
  else if k =? cJSON_Object
       then print_bracketed LBRACE RBRACE (print_object_loop print_item) item p w
  else (0, p, w).

Definition print_value (item : option cJSON) (p : printbuffer) (w : world)
  : print_result :=
  match item with
  | None => (0, p, w)
  | Some i => print_item i p w
  end.

Definition print_array : cJSON -> printbuffer -> world -> print_result :=
  print_bracketed LBRACKET RBRACKET (print_array_loop print_item).

Definition print_object : cJSON -> printbuffer -> world -> print_result :=
  print_bracketed LBRACE RBRACE (print_object_loop print_item).

Definition cJSON_PrintUnformatted (item : option cJSON) (w : world)
  : option (list byte) * world :=
  let '(ok, w1) := call_malloc (global_malloc w) 256 w in
  if ok then
    let '(r, p, w2) := print_value item (mk_printbuffer [] 256) w1 in
    if r =? 0 then (None, call_free (global_free w2) w2)
    else (Some (buffer p), w2)
  else (None, w1).

Definition cJSON_Print (item : option cJSON) (w : world) :=
  cJSON_PrintUnformatted item w.

Definition cJSON_PrintBuffered (item : option cJSON) (prebuffer fmt : Z) (w : world) :=
  cJSON_PrintUnformatted item w.

(** ** Parsing helpers *)

Record parse_buffer : Type := mk_parse_buffer {
  content : list byte;
  length : nat;
  offset : nat
}.

Definition can_read (b : parse_buffer) (size : nat) : bool :=
  (offset b + size <=? length b)%nat.

Definition can_access_at_index (b : parse_buffer) (index : nat) : bool :=
  (offset b + index <? length b)%nat.

(** The memory from the cursor on. *)
Definition buffer_at_offset (b : parse_buffer) : list byte :=
  skipn (offset b) (content b).

Definition set_offset (o : nat) (b : parse_buffer) : parse_buffer :=
  mk_parse_buffer (content b) (length b) o.

Definition advance (n : nat) (b : parse_buffer) : parse_buffer :=
  set_offset (offset b + n)%nat b.

(** The [while] loop of [skip_whitespace]; it runs at most
    [length - offset] times. *)
Fixpoint skip_whitespace_loop (n : nat) (b : parse_buffer) : outcome parse_buffer :=
  match n with
  | O => Ret b
  | S n' =>
      if can_access_at_index b 0 then
        c <- peek (buffer_at_offset b) ;;
        if c <=? 32 then skip_whitespace_loop n' (advance 1 b) else Ret b
      else Ret b
  end.

Definition skip_whitespace (b : parse_buffer) : outcome parse_buffer :=
  b1 <- skip_whitespace_loop (length b - offset b) b ;;
  Ret (if (length b1 <=? offset b1)%nat then set_offset (length b1) b1 else b1).

(** ** Parse string *)

(** The first loop of [parse_string], from the byte after the opening
    quote: it finds the closing quote and returns whether it did, the
    bytes stepped over and the length counted.  A backslash steps over
    the byte that follows it, whatever that byte is. *)
Fixpoint scan_string (input : list byte) (stepped len : nat)
  : outcome (bool * nat * nat) :=
  match input with
  | [] => Undefined
  | c :: r =>
      if c =? QUOTE then Ret (true, stepped, len)
      else if c =? NUL then Ret (false, stepped, len)
      else if c =? BACKSLASH then
        match r with
        | [] => Undefined
        | _ :: r' => scan_string r' (S (S stepped)) (S len)
        end
      else scan_string r (S stepped) (S len)
  end.

(** The second loop, again from the byte after the opening quote: the
    bytes it stores.  It stops at the first quote that is not taken as
    part of an escape. *)
Fixpoint unescape (input : list byte) : outcome (list byte) :=
  match input with
  | [] => Undefined
  | c :: r =>
      if c =? QUOTE then Ret []
      else if c =? BACKSLASH then
        match r with
        | [] => Undefined
        | e :: r' =>
            if e =? CH_b then o <- unescape r' ;; Ret (BS :: o)
            else if e =? CH_f then o <- unescape r' ;; Ret (FF :: o)
            else if e =? CH_n then o <- unescape r' ;; Ret (LF :: o)
            else if e =? CH_r then o <- unescape r' ;; Ret (CR :: o)
            else if e =? CH_t then o <- unescape r' ;; Ret (TAB :: o)
            else if e =? CH_u then
              match r' with
              | _ :: _ :: _ :: _ :: r'' => o <- unescape r'' ;; Ret (QUESTION :: o)
              | _ => Undefined
              end
            else o <- unescape r' ;; Ret (e :: o)
        end
      else o <- unescape r ;; Ret (c :: o)
  end.

Definition parse_result : Type := (Z * cJSON * parse_buffer * world)%type.

Definition parse_string (item : cJSON) (b : parse_buffer) (w : world)
  : outcome parse_result :=
  c <- peek (buffer_at_offset b) ;;
  if negb (c =? QUOTE)
  then Ret (0, item, b, set_error (Some "Not a string"%string) w)
  else
    let start := tl (buffer_at_offset b) in
    '(closed, stepped, len) <- scan_string start 0 0 ;;
    let b1 := advance (1 + stepped) b in
    if negb closed
    then Ret (0, item, b1, set_error (Some "Unterminated string"%string) w)
    else
      let '(ok, w1) := call_malloc (global_malloc w) (Z.of_nat len + 1) w in
      if negb ok then Ret (0, item, b1, w1)
      else
        output <- unescape start ;;
        if (len <? List.length output)%nat then Undefined
        else Ret (1, set_valuestring (Some (c_str output)) (set_type cJSON_String item),
                  advance 1 b1, w1).

(** ** Parse number *)

Definition parse_number (item : cJSON) (b : parse_buffer) (w : world)
  : outcome parse_result :=
  '(number, consumed) <- strtod (buffer_at_offset b) ;;
  if (consumed =? 0)%nat
  then Ret (0, item, b, set_error (Some "Invalid number"%string) w)
  else Ret (1, set_type cJSON_Number (set_number number (int_of_double number) item),
            advance consumed b, w).

(** ** Parse any value, arrays and objects

    [fuel] bounds the depth of the recursion (the C stack) and the number
    of turns of the member loops.  The two [do ... while] loops carry the
    chain built so far ([head] to [current]); their result says whether
    control reaches the check of the closing bracket (1) or the [fail]
    label (0). *)

Definition loop_result : Type := (Z * list cJSON * parse_buffer * world)%type.

(** The test [literal] of [parse_value]: [can_read] and [strncmp]. *)
Definition at_literal (b : parse_buffer) (lit : list byte) : outcome bool :=
  if can_read b (List.length lit)
  then r <- strncmp (buffer_at_offset b) lit (List.length lit) ;; Ret (r =? 0)
  else Ret false.

(** The condition of both [do ... while] loops: a comma is in reach, and
    the offset before the increment is not zero. *)
Definition loop_condition (b : parse_buffer) : outcome (bool * parse_buffer) :=
  if can_access_at_index b 0 then
    c <- peek (buffer_at_offset b) ;;
    if c =? COMMA then Ret (negb (offset b =? 0)%nat, advance 1 b)
    else Ret (false, b)
  else Ret (false, b).

(** Opening bracket, empty container, members, closing bracket. *)
Definition parse_bracketed (opening closing : byte) (kind_tag : Z)
           (not_opening expected_closing : String.string)
           (loop : list cJSON -> parse_buffer -> world -> outcome loop_result)
           (item : cJSON) (b : parse_buffer) (w : world) : outcome parse_result :=
  c <- peek (buffer_at_offset b) ;;
  if negb (c =? opening) then Ret (0, item, b, set_error (Some not_opening) w)
  else
    b1 <- skip_whitespace (advance 1 b) ;;
    empty <- (if can_access_at_index b1 0
              then c1 <- peek (buffer_at_offset b1) ;; Ret (c1 =? closing)
              else Ret false) ;;
    if empty then Ret (1, set_type kind_tag item, advance 1 b1, w)
    else
      '(ok, head, b2, w2) <- loop [] b1 w ;;
      if ok =? 0 then Ret (0, item, b2, cJSON_Delete head w2)
      else
        c2 <- peek (buffer_at_offset b2) ;;
        if negb (c2 =? closing)
        then Ret (0, item, b2,
                  cJSON_Delete head (set_error (Some expected_closing) w2))
        else Ret (1, set_child head (set_type kind_tag item), advance 1 b2, w2).

Fixpoint parse_value (fuel : nat) (item : cJSON) (b : parse_buffer) (w : world)
         {struct fuel} : outcome parse_result :=
  match fuel with
  | O => OutOfFuel
  | S fuel' =>
      b1 <- skip_whitespace b ;;
      if negb (can_access_at_index b1 0)
      then Ret (0, item, b1, set_error (Some "Unexpected end"%string) w)
      else
        is_null <- at_literal b1 (bytes_of_string "null") ;;
        if is_null then Ret (1, set_type cJSON_NULL item, advance 4 b1, w)
        else
          is_false <- at_literal b1 (bytes_of_string "false") ;;
          if is_false then Ret (1, set_type cJSON_False item, advance 5 b1, w)
          else
            is_true <- at_literal b1 (bytes_of_string "true") ;;
            if is_true then Ret (1, set_type cJSON_True item, advance 4 b1, w)
            else
              c <- peek (buffer_at_offset b1) ;;
              if c =? QUOTE then parse_string item b1 w
              else if (c =? MINUS) || is_digit c then parse_number item b1 w
              else if c =? LBRACKET then
                parse_bracketed LBRACKET RBRACKET cJSON_Array
                  "Not an array" "Expected ']'" (parse_array_loop fuel') item b1 w
              else if c =? LBRACE then
                parse_bracketed LBRACE RBRACE cJSON_Object
                  "Not an object" "Expected '}'" (parse_object_loop fuel') item b1 w
              else Ret (0, item, b1, set_error (Some "Invalid value"%string) w)
  end

with parse_array_loop (fuel : nat) (head : list cJSON) (b : parse_buffer) (w : world)
     {struct fuel} : outcome loop_result :=
  match fuel with
  | O => OutOfFuel
  | S fuel' =>
      b1 <- skip_whitespace b ;;
      let '(new_item, w1) := cJSON_New_Item w in
      match new_item with
      | None => Ret (0, head, b1, w1)
      | Some ni =>
          '(ok, ni1, b2, w2) <- parse_value fuel' ni b1 w1 ;;
          if ok =? 0 then Ret (0, head ++ [ni1], b2, w2)
          else
            b3 <- skip_whitespace b2 ;;
            '(again, b4) <- loop_condition b3 ;;
            if again then parse_array_loop fuel' (head ++ [ni1]) b4 w2
            else Ret (1, head ++ [ni1], b4, w2)
      end
  end

with parse_object_loop (fuel : nat) (head : list cJSON) (b : parse_buffer) (w : world)
     {struct fuel} : outcome loop_result :=
  match fuel with
  | O => OutOfFuel
  | S fuel' =>
      b1 <- skip_whitespace b ;;
      let '(new_item, w1) := cJSON_New_Item w in
      match new_item with
      | None => Ret (0, head, b1, w1)
      | Some ni =>
          '(ok, ni1, b2, w2) <- parse_string ni b1 w1 ;;
          if ok =? 0 then Ret (0, head ++ [ni1], b2, w2)
          else
            let ni2 := set_type cJSON_Invalid
                         (set_valuestring None (set_string (valuestring ni1) ni1)) in
            b3 <- skip_whitespace b2 ;;
            c <- peek (buffer_at_offset b3) ;;
            if negb (c =? COLON)
            then Ret (0, head ++ [ni2], b3, set_error (Some "Expected ':'"%string) w2)
            else
              b4 <- skip_whitespace (advance 1 b3) ;;
              '(ok2, ni3, b5, w3) <- parse_value fuel' ni2 b4 w2 ;;
              if ok2 =? 0 then Ret (0, head ++ [ni3], b5, w3)
              else
                b6 <- skip_whitespace b5 ;;
                '(again, b7) <- loop_condition b6 ;;
                if again then parse_object_loop fuel' (head ++ [ni3]) b7 w3
                else Ret (1, head ++ [ni3], b7, w3)
      end
  end.

Definition parse_array (fuel : nat) : cJSON -> parse_buffer -> world -> outcome parse_result :=
  parse_bracketed LBRACKET RBRACKET cJSON_Array
    "Not an array" "Expected ']'" (parse_array_loop fuel).

Definition parse_object (fuel : nat) : cJSON -> parse_buffer -> world -> outcome parse_result :=
  parse_bracketed LBRACE RBRACE cJSON_Object
    "Not an object" "Expected '}'" (parse_object_loop fuel).

(** ** Public parse functions *)

Definition cJSON_ParseWithLength (fuel : nat) (value : option (list byte))
           (buffer_length : nat) (w : world) : outcome (option cJSON * world) :=
  let w0 := set_error None w in
  match value with
  | None => Ret (None, set_error (Some "Null input"%string) w0)
  | Some mem =>
      if (buffer_length =? 0)%nat
      then Ret (None, set_error (Some "Null input"%string) w0)
      else
        let '(item, w1) := cJSON_New_Item w0 in
        match item with
        | None => Ret (None, set_error (Some "Memory error"%string) w1)
        | Some i =>
            '(ok, i1, _, w2) <- parse_value fuel i (mk_parse_buffer mem buffer_length 0) w1 ;;
            if ok =? 0 then Ret (None, cJSON_Delete [i1] w2)
            else Ret (Some i1, w2)
        end
  end.

Definition cJSON_Parse (fuel : nat) (value : option (list byte)) (w : world)
  : outcome (option cJSON * world) :=
  match value with
  | None => cJSON_ParseWithLength fuel None 0 w
  | Some mem => n <- strlen mem ;; cJSON_ParseWithLength fuel value n w
  end.

(** ** Worlds and inputs used in examples *)

(** The state of a fresh process: default hooks, no error, and a heap
    that grants every request. *)
Definition initial_world : world := mk_world libc libc None (fun _ => true) [].

(** A C string in memory: its text and the terminator. *)
Definition c_string (text : list byte) : list byte := text ++ [NUL].

Definition quoted (s : String.string) : list byte :=
  QUOTE :: bytes_of_string s ++ [QUOTE].

(** ** Vocabulary of the properties *)

(** A member answers a lookup of [key] under the comparison [cmp]. *)
Definition key_matches (cmp : list byte -> list byte -> Z) (key : list byte)
           (c : cJSON) : bool :=
  match string c with
  | Some k => cmp k key =? 0
  | None => false
  end.

(** [r] is the first node of [chain], in sibling order, that answers the
    lookup, or nothing when no node does. *)
Definition first_match (cmp : list byte -> list byte -> Z) (key : list byte)
           (chain : list cJSON) (r : option cJSON) : Prop :=
  match r with
  | Some c =>
      exists pre post,
        chain = pre ++ c :: post /\
        key_matches cmp key c = true /\
        Forall (fun x => key_matches cmp key x = false) pre
  | None => Forall (fun x => key_matches cmp key x = false) chain
  end.

(** The text of the object with two members named a, of values 1 and 2. *)
Definition duplicate_key_text : list byte :=
  [LBRACE] ++ quoted "a" ++ bytes_of_string ":1," ++ quoted "a"
           ++ bytes_of_string ":2}".

(** The text of the string made of one escape, backslash u 0 0 4 1. *)
Definition escaped_A_text : list byte :=
  [QUOTE; BACKSLASH] ++ bytes_of_string "u0041" ++ [QUOTE].

(** The pieces the body of a JSON string is made of, as the two loops
    of [parse_string] take them: a byte that stands for itself, a
    backslash with the byte it introduces, and a backslash-u escape with
    the four bytes behind it. *)
Inductive piece : Type :=
| literal (c : byte)
| escaped (e : byte)
| unicode_escape (h1 h2 h3 h4 : byte).

Definition piece_text (p : piece) : list byte :=
  match p with
  | literal c => [c]
  | escaped e => [BACKSLASH; e]
  | unicode_escape h1 h2 h3 h4 => [BACKSLASH; CH_u; h1; h2; h3; h4]
  end.

Definition string_body (pieces : list piece) : list byte :=
  flat_map piece_text pieces.

(** A byte that neither loop treats specially: no quote, no backslash,
    no terminator.  The hexadecimal digits are such bytes. *)
Definition ordinary (c : byte) : bool :=
  negb (c =? QUOTE) && negb (c =? BACKSLASH) && negb (c =? NUL).

(** The pieces on which the two loops agree: the byte behind a backslash
    is no terminator, and the four bytes behind a backslash-u are
    ordinary; the loops do not ask that they are hexadecimal digits. *)
Definition piece_ok (p : piece) : bool :=
  match p with
  | literal c => ordinary c
  | escaped e => negb (e =? CH_u) && negb (e =? NUL)
  | unicode_escape h1 h2 h3 h4 => ordinary h1 && ordinary h2 && ordinary h3 && ordinary h4
  end.

(** The byte the [switch] of the decoding loop stores for an escape that
    is not a backslash-u escape. *)
Definition escape_value (e : byte) : byte :=
  if e =? CH_b then BS
  else if e =? CH_f then FF
  else if e =? CH_n then LF
  else if e =? CH_r then CR
  else if e =? CH_t then TAB
  else e.

(** The byte the decoding loop stores for a piece. *)
Definition piece_value (p : piece) : byte :=
  match p with
  | literal c => c
  | escaped e => escape_value e
  | unicode_escape _ _ _ _ => QUESTION
  end.

Definition decoded (pieces : list piece) : list byte := map piece_value pieces.

(** What the first loop of [parse_string] counts for a piece. *)
Definition counted (p : piece) : nat :=
  match p with
  | unicode_escape _ _ _ _ => 5
  | _ => 1
  end.

(** The text of a string with a backslash-u escape, after a letter and
    before a line-feed escape and a second backslash-u escape. *)
Definition escapes_before : list piece := [literal 97].
Definition escapes_after : list piece :=
  [escaped CH_n; unicode_escape 48 48 52 50].

(** The double 3 + 2^-30, which is not an integer. *)
Definition just_above_three : double := Fin false 3221225473 (-30).

(** A process in which the caller installed its own allocation pair. *)
Definition hooked_world : world :=
  cJSON_InitHooks (Some (mk_hooks (Some (hook 1)) (Some (hook 2)))) initial_world.

(** The next allocation request of [w] is granted. *)
Definition next_granted (w : world) : Prop :=
  heap_grants w (List.length (heap_trace w)) = true.

(** Two memories that agree on their first two bytes: a quote and the
    letter a, followed by a quote in one and by the terminator in the
    other. *)
Definition closed_beyond_length : list byte := [QUOTE; 97; QUOTE; NUL].
Definition open_beyond_length : list byte := [QUOTE; 97; NUL; NUL].

(** The C string made of a quote, the letter a and a backslash, in a
    buffer whose bytes after the terminator are a quote and a NUL. *)
Definition backslash_at_end : list byte := [QUOTE; 97; BACKSLASH; NUL; QUOTE; NUL].

(** The texts of the two malformed inputs named by the specification. *)
Definition member_without_value_text : list byte :=
  [LBRACE] ++ quoted "a" ++ bytes_of_string ":}".
Definition open_array_text : list byte := bytes_of_string "[1,2,".

(** A parsing step that reports success leaves the error slot as it
    found it. *)
Definition ok_keeps_error {A : Type} (w : world)
           (r : outcome (Z * A * parse_buffer * world)) : Prop :=
  match r with
  | Ret (ok, _, _, w') => ok <> 0 -> global_error w' = global_error w
  | _ => True
  end.

(** A process whose error slot still describes an earlier, failed parse. *)
Definition stale_world : world :=
  set_error (Some "Unterminated string"%string) initial_world.

(** ** Vocabulary of the round trip *)

(** Trees the Builder API yields when every node it creates is attached
    at most once: scalars from the constructors (strings from a text that
    is not NULL), arrays grown by [cJSON_AddItemToArray], objects grown by
    [cJSON_AddItemToObject] or [cJSON_AddItemToObjectCS]. *)
Inductive built : cJSON -> Prop :=
| built_null w i w1 :
    cJSON_CreateNull w = (Some i, w1) -> built i
| built_true w i w1 :
    cJSON_CreateTrue w = (Some i, w1) -> built i
| built_false w i w1 :
    cJSON_CreateFalse w = (Some i, w1) -> built i
| built_bool b w i w1 :
    cJSON_CreateBool b w = (Some i, w1) -> built i
| built_number num w i w1 :
    cJSON_CreateNumber num w = (Some i, w1) -> built i
| built_string s w i w1 :
    cJSON_CreateString (Some s) w = (Some i, w1) -> built i
| built_array w i w1 :
    cJSON_CreateArray w = (Some i, w1) -> built i
| built_object w i w1 :
    cJSON_CreateObject w = (Some i, w1) -> built i
| built_array_item a i a1 :
    built a -> kind a = cJSON_Array -> built i ->
    cJSON_AddItemToArray (Some a) (Some i) = (1, Some a1) -> built a1
| built_object_item o key i w o1 i1 w1 :
    built o -> kind o = cJSON_Object -> built i ->
    cJSON_AddItemToObject (Some o) (Some key) (Some i) w = (1, Some o1, i1, w1) ->
    built o1
| built_object_item_cs o key i w o1 i1 w1 :
    built o -> kind o = cJSON_Object -> built i ->
    cJSON_AddItemToObjectCS (Some o) (Some key) (Some i) w = (1, Some o1, i1, w1) ->
    built o1.

(** A byte that [print_string_ptr] writes without a backslash-u escape. *)
Definition printable (c : byte) : bool :=
  (32 <=? c) || (c =? BS) || (c =? TAB) || (c =? LF) || (c =? FF) || (c =? CR).

Definition printable_text (s : option (list byte)) : bool :=
  match s with
  | Some s => forallb printable s
  | None => true
  end.

(** No string value or key of the tree needs a backslash-u escape, and
    no number of the tree is NaN or infinite. *)
Fixpoint plain (t : cJSON) : bool :=
  printable_text (valuestring t) && printable_text (string t)
  && negb ((kind t =? cJSON_Number)
           && (isnan (valuedouble t) || isinf (valuedouble t)))
  && forallb plain (child t).

(** The stored double equals the integer view. *)
Definition integer_valued (t : cJSON) : bool :=
  double_eqb (valuedouble t) (double_of_int (valueint t)).

Fixpoint bytes_eqb (a b : list byte) : bool :=
  match a, b with
  | [], [] => true
  | x :: a', y :: b' => (x =? y) && bytes_eqb a' b'
  | _, _ => false
  end.

Definition text_eqb (a b : option (list byte)) : bool :=
  match a, b with
  | Some x, Some y => bytes_eqb x y
  | None, None => true
  | _, _ => false
  end.

(** The same kind, the same string value, and for a Number whose double
    equals its integer view the same integer view and an equal double. *)
Definition same_value (a b : cJSON) : bool :=
  (kind a =? kind b)
  && text_eqb (valuestring a) (valuestring b)
  && (negb ((kind a =? cJSON_Number) && integer_valued a)
      || ((valueint b =? valueint a) && double_eqb (valuedouble b) (valuedouble a))).

(** Structural equality of two trees: the same values and keys, node by
    node, with the children in the same order. *)
Fixpoint structurally_equal (a b : cJSON) {struct a} : bool :=
  same_value a b
  && text_eqb (string a) (string b)
  && (fix all2 (xs ys : list cJSON) {struct xs} : bool :=
        match xs, ys with
        | [], [] => true
        | x :: xs', y :: ys' => structurally_equal x y && all2 xs' ys'
        | _, _ => false
        end) (child a) (child b).

(** The text of a tree: what the serializer writes when every
    allocation it asks for is granted. *)
Definition render_elements (rv : cJSON -> list byte) : list cJSON -> list byte :=
  fix loop (chain : list cJSON) : list byte :=
    match chain with
    | [] => []
    | c :: next =>
        rv c ++ match next with
                | [] => []
                | _ :: _ => COMMA :: loop next
                end
    end.

Definition render_members (rv : cJSON -> list byte) : list cJSON -> list byte :=
  fix loop (chain : list cJSON) : list byte :=
    match chain with
    | [] => []
    | c :: next =>
        string_text (string c) ++ COLON :: rv c
          ++ match next with
             | [] => []
             | _ :: _ => COMMA :: loop next
             end
    end.

Fixpoint render (t : cJSON) : list byte :=
  let k := kind t in
  if k =? cJSON_NULL then bytes_of_string "null"
  else if k =? cJSON_False then bytes_of_string "false"
  else if k =? cJSON_True then bytes_of_string "true"
  else if k =? cJSON_Number then number_text t
  else if (k =? cJSON_Raw) || (k =? cJSON_String) then string_text (valuestring t)
  else if k =? cJSON_Array then LBRACKET :: render_elements render (child t) ++ [RBRACKET]
  else if k =? cJSON_Object then LBRACE :: render_members render (child t) ++ [RBRACE]
  else [].

(** Fuel that suffices to parse the text of a tree. *)
Fixpoint fuel_for (t : cJSON) : nat :=
  S (fold_right (fun c acc => S (fuel_for c + acc)) O (child t)).

(** Every allocation request is granted. *)
Definition grants_all (w : world) : Prop := forall n, heap_grants w n = true.

(** A byte that follows a value in the text of a tree: a comma, a closing
    bracket or brace, or the terminator. *)
Definition delimiter (c : byte) : Prop :=
  c = COMMA \/ c = RBRACKET \/ c = RBRACE \/ c = NUL.

(** The texts of the decimal grammar that percent-g produces: a sign,
    digits, a fraction, an exponent. *)
Definition all_digits (l : list byte) : Prop := Forall (fun c => is_digit c = true) l.

Definition fraction_part (f : list byte) : Prop :=
  f = [] \/ exists fd, f = DOT :: fd /\ all_digits fd.

Definition exponent_part (ex : list byte) : Prop :=
  ex = [] \/
  exists s ed, ex = CH_e :: s :: ed /\ (s = PLUS \/ s = MINUS) /\
               all_digits ed /\ ed <> [].

Definition decimal_literal (text : list byte) : Prop :=
  exists (neg : bool) d int f ex,
    text = (if neg then [MINUS] else []) ++ (d :: int) ++ f ++ ex /\
    all_digits (d :: int) /\ fraction_part f /\ exponent_part ex.

(** The shape of the values the Builder API yields; the key of the node
    itself is left open, the keys of its children are not. *)
#[local] Unset Elimination Schemes.
Inductive well_formed : cJSON -> Prop :=
| wf_literal t :
    kind t = cJSON_NULL \/ kind t = cJSON_False \/ kind t = cJSON_True ->
    valuestring t = None -> child t = [] -> well_formed t
| wf_number t :
    kind t = cJSON_Number -> valuestring t = None -> child t = [] ->
    valueint t = int_of_double (valuedouble t) -> well_formed t
| wf_string t s :
    kind t = cJSON_String -> valuestring t = Some s -> child t = [] -> well_formed t
| wf_array t :
    kind t = cJSON_Array -> valuestring t = None ->
    Forall well_formed (child t) ->
    Forall (fun c => string c = None) (child t) -> well_formed t
| wf_object t :
    kind t = cJSON_Object -> valuestring t = None ->
    Forall well_formed (child t) ->
    Forall (fun c => exists k, string c = Some k) (child t) -> well_formed t.
#[local] Set Elimination Schemes.

(** The cursor of [b] stands before [text], which [rest] follows, and
    [text] lies within the length of [b]. *)
Definition at_text (b : parse_buffer) (text rest : list byte) : Prop :=
  buffer_at_offset b = text ++ rest /\ (offset b + List.length text <= length b)%nat.

(** Induction on trees, with the property at hand for every child. *)
Fixpoint cJSON_tree_ind (P : cJSON -> Prop)
         (step : forall t, Forall P (child t) -> P t) (t : cJSON) {struct t} : P t :=
  step t
       ((fix all (l : list cJSON) : Forall P l :=
           match l with
           | [] => Forall_nil P
           | c :: l' => Forall_cons c (cJSON_tree_ind P step c) (all l')
           end) (child t)).

(** A print step succeeded, appended [text] to the bytes of [p], and
    left a heap that still grants everything. *)
Definition prints (r : print_result) (p : printbuffer) (text : list byte) : Prop :=
  let '(ok, p1, w1) := r in
  ok = 1 /\ buffer p1 = buffer p ++ text /\ grants_all w1.

(** Fuel for the member loop over a chain. *)
Definition loop_fuel (cs : list cJSON) : nat :=
  fold_right (fun c acc => S (fuel_for c + acc)) O cs.

(** The parser, met with the text of [t] before a delimiter, stores in a
    fresh node of key [key] a tree structurally equal to [t] under that
    key, and stops behind the text. *)
Definition parses_back (t : cJSON) : Prop :=
  forall fuel key b w c rest,
    (fuel_for t <= fuel)%nat ->
    at_text b (render t) (c :: rest) ->
    delimiter c ->
    grants_all w ->
    exists item w1,
      parse_value fuel (set_string key zero_item) b w
      = Ret (1, item, advance (List.length (render t)) b, w1) /\
      grants_all w1 /\
      structurally_equal (set_string key t) item = true.

(** A text without NUL bytes. *)
Definition nonzero (l : list byte) : Prop := Forall (fun c => c <> NUL) l.

(** A sample tree, the object whose member a holds the array of the
    number 1, the string x and true; and a Raw node of text x. *)
Definition sample_one : cJSON :=
  set_number (Fin false 1 0) 1 (set_type cJSON_Number zero_item).
Definition sample_x : cJSON :=
  set_valuestring (Some (bytes_of_string "x")) (set_type cJSON_String zero_item).
Definition sample_true : cJSON := set_type cJSON_True zero_item.
Definition sample_array : cJSON :=
  set_child [sample_one; sample_x; sample_true] (set_type cJSON_Array zero_item).
Definition sample_object : cJSON :=
  set_child [set_string (Some (bytes_of_string "a")) sample_array]
            (set_type cJSON_Object zero_item).
Definition sample_raw : cJSON :=
  set_valuestring (Some (bytes_of_string "x")) (set_type cJSON_Raw zero_item).

(** ** Release through the registry *)

Definition cJSON_free (w : world) : world := call_free (global_free w) w.

(** ** Duplicate and compare

    [cJSON_Duplicate] prints the item and parses the text again.  The
    memory handed to the parser is the printed text and its terminator;
    the bytes of the allocation behind the terminator are indeterminate,
    and a read of them has no defined result. *)

Definition cJSON_Duplicate (fuel : nat) (item : option cJSON) (recurse : Z) (w : world)
  : outcome (option cJSON * world) :=
  match item with
  | None => Ret (None, w)
  | Some _ =>
      let '(printed, w1) := cJSON_PrintUnformatted item w in
      match printed with
      | None => Ret (None, w1)
      | Some text =>
          '(dup, w2) <- cJSON_Parse fuel (Some (c_string text)) w1 ;;
          Ret (dup, call_free (global_free w2) w2)
      end
  end.

Definition cJSON_Compare (a b : option cJSON) (case_sensitive : Z) : Z :=
  match a, b with
  | Some x, Some y => if type x =? type y then 1 else 0
  | _, _ => 0
  end.

(** ** Array creation helpers

    The four helpers differ in the element type only.  [elements] is the
    memory the pointer argument points to, element by element (nothing
    for a NULL pointer); [fill_array] is the [for] loop, [n] turns from
    index [i] on, [array] the pointer to the array and what it points to.
    An element whose node cannot be created is not added,
    [cJSON_AddItemToArray] returning 0 for a NULL item. *)

Definition fill_array {A : Type} (create : A -> world -> option cJSON * world)
           (elements : list A)
  : nat -> nat -> option cJSON -> world -> outcome (option cJSON * world) :=
  fix loop (n i : nat) (array : option cJSON) (w : world)
    : outcome (option cJSON * world) :=
    match n with
    | O => Ret (array, w)
    | S n' =>
        match nth_error elements i with
        | None => Undefined
        | Some x =>
            let '(item, w1) := create x w in
            loop n' (S i) (snd (cJSON_AddItemToArray array item)) w1
        end
    end.

Definition create_array_of {A : Type} (create : A -> world -> option cJSON * world)
           (elements : list A) (count : Z) (w : world)
  : outcome (option cJSON * world) :=
  let '(array, w1) := cJSON_CreateArray w in
  match array with
  | None => Ret (None, w1)
  | Some _ => fill_array create elements (Z.to_nat count) 0 array w1
  end.

Definition cJSON_CreateIntArray (numbers : list Z) (count : Z) (w : world) :=
  create_array_of (fun n => cJSON_CreateNumber (double_of_int n)) numbers count w.

(** A [float] converts to the [double] of the same value. *)
Definition cJSON_CreateFloatArray (numbers : list double) (count : Z) (w : world) :=
  create_array_of cJSON_CreateNumber numbers count w.

Definition cJSON_CreateDoubleArray (numbers : list double) (count : Z) (w : world) :=
  create_array_of cJSON_CreateNumber numbers count w.

Definition cJSON_CreateStringArray (strings : list (option (list byte))) (count : Z)
           (w : world) :=
  create_array_of cJSON_CreateString strings count w.

(** ** Vocabulary of the heap properties *)

(** The heap blocks a node owns, itself included: what [cJSON_Delete]
    releases for it. *)
Fixpoint blocks (i : cJSON) : nat :=
  let inner :=
    if has_flag cJSON_IsReference i then O
    else (fold_right (fun c n => blocks c + n) O (child i)
          + match valuestring i with Some _ => 1 | None => 0 end)%nat in
  let key :=
    match string i with
    | Some _ => if has_flag cJSON_StringIsConst i then O else 1%nat
    | None => O
    end in
  S (inner + key).

Definition chain_blocks (chain : list cJSON) : nat :=
  fold_right (fun c n => blocks c + n)%nat O chain.

(** The change an event makes to the number of blocks held. *)
Definition event_delta (ev : mem_event) : Z :=
  match ev with
  | ev_malloc _ _ true => 1
  | ev_malloc _ _ false => 0
  | ev_free _ => -1
  end.

Definition held (trace : list mem_event) : Z :=
  fold_right (fun ev n => event_delta ev + n) 0 trace.

(** Blocks obtained and not yet released. *)
Definition live (w : world) : Z := held (heap_trace w).

(** The event is a call of the given allocation or release function. *)
Definition through (m f : fnptr) (ev : mem_event) : Prop :=
  match ev with
  | ev_malloc via _ _ => via = m
  | ev_free via => via = f
  end.

(** From [w] to [w'] the installed pair is kept, every heap call goes
    through it, and [n] more blocks are held. *)
Definition accounted (w w' : world) (n : Z) : Prop :=
  global_malloc w' = global_malloc w /\
  global_free w' = global_free w /\
  heap_grants w' = heap_grants w /\
  live w' = live w + n /\
  exists evs, heap_trace w' = evs ++ heap_trace w /\
              Forall (through (global_malloc w) (global_free w)) evs.

(** ** Vocabulary of the parser invariants *)

(** A node as the parser receives it: zeroed, but for its key. *)
Definition fresh (item : cJSON) : Prop :=
  type item = 0 /\ valuestring item = None /\ child item = [].

(** The bytes between the cursor and the length of the buffer. *)
Definition room (b : parse_buffer) : nat := (length b - offset b)%nat.

(** A child as an array ([keyed = false]) or an object ([keyed = true])
    holds it. *)
Definition member_ok (keyed : bool) (c : cJSON) : Prop :=
  well_formed c /\
  if keyed then exists k, string c = Some k else string c = None.

(** What holds when [parse_value], or one of the functions it
    dispatches to, returns: the buffer is the same memory with a cursor
    that has not moved back, the heap calls went through the installed
    pair and account for the blocks the node gained, a failure has set
    the error slot unless an allocation was refused, and a success has
    consumed input and stored a well-formed value without flag bits under
    the former key. *)
Definition value_post (item : cJSON) (b : parse_buffer) (w : world)
           (r : outcome parse_result) : Prop :=
  match r with
  | Ret (ok, item', b', w') =>
      content b' = content b /\ length b' = length b /\
      (room b' <= room b)%nat /\
      accounted w w' (Z.of_nat (blocks item') - Z.of_nat (blocks item)) /\
      (ok = 0 -> grants_all w -> global_error w' <> None) /\
      (ok <> 0 -> well_formed item' /\ string item' = string item /\
                  (room b' < room b)%nat /\ type item' = kind item')
  | _ => True
  end.

(** The same for the member loops, on the chain built so far. *)
Definition loop_post (keyed : bool) (head : list cJSON) (b : parse_buffer) (w : world)
           (r : outcome loop_result) : Prop :=
  match r with
  | Ret (ok, head', b', w') =>
      content b' = content b /\ length b' = length b /\
      (room b' <= room b)%nat /\
      accounted w w' (Z.of_nat (chain_blocks head') - Z.of_nat (chain_blocks head)) /\
      (ok = 0 -> grants_all w -> global_error w' <> None) /\
      (ok <> 0 -> Forall (member_ok keyed) head -> Forall (member_ok keyed) head')
  | _ => True
  end.

(** ** Inputs used in examples *)

(** A buffer of three bytes, a space, a tab and the letter x, with the
    cursor at its start. *)
Definition spaced_buffer : parse_buffer := mk_parse_buffer [32; TAB; 120] 3 0.

(** ** Vocabulary of the serializer properties *)

(** What a byte of a string value is after the value was printed and
    parsed again: a byte printed as a backslash-u escape comes back as a
    question mark. *)
Definition reparsed (c : byte) : byte := if printable c then c else QUESTION.

(** A print step went through the installed pair and holds no more
    blocks than before. *)
Definition print_post (w : world) (r : print_result) : Prop :=
  let '(_, _, w') := r in accounted w w' 0.

(** ** Further inputs used in examples *)

Definition one_text : list byte := c_string (bytes_of_string "1").

(** The node and the world after parsing the text of the number 1 in a
    fresh process. *)
Definition parsed_one : cJSON :=
  set_type cJSON_Number (set_number (Fin false 1 0) 1 zero_item).
Definition after_parsing_one : world :=
  log_event (ev_malloc libc sizeof_cJSON true) (set_error None initial_world).

(** ** Vocabulary of the builder properties *)

(** The result of a constructor: the blocks held grew by those the
    returned node owns, and the node has no key yet. *)
Definition created_ok (w : world) (r : option cJSON * world) : Prop :=
  live (snd r) = live w + Z.of_nat (chain_blocks (chain_of (fst r))) /\
  forall i, fst r = Some i ->
            string i = None /\ has_flag cJSON_StringIsConst i = false.

(** The nine create-and-attach helpers, with the value each one stores. *)
Definition add_helpers (boolean : Z) (number : double) (str raw : option (list byte))
  : list (option cJSON -> option (list byte) -> world
          -> option cJSON * option cJSON * world) :=
  [cJSON_AddNullToObject; cJSON_AddTrueToObject; cJSON_AddFalseToObject;
   (fun object name => cJSON_AddBoolToObject object name boolean);
   (fun object name => cJSON_AddNumberToObject object name number);
   (fun object name => cJSON_AddStringToObject object name str);
   (fun object name => cJSON_AddRawToObject object name raw);
   cJSON_AddObjectToObject; cJSON_AddArrayToObject].

(** ** Vocabulary of the array helpers *)

(** Texts separated by commas. *)
Fixpoint joined (texts : list (list byte)) : list byte :=
  match texts with
  | [] => []
  | t :: rest =>
      t ++ match rest with
           | [] => []
           | _ :: _ => COMMA :: joined rest
           end
  end.

(** The Number node [cJSON_CreateNumber] makes for a double. *)
Definition number_node (d : double) : cJSON :=
  set_number d (int_of_double d) (set_type cJSON_Number zero_item).

(** A heap that grants its first request and refuses all later ones. *)
Definition one_block_world : world :=
  mk_world libc libc None (fun n => Nat.eqb n 0) [].

(** What every array helper guarantees whatever the heap refuses: with
    the array node granted it returns an array, never null, of at most
    [count] elements, and holds the blocks of that array only; with the
    array node refused it returns null and holds nothing more. *)
Definition array_helper_post (count : Z) (w : world)
           (r : outcome (option cJSON * world)) : Prop :=
  exists a w',
    r = Ret (a, w') /\
    live w' = live w + Z.of_nat (chain_blocks (chain_of a)) /\
    match a with
    | Some arr =>
        next_granted w /\ cJSON_IsArray a = 1 /\
        0 <= cJSON_GetArraySize a <= Z.max 0 count
    | None => ~ next_granted w
    end.

(** ** The agent's JSON helpers (file_agent.c)

    [log_write] prints a line to the standard error stream and to the
    log file; what is kept of it is the call: its level, its format and
    the string it is given.  A [Command] holds three character arrays,
    zeroed at first; the field here is the C string the array holds. *)

Module file_agent.

Inductive LogLevel : Type := LOG_INFO | LOG_WARN | LOG_ERROR | LOG_AUDIT.

Record log_call : Type := mk_log_call {
  level : LogLevel;
  format : String.string;
  argument : option String.string
}.

Definition MAX_CONTENT : Z := 65536.
Definition MAX_PATH_LEN : Z := 1024.

Record Command : Type := mk_Command {
  action : list byte;
  path : list byte;
  content : list byte;
  valid : bool
}.

(** The size of the [action] array. *)
Definition sizeof_action : Z := 32.

(** [strncpy] of [n] bytes into a zeroed array of more than [n] bytes:
    the array then holds the first [n] bytes of the source string. *)
Definition strncpy (src : list byte) (n : Z) : list byte :=
  firstn (Z.to_nat n) (c_str src).

Definition log_write (lvl : LogLevel) (fmt : String.string)
           (arg : option String.string) (log : list log_call) : list log_call :=
  log ++ [mk_log_call lvl fmt arg].

Definition json_escape_string (src : option (list byte)) (w : world)
  : option (list byte) * world :=
  let '(str, w1) := cJSON_CreateString src w in
  match str with
  | None => (None, w1)
  | Some s =>
      let '(printed, w2) := cJSON_PrintUnformatted str w1 in
      (printed, cJSON_Delete [s] w2)
  end.

(** The string value of [item] when [item] is a String node that holds
    one: the test [cJSON_IsString(item) && item->valuestring]. *)
Definition string_value (item : option cJSON) : option (list byte) :=
  if cJSON_IsString item =? 0 then None
  else match item with
       | Some i => valuestring i
       | None => None
       end.

Definition parse_command (fuel : nat) (json_str : option (list byte))
           (w : world) (log : list log_call)
  : outcome (Command * world * list log_call) :=
  let cmd := mk_Command [] [] [] false in
  '(json, w1) <- cJSON_Parse fuel json_str w ;;
  match json with
  | None =>
      Ret (cmd, w1,
           log_write LOG_WARN "Failed to parse command JSON: %s"
                     (Some (match cJSON_GetErrorPtr w1 with
                            | Some e => e
                            | None => "unknown error"%string
                            end)) log)
  | Some j =>
      let action_item :=
        cJSON_GetObjectItemCaseSensitive json (Some (bytes_of_string "action")) in
      match string_value action_item with
      | None =>
          Ret (cmd, cJSON_Delete [j] w1,
               log_write LOG_WARN "Missing or invalid 'action' field" None log)
      | Some action_text =>
          let path_item :=
            cJSON_GetObjectItemCaseSensitive json (Some (bytes_of_string "path")) in
          let content_item :=
            cJSON_GetObjectItemCaseSensitive json (Some (bytes_of_string "content")) in
          Ret (mk_Command
                 (strncpy action_text (sizeof_action - 1))
                 (match string_value path_item with
                  | Some s => strncpy s (MAX_PATH_LEN - 1)
                  | None => []
                  end)
                 (match string_value content_item with
                  | Some s => strncpy s (MAX_CONTENT - 1)
                  | None => []
                  end)
                 true,
               cJSON_Delete [j] w1, log)
      end
  end.

(** The text of a command that reads a file, with a second action
    member that is not looked at. *)
Definition read_command_text : list byte :=
  [LBRACE] ++ quoted "action" ++ [COLON] ++ quoted "read" ++ [COMMA]
           ++ quoted "path" ++ [COLON] ++ quoted "notes.txt" ++ [COMMA]
           ++ quoted "action" ++ [COLON] ++ quoted "delete" ++ [RBRACE].

End file_agent.

(** * Properties *)

(** ** The C library models on sample inputs *)

Example fmt_g_three_and_a_half :
  fmt_g (Fin false 7 (-1)) = bytes_of_string "3.5".
Proof. reflexivity. Qed.

Example fmt_g_samples :
  fmt_g (Fin false 1 (-1)) = bytes_of_string "0.5" /\
  fmt_g (Fin true 5 1) = bytes_of_string "-10" /\
  fmt_g (Fin false 10000000000 0) = bytes_of_string "1e+10" /\
  fmt_g (Fin false 1000000 0) = bytes_of_string "1e+06" /\
  fmt_g (Fin false 999999 0) = bytes_of_string "999999" /\
  fmt_g (Fin false 123456789 0) = bytes_of_string "1.23457e+08" /\
  fmt_g (Fin false 1234565 0) = bytes_of_string "1.23456e+06" /\
  fmt_g (Fin false 9999995 0) = bytes_of_string "1e+07" /\
  fmt_g (Fin false 1 (-14)) = bytes_of_string "6.10352e-05" /\
  fmt_g (Fin false 1 (-13)) = bytes_of_string "0.00012207" /\
  fmt_g (Fin false 1 (-1074)) = bytes_of_string "4.94066e-324" /\
  fmt_g (Fin false 3 (-2)) = bytes_of_string "0.75".
Proof. vm_compute. repeat split. Qed.

Example strtod_samples :
  strtod (bytes_of_string "1,2") = Ret (Fin false 1 0, 1%nat) /\
  strtod (bytes_of_string "-12]") = Ret (Fin true 12 0, 3%nat) /\
  strtod (bytes_of_string "3.5}") = Ret (Fin false 7881299347898368 (-51), 3%nat) /\
  strtod (bytes_of_string "0.1 ") = Ret (Fin false 7205759403792794 (-56), 3%nat) /\
  strtod (bytes_of_string "1e+10,") = Ret (Fin false 10000000000 0, 5%nat) /\
  strtod (bytes_of_string "1e,") = Ret (Fin false 1 0, 1%nat) /\
  strtod (bytes_of_string "0x1A]") = Ret (Fin false 26 0, 4%nat) /\
  strtod (bytes_of_string "0x,") = Ret (Fin false 0 0, 1%nat) /\
  strtod (bytes_of_string "-inf,") = Ret (Inf true, 4%nat) /\
  strtod (bytes_of_string "-x") = Ret (Fin false 0 0, 0%nat) /\
  strtod (bytes_of_string "1e999 ") = Ret (Inf false, 5%nat) /\
  strtod (bytes_of_string "12") = Undefined.
Proof. vm_compute. repeat split. Qed.

(** ** Kind predicates on a null reference *)

(** C3, as stated, fails: [cJSON_IsInvalid] answers true on a null
    reference. *)
Lemma C3_IsInvalid_null_is_true :
  cJSON_IsInvalid None = 1 /\ cJSON_IsInvalid None <> 0.
Proof. split; [reflexivity | discriminate]. Qed.

(** C3, amended: on a null reference every kind predicate returns a
    value without failing; the nine predicates that name a kind return
    false, and [cJSON_IsInvalid] returns true. *)
Theorem C3_kind_predicates_on_null :
  cJSON_IsFalse None = 0 /\ cJSON_IsTrue None = 0 /\ cJSON_IsBool None = 0 /\
  cJSON_IsNull None = 0 /\ cJSON_IsNumber None = 0 /\ cJSON_IsString None = 0 /\
  cJSON_IsArray None = 0 /\ cJSON_IsObject None = 0 /\ cJSON_IsRaw None = 0 /\
  cJSON_IsInvalid None = 1.
Proof. repeat split. Qed.

(** ** Object lookup *)

Lemma first_with_key_first_match :
  forall cmp key chain, first_match cmp key chain (first_with_key cmp chain key).
Proof.
  intros cmp key chain.
  induction chain as [| c next IH]; simpl.
  - constructor.
  - assert (Hstep : key_matches cmp key c = false ->
                    first_match cmp key (c :: next) (first_with_key cmp next key)).
    { intros Hc. unfold first_match in *.
      destruct (first_with_key cmp next key) as [r |].
      - destruct IH as (pre & post & Heq & Hm & Hpre).
        exists (c :: pre), post. rewrite Heq. repeat split; auto.
      - constructor; assumption. }
    destruct (string c) as [k |] eqn:Hs.
    + destruct (cmp k key =? 0) eqn:Hk.
      * exists [], next. unfold key_matches. rewrite Hs. repeat split; auto.
      * apply Hstep. unfold key_matches. rewrite Hs. exact Hk.
    + apply Hstep. unfold key_matches. rewrite Hs. reflexivity.
Qed.

Lemma first_with_key_no_match :
  forall cmp key chain,
    Forall (fun x => key_matches cmp key x = false) chain ->
    first_with_key cmp chain key = None.
Proof.
  intros cmp key chain H. induction H as [| c next Hc _ IH]; [reflexivity |].
  cbn [first_with_key]. unfold key_matches in Hc.
  destruct (string c); [rewrite Hc |]; exact IH.
Qed.

Lemma strcmp_zero_iff :
  forall a b, strcmp a b = 0 <-> c_str a = c_str b.
Proof.
  induction a as [| x a IH]; intros [| y b]; simpl.
  - tauto.
  - destruct (Z.eqb_spec y NUL); unfold NUL in *; split; intros; try lia; try discriminate; auto.
  - destruct (Z.eqb_spec x NUL); unfold NUL in *; split; intros; try lia; try discriminate; auto.
  - destruct (Z.eqb_spec x y) as [-> | Hne].
    + destruct (Z.eqb_spec y NUL); [tauto |].
      rewrite IH. split; [intros -> | intros [=]]; auto.
    + destruct (Z.eqb_spec x NUL) as [-> | Hx], (Z.eqb_spec y NUL) as [-> | Hy];
        split; intros H; try lia; try discriminate; try congruence.
Qed.

(** C7: both object lookups return the first member, in sibling order,
    whose key compares equal to the requested one (exactly for the
    case-sensitive lookup, up to letter case for the other), and return
    null when no member does; on the object parsed from the text with two
    members named a, of values 1 and 2, both return the member of value 1. *)
Theorem C7_object_lookup_first_match :
  (forall (o : cJSON) (key : list byte),
      first_match strcmp key (child o)
                  (cJSON_GetObjectItemCaseSensitive (Some o) (Some key)) /\
      first_match strcasecmp key (child o)
                  (cJSON_GetObjectItem (Some o) (Some key))) /\
  (forall (o : cJSON) (key : list byte),
      (Forall (fun x => key_matches strcmp key x = false) (child o) ->
       cJSON_GetObjectItemCaseSensitive (Some o) (Some key) = None) /\
      (Forall (fun x => key_matches strcasecmp key x = false) (child o) ->
       cJSON_GetObjectItem (Some o) (Some key) = None)) /\
  (forall n, exists obj m1 m2 w,
      cJSON_Parse (4 + n) (Some (c_string duplicate_key_text)) initial_world
      = Ret (Some obj, w) /\
      child obj = [m1; m2] /\ valueint m1 = 1 /\ valueint m2 = 2 /\
      cJSON_GetObjectItemCaseSensitive (Some obj) (Some (bytes_of_string "a")) = Some m1 /\
      cJSON_GetObjectItem (Some obj) (Some (bytes_of_string "a")) = Some m1).
Proof.
  split; [| split].
  - intros o key. split; apply first_with_key_first_match.
  - intros o key. split; intros Hnone; apply first_with_key_no_match; exact Hnone.
  - intros n. do 4 eexists. split; [vm_compute; reflexivity |].
    vm_compute. repeat split.
Qed.

Lemma C7_object_lookup_first_match_witness :
  Forall (fun x => key_matches strcmp (bytes_of_string "b") x = false)
         (child sample_object) /\
  cJSON_GetObjectItemCaseSensitive (Some sample_object) (Some (bytes_of_string "b")) = None.
Proof.
  assert (H : Forall (fun x => key_matches strcmp (bytes_of_string "b") x = false)
                     (child sample_object))
    by (repeat constructor).
  split; [exact H |].
  exact (proj1 (proj1 (proj2 C7_object_lookup_first_match)
                      sample_object (bytes_of_string "b")) H).
Defined.

(** ** Strings without a value *)

(** C10: [cJSON_CreateString] on a null pointer returns, when its node is
    allocated, a node of kind String without string value, and that node
    is serialized as the empty JSON string. *)
Theorem C10_create_string_null :
  forall w, next_granted w ->
    exists item w1,
      cJSON_CreateString None w = (Some item, w1) /\
      kind item = cJSON_String /\
      valuestring item = None /\
      forall w2, next_granted w2 ->
        fst (cJSON_PrintUnformatted (Some item) w2) = Some [QUOTE; QUOTE].
Proof.
  intros w Hw. unfold next_granted in Hw.
  unfold cJSON_CreateString, cJSON_New_Item, call_malloc. rewrite Hw.
  do 2 eexists. split; [reflexivity |]. split; [reflexivity |].
  split; [reflexivity |].
  intros w2 Hw2. unfold next_granted in Hw2.
  unfold cJSON_PrintUnformatted, call_malloc. rewrite Hw2. reflexivity.
Qed.

Lemma C10_create_string_null_witness :
  next_granted initial_world /\
  exists item w1,
    cJSON_CreateString None initial_world = (Some item, w1) /\
    kind item = cJSON_String /\
    valuestring item = None /\
    forall w2, next_granted w2 ->
      fst (cJSON_PrintUnformatted (Some item) w2) = Some [QUOTE; QUOTE].
Proof.
  split; [reflexivity | apply (C10_create_string_null initial_world); reflexivity].
Defined.

(** ** Number formatting *)

(** C8, as stated, fails: a Number node created from 3 + 2^-30 differs
    from its integer view, and yet its serialization is the bare text 3,
    without a fraction. *)
Lemma C8_fraction_lost :
  exists item w,
    cJSON_CreateNumber just_above_three initial_world = (Some item, w) /\
    valueint item = 3 /\
    double_eqb (valuedouble item) (double_of_int (valueint item)) = false /\
    fst (cJSON_PrintUnformatted (Some item) w) = Some (bytes_of_string "3").
Proof.
  do 2 eexists. split; [vm_compute; reflexivity |]. vm_compute. repeat split.
Qed.

(** C8, amended: a successful [print_number] appends null for NaN and
    the infinities; otherwise the percent-d text of the integer view when
    the stored double equals it, and the percent-g text of the double
    (six significant digits, so that a fraction shows only when it
    survives that rounding) when it does not.  A node created from 3.0
    prints as 3, one created from 3.5 as 3.5. *)
Theorem C8_number_formatting :
  (forall item p w p' w',
      print_number item p w = (1, p', w') ->
      exists text,
        buffer p' = buffer p ++ text /\
        (isnan (valuedouble item) || isinf (valuedouble item) = true ->
         text = bytes_of_string "null") /\
        (isnan (valuedouble item) || isinf (valuedouble item) = false ->
         double_eqb (valuedouble item) (double_of_int (valueint item)) = true ->
         text = fmt_d (valueint item)) /\
        (isnan (valuedouble item) || isinf (valuedouble item) = false ->
         double_eqb (valuedouble item) (double_of_int (valueint item)) = false ->
         text = fmt_g (valuedouble item))) /\
  (exists item w,
      cJSON_CreateNumber (Fin false 3 0) initial_world = (Some item, w) /\
      fst (cJSON_PrintUnformatted (Some item) w) = Some (bytes_of_string "3")) /\
  (exists item w,
      cJSON_CreateNumber (Fin false 7 (-1)) initial_world = (Some item, w) /\
      fst (cJSON_PrintUnformatted (Some item) w) = Some (bytes_of_string "3.5")).
Proof.
  split; [| split; do 2 eexists; (split; [vm_compute; reflexivity |]);
               vm_compute; reflexivity].
  intros item p w p' w' H. unfold print_number in H.
  destruct (ensure_buffer p 64 w) as [[ok p1] w1] eqn:He.
  assert (Hp1 : buffer p1 = buffer p).
  { unfold ensure_buffer in He.
    destruct (_ <=? _); [injection He as _ <- _; reflexivity |].
    destruct (call_malloc _ _ _) as [g w0]. destruct g; injection He as _ <- _; reflexivity. }
  destruct (ok =? 0); [discriminate |].
  injection H as <- _. simpl. rewrite Hp1. unfold number_text.
  eexists. split; [reflexivity |].
  destruct (isnan (valuedouble item) || isinf (valuedouble item)).
  - repeat split; intros; try discriminate; reflexivity.
  - destruct (double_eqb _ _); repeat split; intros; try discriminate; reflexivity.
Qed.

Lemma C8_number_formatting_witness :
  let item := set_number NaN 0 (set_type cJSON_Number zero_item) in
  let p := mk_printbuffer [LBRACKET] 256 in
  let p' := emit (bytes_of_string "null") p in
  print_number item p initial_world = (1, p', initial_world) /\
  exists text, buffer p' = buffer p ++ text /\ text = bytes_of_string "null".
Proof.
  intros item p p'.
  assert (H : print_number item p initial_world = (1, p', initial_world))
    by reflexivity.
  split; [exact H |].
  destruct (proj1 C8_number_formatting item p initial_world p' initial_world H)
    as (text & Hb & Hnull & _).
  exists text. split; [exact Hb | apply Hnull; reflexivity].
Defined.

(** ** Allocator hooks *)

(** C2 fails on the code: with a caller-installed allocation pair,
    [cJSON_CreateString] takes the node from the installed [malloc] but
    the copy of the text from the platform's, through [strdup]; deleting
    the node hands both blocks to the installed [free].  The key copied
    by [cJSON_AddItemToObject] takes the same path. *)
Theorem C2_strdup_bypasses_hooks :
  global_malloc hooked_world = hook 1 /\ global_free hooked_world = hook 2 /\
  (exists item w1,
      cJSON_CreateString (Some (bytes_of_string "a")) hooked_world = (Some item, w1) /\
      heap_trace w1 = [ev_malloc libc 2 true; ev_malloc (hook 1) 64 true] /\
      heap_trace (cJSON_Delete [item] w1)
      = [ev_free (hook 2); ev_free (hook 2)] ++ heap_trace w1) /\
  (forall object item,
      exists r o1 i1 w1,
        cJSON_AddItemToObject (Some object) (Some (bytes_of_string "k")) (Some item)
                              hooked_world = (r, o1, i1, w1) /\
        heap_trace w1 = [ev_malloc libc 2 true]).
Proof.
  split; [reflexivity |]. split; [reflexivity |]. split.
  - do 2 eexists. split; [vm_compute; reflexivity |]. vm_compute. repeat split.
  - intros object item. do 4 eexists. split; reflexivity.
Qed.

(** ** Reads beyond the given length *)

(** C4 fails on the code: the result of [cJSON_ParseWithLength] depends
    on bytes at and after the given length.  Of two memories with the
    same first two bytes and length 2, one parses to the string a and the
    other fails, by the scan of [parse_string]; [strtod] continues a
    number past the length, and the closing bracket of an array is read
    at the length. *)
Theorem C4_parse_reads_past_length :
  firstn 2 closed_beyond_length = firstn 2 open_beyond_length /\
  (forall n, exists item w,
      cJSON_ParseWithLength (1 + n) (Some closed_beyond_length) 2 initial_world
      = Ret (Some item, w) /\
      kind item = cJSON_String /\ valuestring item = Some [97]) /\
  (forall n, exists w,
      cJSON_ParseWithLength (1 + n) (Some open_beyond_length) 2 initial_world
      = Ret (None, w)) /\
  (forall n, exists item w,
      cJSON_ParseWithLength (1 + n) (Some (c_string (bytes_of_string "12"))) 1
                            initial_world = Ret (Some item, w) /\
      valueint item = 12) /\
  (forall n, exists item w,
      cJSON_ParseWithLength (3 + n) (Some (c_string (bytes_of_string "[1]"))) 2
                            initial_world = Ret (Some item, w) /\
      kind item = cJSON_Array) /\
  (forall n, exists w,
      cJSON_ParseWithLength (3 + n) (Some (c_string (bytes_of_string "[1"))) 2
                            initial_world = Ret (None, w)).
Proof.
  split; [reflexivity |].
  split; [intros n; do 2 eexists; (split; [vm_compute; reflexivity |]);
          vm_compute; repeat split |].
  split; [intros n; eexists; vm_compute; reflexivity |].
  split; [intros n; do 2 eexists; (split; [vm_compute; reflexivity |]);
          vm_compute; repeat split |].
  split; [intros n; do 2 eexists; (split; [vm_compute; reflexivity |]);
          vm_compute; repeat split |].
  intros n; eexists; vm_compute; reflexivity.
Qed.

(** ** Malformed input *)

Lemma parse_member_without_value_fails :
  forall n, exists w,
    cJSON_Parse (3 + n) (Some (c_string member_without_value_text)) initial_world
    = Ret (None, w) /\
    cJSON_GetErrorPtr w = Some "Invalid value"%string.
Proof.
  intros n. eexists. split; [vm_compute; reflexivity |]. vm_compute. reflexivity.
Qed.

Lemma parse_open_array_fails :
  forall n, exists w,
    cJSON_Parse (5 + n) (Some (c_string open_array_text)) initial_world
    = Ret (None, w) /\
    cJSON_GetErrorPtr w = Some "Unexpected end"%string.
Proof.
  intros n. eexists. split; [vm_compute; reflexivity |]. vm_compute. reflexivity.
Qed.

(** C5 fails on the code: the unterminated string made of a quote, the
    letter a and a backslash is not rejected.  The scan of [parse_string]
    steps over the terminator as the byte escaped by the backslash and
    goes on in the memory behind it: with a quote there the parse
    returns a String node, and with the allocation ending there the read
    has no defined result.  In neither case is null returned. *)
Theorem C5_backslash_hides_terminator :
  strlen backslash_at_end = Ret 3%nat /\
  c_str backslash_at_end = [QUOTE; 97; BACKSLASH] /\
  (forall n, exists item w,
      cJSON_Parse (1 + n) (Some backslash_at_end) initial_world = Ret (Some item, w) /\
      kind item = cJSON_String /\ valuestring item = Some [97]) /\
  (forall n,
      cJSON_Parse (1 + n) (Some (c_string [QUOTE; 97; BACKSLASH])) initial_world
      = Undefined).
Proof.
  split; [reflexivity |]. split; [reflexivity |].
  split; intros n.
  - do 2 eexists. split; [vm_compute; reflexivity |]. vm_compute. repeat split.
  - vm_compute. reflexivity.
Qed.

(** ** The error slot *)

Ltac keep_step :=
  match goal with
  | |- ok_keeps_error _ (bind ?m _) =>
      destruct m as [? | |] eqn:?; cbn [bind]; [| exact I | exact I]
  | |- ok_keeps_error _ (if ?c then _ else _) => destruct c eqn:?
  | |- ok_keeps_error _ (let '(_, _) := ?x in _) => destruct x eqn:?
  | |- ok_keeps_error _ (match ?x with _ => _ end) => destruct x eqn:?
  | |- ok_keeps_error _ Undefined => exact I
  | |- ok_keeps_error _ OutOfFuel => exact I
  | |- ok_keeps_error _ (Ret _) =>
      cbn [ok_keeps_error]; intros; try congruence; try reflexivity
  end.

Lemma call_malloc_error :
  forall via size w ok w1,
    call_malloc via size w = (ok, w1) -> global_error w1 = global_error w.
Proof. intros via size w ok w1 [= _ <-]. reflexivity. Qed.

Lemma parse_string_keeps_error :
  forall item b w, ok_keeps_error w (parse_string item b w).
Proof.
  intros item b w. unfold parse_string.
  repeat keep_step.
  eapply call_malloc_error; eassumption.
Qed.

Lemma parse_number_keeps_error :
  forall item b w, ok_keeps_error w (parse_number item b w).
Proof.
  intros item b w. unfold parse_number.
  repeat keep_step.
Qed.

Lemma parse_bracketed_keeps_error :
  forall opening closing tag e1 e2 loop,
    (forall head b w, ok_keeps_error w (loop head b w)) ->
    forall item b w,
      ok_keeps_error w (parse_bracketed opening closing tag e1 e2 loop item b w).
Proof.
  intros opening closing tag e1 e2 loop Hloop item b w. unfold parse_bracketed.
  repeat keep_step.
  match goal with
  | H : loop ?h ?b ?w = Ret _ |- _ =>
      pose proof (Hloop h b w) as Hk; rewrite H in Hk; cbn in Hk; apply Hk
  end.
  intros ->. discriminate.
Qed.

Lemma ok_keeps_error_trans :
  forall (A : Type) (w w1 : world) (r : outcome (Z * A * parse_buffer * world)),
    global_error w1 = global_error w -> ok_keeps_error w1 r -> ok_keeps_error w r.
Proof.
  intros A w w1 [[[[ok x] b] w2] | |] Hw H; cbn in *; auto.
  intros Hok. rewrite <- Hw. auto.
Qed.

(** Runs the recursive call at the head of the goal with its induction
    hypothesis [IH] in hand, and leaves the case where it succeeded. *)
Ltac keep_call IH :=
  match goal with
  | |- ok_keeps_error _ (bind (?f ?i ?b ?w) _) =>
      let Hk := fresh "Hk" in
      pose proof (IH i b w) as Hk;
      destruct (f i b w) as [[[[? ?] ?] ?] | |]; cbn [bind]; [| exact I | exact I];
      cbn [ok_keeps_error] in Hk;
      match goal with
      | |- ok_keeps_error _ (if ?ok =? 0 then _ else _) =>
          destruct (Z.eqb_spec ok 0);
          [cbn [ok_keeps_error]; intros; congruence | specialize (Hk ltac:(assumption))]
      end
  end.

Lemma parse_keeps_error :
  forall fuel,
    (forall item b w, ok_keeps_error w (parse_value fuel item b w)) /\
    (forall head b w, ok_keeps_error w (parse_array_loop fuel head b w)) /\
    (forall head b w, ok_keeps_error w (parse_object_loop fuel head b w)).
Proof.
  induction fuel as [| fuel (IHv & IHa & IHo)].
  - repeat split; intros; exact I.
  - split; [| split].
    + intros item b w. cbn [parse_value].
      repeat keep_step.
      * apply parse_string_keeps_error.
      * apply parse_number_keeps_error.
      * apply parse_bracketed_keeps_error, IHa.
      * apply parse_bracketed_keeps_error, IHo.
    + intros head b w. cbn [parse_array_loop].
      keep_step. unfold cJSON_New_Item, call_malloc.
      destruct (heap_grants w _); cbn iota beta; [| keep_step].
      keep_call IHv. cbn in Hk.
      do 3 keep_step.
      keep_step; [| keep_step].
      eapply ok_keeps_error_trans; [exact Hk | apply IHa].
    + intros head b w. cbn [parse_object_loop].
      keep_step. unfold cJSON_New_Item, call_malloc.
      destruct (heap_grants w _); cbn iota beta; [| keep_step].
      keep_call parse_string_keeps_error. cbn in Hk.
      do 2 keep_step. keep_step; [keep_step |]. keep_step.
      match goal with
      | |- ok_keeps_error _ (bind (parse_value _ ?i ?b ?w) _) =>
          apply (ok_keeps_error_trans _ _ w); [exact Hk |]
      end.
      keep_call IHv.
      do 3 keep_step.
      keep_step; [| keep_step].
      eapply ok_keeps_error_trans; [eassumption | apply IHo].
Qed.

Lemma ParseWithLength_error :
  forall fuel value len w item w',
    cJSON_ParseWithLength fuel value len w = Ret (Some item, w') ->
    global_error w' = None.
Proof.
  intros fuel value len w item w' H. unfold cJSON_ParseWithLength in H.
  destruct value as [mem |]; [| discriminate].
  destruct (len =? 0)%nat; [discriminate |].
  unfold cJSON_New_Item, call_malloc in H.
  destruct (heap_grants _ _); cbn iota beta in H; [| discriminate].
  match type of H with
  | bind (parse_value ?f ?i ?b ?w1) _ = _ =>
      pose proof (proj1 (parse_keeps_error f) i b w1) as Hk;
      destruct (parse_value f i b w1) as [[[[ok i1] b1] w2] | |];
      cbn [bind] in H; try discriminate
  end.
  cbn [ok_keeps_error] in Hk.
  destruct (Z.eqb_spec ok 0); [discriminate |].
  injection H as _ <-. rewrite Hk by assumption. reflexivity.
Qed.

(** C9: the parse entry points start from an empty error slot whatever
    it held (their result is the one they have when called with the slot
    already empty), and after a call that returns a tree the slot is
    empty. *)
Theorem C9_error_slot_reset :
  forall fuel value len w,
    cJSON_ParseWithLength fuel value len w
    = cJSON_ParseWithLength fuel value len (set_error None w) /\
    cJSON_Parse fuel value w = cJSON_Parse fuel value (set_error None w) /\
    (forall item w',
        cJSON_ParseWithLength fuel value len w = Ret (Some item, w') ->
        cJSON_GetErrorPtr w' = None) /\
    (forall item w',
        cJSON_Parse fuel value w = Ret (Some item, w') ->
        cJSON_GetErrorPtr w' = None).
Proof.
  intros fuel value len w.
  assert (Hreset : forall l, cJSON_ParseWithLength fuel value l w
                             = cJSON_ParseWithLength fuel value l (set_error None w))
    by reflexivity.
  split; [apply Hreset |]. split; [| split].
  - unfold cJSON_Parse. destruct value as [mem |]; [| apply Hreset].
    destruct (strlen mem); cbn [bind]; auto.
  - intros item w' H. eapply ParseWithLength_error; eassumption.
  - intros item w' H. unfold cJSON_Parse in H.
    destruct value as [mem |]; [| discriminate].
    destruct (strlen mem); cbn [bind] in H; try discriminate.
    eapply ParseWithLength_error; eassumption.
Qed.

Lemma C9_error_slot_reset_witness :
  cJSON_GetErrorPtr stale_world = Some "Unterminated string"%string /\
  exists item w',
    cJSON_Parse 1 (Some (c_string (bytes_of_string "1"))) stale_world
    = Ret (Some item, w') /\
    cJSON_GetErrorPtr w' = None.
Proof.
  split; [reflexivity |].
  do 2 eexists.
  assert (H : cJSON_Parse 1 (Some (c_string (bytes_of_string "1"))) stale_world
              = Ret (Some (set_type cJSON_Number (set_number (Fin false 1 0) 1 zero_item)),
                     log_event (ev_malloc libc 64 true) (set_error None stale_world)))
    by (vm_compute; reflexivity).
  split; [exact H |].
  exact (proj2 (proj2 (proj2 (C9_error_slot_reset 1 (Some (c_string (bytes_of_string "1")))
                                                   1 stale_world))) _ _ H).
Defined.

(** ** Round trip: strings *)

Lemma printable_cases :
  forall c, printable c = true ->
    c = BS \/ c = TAB \/ c = LF \/ c = FF \/ c = CR \/ c = QUOTE \/ c = BACKSLASH \/
    (32 <= c /\ c <> QUOTE /\ c <> BACKSLASH).
Proof.
  intros c H. unfold printable in H. unfold BS, TAB, LF, FF, CR, QUOTE, BACKSLASH in *.
  repeat rewrite orb_true_iff in H.
  destruct (Z.eq_dec c 34); [tauto |]. destruct (Z.eq_dec c 92); [tauto |].
  destruct H as [[[[[H | H] | H] | H] | H] | H];
    try (apply Z.eqb_eq in H; tauto).
  apply Z.leb_le in H. right. right. right. right. right. right. right. lia.
Qed.

Lemma escape_plain_byte :
  forall c, 32 <= c -> c <> QUOTE -> c <> BACKSLASH -> escape_byte c = [c].
Proof.
  intros c H Hq Hb. unfold escape_byte, QUOTE, BACKSLASH, BS, FF, LF, CR, TAB in *.
  repeat match goal with
         | |- context [c =? ?k] => destruct (Z.eqb_spec c k); [exfalso; lia |]
         end.
  destruct (Z.ltb_spec c 32); [exfalso; lia | reflexivity].
Qed.

Lemma scan_string_escape_byte :
  forall c rest stepped len,
    printable c = true ->
    scan_string (escape_byte c ++ rest) stepped len
    = scan_string rest (stepped + List.length (escape_byte c)) (S len).
Proof.
  intros c rest stepped len H.
  destruct (printable_cases c H) as [-> | [-> | [-> | [-> | [-> | [-> | [-> | (Hc & Hq & Hb)]]]]]]];
    try (cbn; f_equal; lia).
  rewrite escape_plain_byte by assumption. cbn [app scan_string].
  unfold QUOTE, BACKSLASH, NUL in *.
  destruct (Z.eqb_spec c 34); [exfalso; lia |]. destruct (Z.eqb_spec c 0); [exfalso; lia |].
  destruct (Z.eqb_spec c 92); [exfalso; lia |]. f_equal. cbn. lia.
Qed.

Lemma scan_string_escape :
  forall s rest stepped len,
    forallb printable s = true ->
    scan_string (escape s ++ QUOTE :: rest) stepped len
    = Ret (true, (stepped + List.length (escape s))%nat, (len + List.length s)%nat).
Proof.
  induction s as [| c s IH]; intros rest stepped len H.
  - cbn [escape flat_map app scan_string List.length].
    rewrite Z.eqb_refl, !Nat.add_0_r. reflexivity.
  - cbn [forallb] in H. apply andb_true_iff in H as [Hc Hs].
    unfold escape in *. cbn [flat_map]. rewrite <- app_assoc.
    rewrite scan_string_escape_byte by assumption.
    rewrite IH by assumption. rewrite length_app. cbn [List.length].
    match goal with
    | |- Ret (_, ?a, ?b) = Ret (_, ?c, ?d) =>
        replace a with c by lia; replace b with d by lia; reflexivity
    end.
Qed.

Lemma unescape_escape_byte :
  forall c rest,
    printable c = true ->
    unescape (escape_byte c ++ rest) = (o <- unescape rest ;; Ret (c :: o)).
Proof.
  intros c rest H.
  destruct (printable_cases c H) as [-> | [-> | [-> | [-> | [-> | [-> | [-> | (Hc & Hq & Hb)]]]]]]];
    try reflexivity.
  rewrite escape_plain_byte by assumption. cbn [app unescape].
  unfold QUOTE, BACKSLASH in *.
  destruct (Z.eqb_spec c 34); [exfalso; lia |]. destruct (Z.eqb_spec c 92); [exfalso; lia |].
  reflexivity.
Qed.

Lemma unescape_escape :
  forall s rest,
    forallb printable s = true ->
    unescape (escape s ++ QUOTE :: rest) = Ret s.
Proof.
  induction s as [| c s IH]; intros rest H.
  - reflexivity.
  - cbn [forallb] in H. apply andb_true_iff in H as [Hc Hs].
    unfold escape in *. cbn [flat_map]. rewrite <- app_assoc.
    rewrite unescape_escape_byte by assumption.
    rewrite IH by assumption. reflexivity.
Qed.

Lemma c_str_printable :
  forall s, forallb printable s = true -> c_str s = s.
Proof.
  induction s as [| c s IH]; intros H; [reflexivity |].
  cbn [forallb] in H. apply andb_true_iff in H as [Hc Hs].
  cbn [c_str]. rewrite IH by assumption.
  destruct (Z.eqb_spec c NUL) as [-> | _]; [discriminate | reflexivity].
Qed.

(** ** Round trip: integers *)

Lemma is_digit_range : forall c, is_digit c = true <-> 48 <= c <= 57.
Proof. intros c. unfold is_digit. rewrite andb_true_iff, !Z.leb_le. tauto. Qed.

Lemma delimiter_not_digit : forall c, delimiter c -> is_digit c = false.
Proof. intros c [-> | [-> | [-> | ->]]]; reflexivity. Qed.

Lemma bytes_of_uint_digits : forall u, Forall (fun c => is_digit c = true) (bytes_of_uint u).
Proof. induction u; cbn [bytes_of_uint]; constructor; auto. Qed.

Lemma scan_digits_bytes :
  forall u c rest,
    is_digit c = false ->
    scan_digits (bytes_of_uint u ++ c :: rest) = (u, c :: rest).
Proof.
  intros u c rest Hc.
  induction u; cbn [bytes_of_uint app scan_digits];
    [rewrite Hc; reflexivity | ..];
    change (is_digit _) with true; cbn iota; rewrite IHu; reflexivity.
Qed.

Lemma bytes_of_uint_nonnil :
  forall u, u <> Decimal.Nil ->
    exists d tl, bytes_of_uint u = d :: tl /\ is_digit d = true.
Proof.
  intros [] H; try congruence; cbn [bytes_of_uint]; do 2 eexists; split; reflexivity.
Qed.

Lemma digit_is_plain :
  forall d, is_digit d = true ->
    isspace d = false /\ d <> MINUS /\ d <> PLUS /\ d <> DOT /\ tolower d = d.
Proof.
  intros d H. apply is_digit_range in H.
  unfold isspace, tolower, MINUS, PLUS, DOT.
  repeat split; try lia.
  destruct (Z.leb_spec 65 d), (Z.leb_spec d 90); cbn; try reflexivity; exfalso; lia.
Qed.

(** [scan_decimal] on an integer literal followed by a delimiter. *)
Lemma scan_decimal_integer :
  forall neg u c rest,
    u <> Decimal.Nil -> delimiter c ->
    scan_decimal neg (bytes_of_uint u ++ c :: rest)
    = Ret (Some (round_binary64 neg (Z.of_uint u) 1, c :: rest)).
Proof.
  intros neg u c rest Hu Hc. unfold scan_decimal.
  rewrite scan_digits_bytes by (apply delimiter_not_digit; exact Hc).
  assert (Hstep : forall k : Decimal.uint * list byte -> outcome (option (double * list byte)),
             (c1 <- peek (c :: rest) ;;
              p <- (if c1 =? DOT
                    then let '(u0, r) := scan_digits (tl (c :: rest)) in
                         _ <- peek r ;; Ret (u0, r)
                    else Ret (Decimal.Nil, c :: rest)) ;; k p)
             = k (Decimal.Nil, c :: rest)).
  { intros k. destruct Hc as [-> | [-> | [-> | ->]]]; reflexivity. }
  rewrite Hstep.
  assert (Hexp : scan_exponent CH_e (c :: rest) = Ret (0, c :: rest)).
  { destruct Hc as [-> | [-> | [-> | ->]]]; reflexivity. }
  destruct u; try congruence; rewrite Hexp; cbn [bind];
    rewrite DecimalFacts.app_nil_r; cbn [Decimal.nb_digits Z.of_nat Z.sub Z.leb Z.compare Z.opp];
    change (10 ^ 0) with 1; rewrite Z.mul_1_r; reflexivity.
Qed.

Lemma strtod_unsigned_digits :
  forall neg d tl,
    is_digit d = true ->
    (exists c' tl', tl = c' :: tl' /\ tolower c' <> 120) ->
    strtod_unsigned neg (d :: tl) = scan_decimal neg (d :: tl).
Proof.
  intros neg d tl Hd (c' & tl' & -> & Hx).
  pose proof (proj1 (is_digit_range d) Hd) as Hr.
  destruct (digit_is_plain d Hd) as (_ & _ & _ & _ & Hl).
  unfold strtod_unsigned. cbn [peek bind]. rewrite Hl. unfold CH_n.
  destruct (Z.eqb_spec d 105); [exfalso; lia |].
  destruct (Z.eqb_spec d 110); [exfalso; lia |].
  destruct (Z.eqb_spec d 48); [| reflexivity].
  cbn [List.tl peek bind].
  destruct (Z.eqb_spec (tolower c') 120); [contradiction | reflexivity].
Qed.

Lemma delimiter_not_x : forall c, delimiter c -> tolower c <> 120.
Proof. intros c [-> | [-> | [-> | ->]]]; discriminate. Qed.

Lemma strtod_digits_start :
  forall u c rest,
    u <> Decimal.Nil -> delimiter c ->
    strtod_unsigned false (bytes_of_uint u ++ c :: rest)
    = scan_decimal false (bytes_of_uint u ++ c :: rest) /\
    strtod_unsigned true (bytes_of_uint u ++ c :: rest)
    = scan_decimal true (bytes_of_uint u ++ c :: rest).
Proof.
  intros u c rest Hu Hc.
  destruct (bytes_of_uint_nonnil u Hu) as (d & tl & Heq & Hd).
  assert (Hnext : exists c' tl', tl ++ c :: rest = c' :: tl' /\ tolower c' <> 120).
  { destruct tl as [| d' tl'].
    - exists c, rest. split; [reflexivity | apply delimiter_not_x; exact Hc].
    - exists d', (tl' ++ c :: rest). split; [reflexivity |].
      pose proof (bytes_of_uint_digits u) as Hall. rewrite Heq in Hall.
      inversion Hall as [| ? ? _ Htl]; subst. inversion Htl as [| ? ? Hd' _]; subst.
      destruct (digit_is_plain d' Hd') as (_ & _ & _ & _ & ->).
      apply is_digit_range in Hd'. lia. }
  rewrite Heq. cbn [app].
  split; apply strtod_unsigned_digits; assumption.
Qed.

(** [strtod] on an optional minus sign and a body that starts with a
    digit, once the scan of the body is known. *)
Lemma strtod_signed :
  forall (neg : bool) d tl rest x,
    is_digit d = true ->
    strtod_unsigned neg (d :: tl ++ rest) = Ret (Some (x, rest)) ->
    strtod ((if neg then [MINUS] else []) ++ d :: tl ++ rest)
    = Ret (x, List.length ((if neg then [MINUS] else []) ++ d :: tl)).
Proof.
  intros neg d tl rest x Hd Hscan.
  destruct (digit_is_plain d Hd) as (Hsp & Hm & Hp & _ & _).
  unfold strtod. destruct neg; cbn [app skip_spaces].
  - change (isspace MINUS) with false. cbn iota.
    unfold scan_sign. cbn [peek bind]. rewrite Z.eqb_refl. cbn [List.tl bind].
    rewrite Hscan. cbn [bind]. do 2 f_equal.
    cbn [List.length]. rewrite !length_app. cbn [List.length]. lia.
  - rewrite Hsp. unfold scan_sign. cbn [peek bind].
    destruct (Z.eqb_spec d MINUS); [contradiction |].
    destruct (Z.eqb_spec d PLUS); [contradiction |].
    cbn [bind]. rewrite Hscan. cbn [bind]. do 2 f_equal.
    cbn [List.length]. rewrite !length_app. cbn [List.length]. lia.
Qed.

Lemma int_of_double_of_int :
  forall v, INT_MIN <= v <= INT_MAX -> int_of_double (double_of_int v) = v.
Proof.
  intros v Hv. unfold int_of_double, double_of_int, truncate.
  cbn [Z.leb Z.compare]. rewrite Z.pow_0_r, Z.mul_1_r.
  replace (signed (v <? 0) (Z.of_N (Z.abs_N v))) with v.
  - destruct (Z.leb_spec INT_MIN v), (Z.leb_spec v INT_MAX); cbn; try reflexivity; lia.
  - unfold signed. rewrite N2Z.inj_abs_N.
    destruct (Z.ltb_spec v 0); lia.
Qed.

Lemma double_eqb_sym : forall a b, double_eqb a b = double_eqb b a.
Proof.
  intros [| n1 | n1 m1 e1] [| n2 | n2 m2 e2]; cbn [double_eqb]; try reflexivity.
  - destruct n1, n2; reflexivity.
  - rewrite (Z.min_comm e2 e1). apply Z.eqb_sym.
Qed.

Lemma round_binary64_small_integer :
  forall neg m, 0 <= m < 2 ^ 53 -> round_binary64 neg m 1 = Fin neg (Z.to_N m) 0.
Proof.
  intros neg m Hm. unfold round_binary64.
  destruct (Z.eqb_spec m 0) as [-> | _]; [reflexivity |].
  cbn [Z.eqb Pos.eqb andb].
  destruct (Z.ltb_spec m (2 ^ 53)); [reflexivity | exfalso; lia].
Qed.

Lemma strtod_integer_text :
  forall (neg : bool) u c rest,
    u <> Decimal.Nil -> 0 <= Z.of_uint u < 2 ^ 53 -> delimiter c ->
    strtod ((if neg then [MINUS] else []) ++ bytes_of_uint u ++ c :: rest)
    = Ret (Fin neg (Z.to_N (Z.of_uint u)) 0,
           List.length ((if neg then [MINUS] else []) ++ bytes_of_uint u)).
Proof.
  intros neg u c rest Hnn Hm Hc.
  destruct (bytes_of_uint_nonnil _ Hnn) as (d & tl & Heq & Hd).
  pose proof (strtod_digits_start _ c rest Hnn Hc) as [Hf Ht].
  pose proof (scan_decimal_integer neg _ c rest Hnn Hc) as Hs.
  rewrite round_binary64_small_integer in Hs by assumption.
  rewrite Heq in *. cbn [app] in *.
  apply strtod_signed; [exact Hd |].
  destruct neg; [rewrite Ht | rewrite Hf]; exact Hs.
Qed.

Lemma strtod_fmt_d :
  forall v c rest,
    INT_MIN <= v <= INT_MAX -> delimiter c ->
    strtod (fmt_d v ++ c :: rest) = Ret (double_of_int v, List.length (fmt_d v)).
Proof.
  intros v c rest Hv Hc. unfold INT_MIN, INT_MAX in Hv.
  pose proof (DecimalZ.of_to v) as Hval.
  unfold fmt_d, double_of_int.
  destruct v as [| p | p]; cbn [Z.to_int Z.of_int] in *.
  - apply (strtod_integer_text false (Decimal.D0 Decimal.Nil)); [discriminate | | exact Hc].
    cbn. lia.
  - pose proof (strtod_integer_text false (Pos.to_uint p) c rest
                  (DecimalPos.Unsigned.to_uint_nonnil p)) as H.
    rewrite Hval in H. apply H; [lia | exact Hc].
  - pose proof (strtod_integer_text true (Pos.to_uint p) c rest
                  (DecimalPos.Unsigned.to_uint_nonnil p)) as H.
    assert (Hu : Z.of_uint (Pos.to_uint p) = Z.pos p) by lia.
    rewrite Hu in H. apply H; [lia | exact Hc].
Qed.

(** ** Round trip: the decimal grammar of percent-g *)

Lemma scan_digits_list :
  forall l nxt,
    all_digits l ->
    (exists c r, nxt = c :: r /\ is_digit c = false) ->
    exists u, scan_digits (l ++ nxt) = (u, nxt) /\ (l <> [] -> u <> Decimal.Nil).
Proof.
  intros l nxt Hl (c & r & -> & Hc).
  induction Hl as [| d l Hd _ IH].
  - exists Decimal.Nil. cbn [app scan_digits]. rewrite Hc. split; [reflexivity | congruence].
  - destruct IH as (u & Hu & _).
    exists (digit_cons d u). cbn [app scan_digits]. rewrite Hd, Hu.
    split; [reflexivity |]. intros _. unfold digit_cons.
    repeat match goal with
           | |- context [match ?x with _ => _ end] => destruct x
           end; discriminate.
Qed.

Lemma scan_exponent_shape :
  forall ex c rest,
    exponent_part ex -> delimiter c ->
    exists v, scan_exponent CH_e (ex ++ c :: rest) = Ret (v, c :: rest).
Proof.
  intros ex c rest [-> | (s & ed & -> & Hs & Hed & Hne)] Hc.
  - exists 0. destruct Hc as [-> | [-> | [-> | ->]]]; reflexivity.
  - destruct (scan_digits_list ed (c :: rest) Hed) as (u & Hu & Hnn).
    { exists c, rest. split; [reflexivity | apply delimiter_not_digit; exact Hc]. }
    specialize (Hnn Hne).
    unfold scan_exponent. cbn [app peek bind List.tl].
    change (tolower CH_e =? CH_e) with true. cbn iota.
    assert (Hsign : exists eneg, scan_sign (s :: ed ++ c :: rest) = Ret (eneg, ed ++ c :: rest)).
    { destruct Hs as [-> | ->]; eexists; reflexivity. }
    destruct Hsign as (eneg & ->). cbn [bind]. rewrite Hu. cbn [peek bind].
    destruct u; [congruence | ..]; eexists; reflexivity.
Qed.

Lemma part_starts_plain :
  forall f ex c rest,
    fraction_part f -> exponent_part ex -> delimiter c ->
    exists c' r, f ++ ex ++ c :: rest = c' :: r /\ is_digit c' = false /\ tolower c' <> 120.
Proof.
  intros f ex c rest Hf Hex Hc.
  destruct Hf as [-> | (fd & -> & _)].
  - destruct Hex as [-> | (s & ed & -> & _)].
    + exists c, rest. repeat split.
      * apply delimiter_not_digit; exact Hc.
      * apply delimiter_not_x; exact Hc.
    + do 2 eexists. repeat split. discriminate.
  - do 2 eexists. repeat split. discriminate.
Qed.

Lemma scan_decimal_shape :
  forall neg d int f ex c rest,
    all_digits (d :: int) -> fraction_part f -> exponent_part ex -> delimiter c ->
    exists x, scan_decimal neg ((d :: int) ++ f ++ ex ++ c :: rest)
              = Ret (Some (x, c :: rest)).
Proof.
  intros neg d int f ex c rest Hint Hf Hex Hc.
  destruct (part_starts_plain f ex c rest Hf Hex Hc) as (c' & r & Hnxt & Hnd & _).
  destruct (scan_digits_list (d :: int) (f ++ ex ++ c :: rest) Hint) as (u1 & Hu1 & Hnn1).
  { exists c', r. split; assumption. }
  specialize (Hnn1 ltac:(discriminate)).
  destruct (scan_exponent_shape ex c rest Hex Hc) as (v & Hv).
  unfold scan_decimal. rewrite Hu1.
  destruct Hf as [-> | (fd & -> & Hfd)].
  - cbn [app] in *. rewrite Hnxt. cbn [peek bind].
    assert (Hdot : (c' =? DOT) = false).
    { destruct Hex as [-> | (s & ed & -> & _)]; cbn [app] in Hnxt.
      - injection Hnxt as <- _. destruct Hc as [-> | [-> | [-> | ->]]]; reflexivity.
      - injection Hnxt as <- _. reflexivity. }
    rewrite Hdot. cbn [bind]. rewrite <- Hnxt, Hv. cbn [bind].
    destruct u1; [congruence | ..]; eexists; reflexivity.
  - cbn [app peek bind List.tl]. rewrite Z.eqb_refl.
    destruct (scan_digits_list fd (ex ++ c :: rest) Hfd) as (u2 & Hu2 & _).
    { destruct Hex as [-> | (s & ed & -> & _)]; do 2 eexists; split;
        try reflexivity. apply delimiter_not_digit; exact Hc. }
    rewrite Hu2.
    assert (Hpeek : exists c2, peek (ex ++ c :: rest) = Ret c2).
    { destruct Hex as [-> | (s & ed & -> & _)]; eexists; reflexivity. }
    destruct Hpeek as (c2 & ->). cbn [bind]. rewrite Hv. cbn [bind].
    destruct u1; [congruence | ..]; destruct u2; eexists; reflexivity.
Qed.

(** [strtod] consumes exactly a decimal literal that a delimiter follows. *)
Lemma strtod_decimal_literal :
  forall text c rest,
    decimal_literal text -> delimiter c ->
    exists x, strtod (text ++ c :: rest) = Ret (x, List.length text).
Proof.
  intros text c rest (neg & d & int & f & ex & -> & Hint & Hf & Hex) Hc.
  destruct (scan_decimal_shape neg d int f ex c rest Hint Hf Hex Hc) as (x & Hx).
  exists x.
  assert (Hd : is_digit d = true) by (inversion Hint; assumption).
  pose proof (strtod_signed neg d (int ++ f ++ ex) (c :: rest) x Hd) as H.
  assert (Hassoc : (d :: int) ++ f ++ ex ++ c :: rest = d :: (int ++ f ++ ex) ++ c :: rest)
    by (cbn [app]; repeat rewrite <- app_assoc; reflexivity).
  rewrite <- app_assoc. cbn [app] in *.
  replace (d :: int ++ (f ++ ex) ++ c :: rest) with (d :: (int ++ f ++ ex) ++ c :: rest)
    by (repeat rewrite <- app_assoc; reflexivity).
  apply H. rewrite <- Hassoc.
  rewrite strtod_unsigned_digits; [exact Hx | exact Hd |].
  destruct int as [| d' int'].
  - destruct (part_starts_plain f ex c rest Hf Hex Hc) as (c' & r & Hnxt & _ & Hx').
    exists c', r. split; assumption.
  - exists d', (int' ++ f ++ ex ++ c :: rest). split; [reflexivity |].
    inversion Hint as [| ? ? _ Htl]; subst. inversion Htl as [| ? ? Hd' _]; subst.
    destruct (digit_is_plain d' Hd') as (_ & _ & _ & _ & ->).
    apply is_digit_range in Hd'. lia.
Qed.

Lemma dec_digits : forall n, all_digits (dec n) /\ dec n <> [].
Proof.
  intros n. unfold dec. split; [apply bytes_of_uint_digits |].
  assert (Hnn : N.to_uint (Z.to_N n) <> Decimal.Nil).
  { destruct (Z.to_N n); [discriminate | apply DecimalPos.Unsigned.to_uint_nonnil]. }
  destruct (bytes_of_uint_nonnil _ Hnn) as (d & tl & -> & _). discriminate.
Qed.

Lemma drop_zeros_digits : forall l, all_digits l -> all_digits (drop_zeros l).
Proof.
  intros l H. induction H as [| c l Hc Hl IH]; cbn [drop_zeros]; [constructor |].
  destruct (c =? 48); [exact IH | constructor; assumption].
Qed.

Lemma strip_zeros_digits : forall l, all_digits l -> all_digits (strip_zeros l).
Proof.
  intros l H. unfold strip_zeros, all_digits in *.
  apply Forall_rev, drop_zeros_digits, Forall_rev, H.
Qed.

Lemma with_fraction_shape :
  forall int frac,
    all_digits frac ->
    exists f, with_fraction int frac = int ++ f /\ fraction_part f.
Proof.
  intros int frac H. unfold with_fraction.
  pose proof (strip_zeros_digits frac H) as Hs.
  destruct (strip_zeros frac) as [| c l].
  - exists []. rewrite List.app_nil_r. split; [reflexivity | left; reflexivity].
  - exists (DOT :: c :: l). split; [reflexivity | right; eauto].
Qed.

Lemma fmt_exponent_shape : forall X, exponent_part (fmt_exponent X).
Proof.
  intros X. right. unfold fmt_exponent.
  destruct (dec_digits (Z.abs X)) as [Hd Hne].
  do 2 eexists. split; [reflexivity |]. split; [destruct (X <? 0); auto |].
  destruct (Z.abs X <? 10); split; try assumption; try discriminate.
  constructor; [reflexivity | assumption].
Qed.

Lemma firstn_digits : forall k l, all_digits l -> all_digits (firstn k l).
Proof.
  intros k l H. unfold all_digits in *.
  rewrite <- (firstn_skipn k l) in H. apply Forall_app in H. tauto.
Qed.

Lemma skipn_digits : forall k l, all_digits l -> all_digits (skipn k l).
Proof.
  intros k l H. unfold all_digits in *.
  rewrite <- (firstn_skipn k l) in H. apply Forall_app in H. tauto.
Qed.

Lemma fmt_g_pos_shape :
  forall p q,
    exists d int f ex,
      fmt_g_pos p q = (d :: int) ++ f ++ ex /\
      all_digits (d :: int) /\ fraction_part f /\ exponent_part ex.
Proof.
  intros p q. unfold fmt_g_pos. cbv zeta.
  match goal with
  | |- context [dec ?n] => destruct (dec_digits n) as [Hds Hne]; revert Hds Hne; generalize (dec n)
  end.
  intros ds Hds Hne. destruct ds as [| d0 ds]; [congruence |].
  match goal with
  | |- context [if (-4 <=? ?X) && (?X <? 6) then _ else _] => generalize X
  end.
  intros X.
  destruct ((-4 <=? X) && (X <? 6)).
  - destruct (Z.leb_spec 0 X).
    + destruct (Z.to_nat (X + 1)) as [| k] eqn:Hk; [lia |].
      cbn [firstn skipn].
      destruct (with_fraction_shape (d0 :: firstn k ds) (skipn k ds)) as (f & -> & Hf).
      { apply skipn_digits. inversion Hds; assumption. }
      exists d0, (firstn k ds), f, []. rewrite List.app_nil_r.
      repeat split; try assumption; [| left; reflexivity].
      inversion Hds; subst. constructor; [assumption | apply firstn_digits; assumption].
    + destruct (with_fraction_shape [48] (repeat 48 (Z.to_nat (- X - 1)) ++ d0 :: ds))
        as (f & -> & Hf).
      { apply Forall_app. split; [| exact Hds].
        apply Forall_forall. intros x Hx. apply repeat_spec in Hx. subst. reflexivity. }
      exists 48, [], f, []. rewrite List.app_nil_r.
      repeat split; try assumption; [| left; reflexivity].
      constructor; [reflexivity | constructor].
  - cbn [firstn skipn].
    destruct (with_fraction_shape [d0] ds) as (f & -> & Hf).
    { inversion Hds; assumption. }
    exists d0, [], f, (fmt_exponent X). rewrite <- app_assoc.
    repeat split; try assumption; [| apply fmt_exponent_shape].
    inversion Hds; subst. constructor; [assumption | constructor].
Qed.

Lemma fmt_g_decimal_literal :
  forall neg m e, decimal_literal (fmt_g (Fin neg m e)).
Proof.
  intros neg m e. unfold fmt_g, decimal_literal.
  destruct (m =? 0)%N.
  - exists neg, 48, [], [], []. repeat split; try (left; reflexivity).
    constructor; [reflexivity | constructor].
  - destruct (fraction_of m e) as [p q].
    destruct (fmt_g_pos_shape p q) as (d & int & f & ex & -> & H).
    exists neg, d, int, f, ex. split; [reflexivity | exact H].
Qed.

(** ** Round trip: the shape of built trees *)

Lemma kind_with_const_flag :
  forall t, Z.land (Z.lor t cJSON_StringIsConst) 255 = Z.land t 255.
Proof.
  intros t. rewrite Z.land_lor_distr_l.
  change (Z.land cJSON_StringIsConst 255) with 0. apply Z.lor_0_r.
Qed.

Lemma well_formed_same_value :
  forall t t',
    well_formed t ->
    kind t' = kind t -> valuestring t' = valuestring t -> child t' = child t ->
    valueint t' = valueint t -> valuedouble t' = valuedouble t ->
    well_formed t'.
Proof.
  intros t t' H Hk Hv Hc Hi Hd.
  inversion H; subst.
  - apply wf_literal; try congruence; rewrite Hk; assumption.
  - apply wf_number; congruence.
  - match goal with
    | Hs : valuestring t = Some ?s |- _ => apply (wf_string t' s); congruence
    end.
  - apply wf_array; congruence.
  - apply wf_object; congruence.
Qed.

Ltac kind_clash :=
  match goal with
  | H1 : kind ?t = _, H2 : kind ?t = _ |- _ => rewrite H1 in H2; discriminate H2
  | H1 : kind ?t = _, H2 : kind ?t = _ \/ _ |- _ =>
      rewrite H1 in H2; destruct H2 as [H2 | [H2 | H2]]; discriminate H2
  end.

Ltac run_create H :=
  unfold cJSON_CreateNull, cJSON_CreateTrue, cJSON_CreateFalse, cJSON_CreateBool,
         cJSON_CreateNumber, cJSON_CreateArray, cJSON_CreateObject, cJSON_CreateString,
         strdup, create_with, cJSON_New_Item, call_malloc in H;
  repeat match type of H with
         | context [heap_grants ?w ?n] => destruct (heap_grants w n)
         end;
  cbn in H; try discriminate H; injection H as <- _.

Lemma built_well_formed :
  forall t, built t -> well_formed t /\ string t = None.
Proof.
  intros t H.
  induction H as [w i w1 H | w i w1 H | w i w1 H | b w i w1 H | num w i w1 H
                  | s w i w1 H | w i w1 H | w i w1 H
                  | a i a1 Ha [IHa Hka] Hkind Hi [IHi Hki] H
                  | o key i w o1 i1 w1 Ho [IHo Hko] Hkind Hi [IHi Hki] H
                  | o key i w o1 i1 w1 Ho [IHo Hko] Hkind Hi [IHi Hki] H].
  - run_create H. split; [apply wf_literal; auto | reflexivity].
  - run_create H. split; [apply wf_literal; auto | reflexivity].
  - run_create H. split; [apply wf_literal; auto | reflexivity].
  - run_create H. split; [| reflexivity].
    apply wf_literal; auto. destruct (b =? 0); auto.
  - run_create H. split; [apply wf_number; reflexivity | reflexivity].
  - run_create H. split; [eapply wf_string; reflexivity | reflexivity].
  - run_create H. split; [apply wf_array; auto | reflexivity].
  - run_create H. split; [apply wf_object; auto | reflexivity].
  - cbn in H. injection H as <-.
    inversion IHa; subst; try kind_clash.
    split; [| exact Hka].
    apply wf_array; cbn; auto; apply Forall_app; auto.
  - unfold cJSON_AddItemToObject, add_item_to_object, strdup, call_malloc in H.
    cbn [Z.eqb] in H.
    destruct (heap_grants w _); cbn in H; [| discriminate H].
    injection H as <- _ _.
    inversion IHo; subst; try kind_clash.
    split; [| exact Hko].
    apply wf_object; cbn; auto; apply Forall_app; split; auto.
    + constructor; [| constructor].
      eapply well_formed_same_value; [exact IHi | reflexivity ..].
    + constructor; [| constructor]. eexists. reflexivity.
  - unfold cJSON_AddItemToObjectCS, add_item_to_object in H.
    cbn in H. injection H as <- _ _.
    inversion IHo; subst; try kind_clash.
    split; [| exact Hko].
    apply wf_object; cbn; auto; apply Forall_app; split; auto.
    + constructor; [| constructor].
      eapply well_formed_same_value; [exact IHi | | reflexivity ..].
      apply kind_with_const_flag.
    + constructor; [| constructor]. eexists. reflexivity.
Qed.

(** ** Round trip: the serializer writes the text of the tree *)

Lemma print_item_eq :
  forall t p w,
    print_item t p w =
    let k := kind t in
    if k =? cJSON_NULL then print_literal (bytes_of_string "null") p w
    else if k =? cJSON_False then print_literal (bytes_of_string "false") p w
    else if k =? cJSON_True then print_literal (bytes_of_string "true") p w
    else if k =? cJSON_Number then print_number t p w
    else if (k =? cJSON_Raw) || (k =? cJSON_String)
         then print_string_ptr (valuestring t) p w
    else if k =? cJSON_Array
         then print_bracketed LBRACKET RBRACKET (print_array_loop print_item) t p w
    else if k =? cJSON_Object
         then print_bracketed LBRACE RBRACE (print_object_loop print_item) t p w
    else (0, p, w).
Proof. intros [c ty vs vi vd s] p w. reflexivity. Qed.

Lemma render_eq :
  forall t,
    render t =
    let k := kind t in
    if k =? cJSON_NULL then bytes_of_string "null"
    else if k =? cJSON_False then bytes_of_string "false"
    else if k =? cJSON_True then bytes_of_string "true"
    else if k =? cJSON_Number then number_text t
    else if (k =? cJSON_Raw) || (k =? cJSON_String) then string_text (valuestring t)
    else if k =? cJSON_Array then LBRACKET :: render_elements render (child t) ++ [RBRACKET]
    else if k =? cJSON_Object then LBRACE :: render_members render (child t) ++ [RBRACE]
    else [].
Proof. intros [c ty vs vi vd s]. reflexivity. Qed.

Lemma grants_all_log : forall ev w, grants_all w -> grants_all (log_event ev w).
Proof. intros ev w H n. exact (H n). Qed.

Lemma ensure_buffer_granted :
  forall p n w, grants_all w -> prints (ensure_buffer p n w) p [].
Proof.
  intros p n w Hw. unfold ensure_buffer, call_malloc.
  destruct (_ <=? _).
  - cbn. rewrite List.app_nil_r. auto.
  - rewrite Hw. cbn. rewrite List.app_nil_r.
    repeat split. unfold call_free. repeat apply grants_all_log. exact Hw.
Qed.

(** A writer that reserves room and then emits [text]. *)
Lemma reserve_then_emit :
  forall p n w text,
    grants_all w ->
    prints (let '(ok, p1, w1) := ensure_buffer p n w in
            if ok =? 0 then (0, p1, w1) else (1, emit text p1, w1)) p text.
Proof.
  intros p n w text Hw.
  pose proof (ensure_buffer_granted p n w Hw) as H.
  destruct (ensure_buffer p n w) as [[ok p1] w1]. cbn in H.
  destruct H as (-> & Hb & Hw1). rewrite List.app_nil_r in Hb.
  cbn. rewrite Hb. auto.
Qed.

Lemma print_literal_granted :
  forall text p w, grants_all w -> prints (print_literal text p w) p text.
Proof. intros. apply reserve_then_emit; assumption. Qed.

Lemma emit_byte_granted :
  forall c p w, grants_all w -> prints (emit_byte c p w) p [c].
Proof. intros. apply reserve_then_emit; assumption. Qed.

Lemma print_string_ptr_granted :
  forall str p w, grants_all w -> prints (print_string_ptr str p w) p (string_text str).
Proof. intros. apply reserve_then_emit; assumption. Qed.

Lemma print_number_granted :
  forall t p w, grants_all w -> prints (print_number t p w) p (number_text t).
Proof. intros. apply reserve_then_emit; assumption. Qed.

(** Chaining of print steps. *)
Lemma prints_then :
  forall (r : print_result) p text (k : printbuffer -> world -> print_result) text',
    prints r p text ->
    (forall p1 w1, grants_all w1 -> prints (k p1 w1) p1 text') ->
    prints (let '(ok, p1, w1) := r in if ok =? 0 then (0, p1, w1) else k p1 w1)
           p (text ++ text').
Proof.
  intros [[ok p1] w1] p text k text' (-> & Hb & Hw) Hk. cbn.
  specialize (Hk p1 w1 Hw). destruct (k p1 w1) as [[ok2 p2] w2].
  destruct Hk as (-> & Hb2 & Hw2). repeat split; auto.
  rewrite Hb2, Hb, app_assoc. reflexivity.
Qed.

Lemma prints_done : forall p w, grants_all w -> prints (1, p, w) p [].
Proof. intros p w H. cbn. rewrite List.app_nil_r. auto. Qed.

Lemma print_array_loop_granted :
  forall cs,
    Forall (fun c => forall p w, grants_all w -> prints (print_item c p w) p (render c)) cs ->
    forall p w, grants_all w ->
      prints (print_array_loop print_item cs p w) p (render_elements render cs).
Proof.
  intros cs H. induction H as [| c next Hc _ IH]; intros p w Hw.
  - apply prints_done; exact Hw.
  - cbn [print_array_loop render_elements].
    apply (prints_then (print_item c p w) p (render c)
             (fun p1 w1 =>
                match next with
                | [] => (1, p1, w1)
                | _ :: _ =>
                    let '(ok2, p2, w2) := emit_byte COMMA p1 w1 in
                    if ok2 =? 0 then (0, p2, w2)
                    else print_array_loop print_item next p2 w2
                end));
      [apply Hc; exact Hw |].
    intros p1 w1 Hw1. destruct next as [| c' next'].
    + apply prints_done; exact Hw1.
    + apply (prints_then (emit_byte COMMA p1 w1) p1 [COMMA]
               (print_array_loop print_item (c' :: next')));
        [apply emit_byte_granted; exact Hw1 | exact IH].
Qed.

Lemma print_object_loop_granted :
  forall cs,
    Forall (fun c => forall p w, grants_all w -> prints (print_item c p w) p (render c)) cs ->
    forall p w, grants_all w ->
      prints (print_object_loop print_item cs p w) p (render_members render cs).
Proof.
  intros cs H. induction H as [| c next Hc _ IH]; intros p w Hw.
  - apply prints_done; exact Hw.
  - cbn [print_object_loop render_members].
    apply (prints_then (print_string_ptr (string c) p w) p (string_text (string c))
             (fun p0 w0 =>
                let '(ok1, p1, w1) := emit_byte COLON p0 w0 in
                if ok1 =? 0 then (0, p1, w1)
                else
                  let '(ok2, p2, w2) := print_item c p1 w1 in
                  if ok2 =? 0 then (0, p2, w2)
                  else match next with
                       | [] => (1, p2, w2)
                       | _ :: _ =>
                           let '(ok3, p3, w3) := emit_byte COMMA p2 w2 in
                           if ok3 =? 0 then (0, p3, w3)
                           else print_object_loop print_item next p3 w3
                       end)
             (COLON :: render c ++ match next with
                                   | [] => []
                                   | _ :: _ => COMMA :: render_members render next
                                   end));
      [apply print_string_ptr_granted; exact Hw |].
    intros p0 w0 Hw0.
    apply (prints_then (emit_byte COLON p0 w0) p0 [COLON]
             (fun p1 w1 =>
                let '(ok2, p2, w2) := print_item c p1 w1 in
                if ok2 =? 0 then (0, p2, w2)
                else match next with
                     | [] => (1, p2, w2)
                     | _ :: _ =>
                         let '(ok3, p3, w3) := emit_byte COMMA p2 w2 in
                         if ok3 =? 0 then (0, p3, w3)
                         else print_object_loop print_item next p3 w3
                     end));
      [apply emit_byte_granted; exact Hw0 |].
    intros p1 w1 Hw1.
    apply (prints_then (print_item c p1 w1) p1 (render c)
             (fun p2 w2 =>
                match next with
                | [] => (1, p2, w2)
                | _ :: _ =>
                    let '(ok3, p3, w3) := emit_byte COMMA p2 w2 in
                    if ok3 =? 0 then (0, p3, w3)
                    else print_object_loop print_item next p3 w3
                end));
      [apply Hc; exact Hw1 |].
    intros p2 w2 Hw2. destruct next as [| c' next'].
    + apply prints_done; exact Hw2.
    + apply (prints_then (emit_byte COMMA p2 w2) p2 [COMMA]
               (print_object_loop print_item (c' :: next')));
        [apply emit_byte_granted; exact Hw2 | exact IH].
Qed.

Lemma print_bracketed_granted :
  forall opening closing loop text item,
    (forall p w, grants_all w -> prints (loop (child item) p w) p text) ->
    forall p w, grants_all w ->
      prints (print_bracketed opening closing loop item p w) p
             (opening :: text ++ [closing]).
Proof.
  intros opening closing loop text item Hloop p w Hw. unfold print_bracketed.
  apply (prints_then (emit_byte opening p w) p [opening]
           (fun p1 w1 =>
              let '(ok2, p2, w2) := loop (child item) p1 w1 in
              if ok2 =? 0 then (0, p2, w2) else emit_byte closing p2 w2)
           (text ++ [closing]));
    [apply emit_byte_granted; exact Hw |].
  intros p1 w1 Hw1.
  apply (prints_then (loop (child item) p1 w1) p1 text (emit_byte closing));
    [apply Hloop; exact Hw1 |].
  intros p2 w2 Hw2. apply emit_byte_granted; exact Hw2.
Qed.

Lemma print_item_render :
  forall t, well_formed t ->
    forall p w, grants_all w -> prints (print_item t p w) p (render t).
Proof.
  induction t as [t IH] using cJSON_tree_ind. intros Hwf p w Hw.
  rewrite print_item_eq, render_eq. cbv zeta.
  inversion Hwf as [t0 Hk | t0 Hk | t0 s Hk | t0 Hk _ Hcs _ | t0 Hk _ Hcs _]; subst.
  - destruct Hk as [Hk | [Hk | Hk]]; rewrite Hk; apply print_literal_granted; exact Hw.
  - rewrite Hk. apply print_number_granted; exact Hw.
  - rewrite Hk. apply print_string_ptr_granted; exact Hw.
  - rewrite Hk. apply print_bracketed_granted; [| exact Hw].
    apply print_array_loop_granted.
    rewrite Forall_forall in *. intros c Hc. apply IH; auto.
  - rewrite Hk. apply print_bracketed_granted; [| exact Hw].
    apply print_object_loop_granted.
    rewrite Forall_forall in *. intros c Hc. apply IH; auto.
Qed.

(** ** Round trip: the parser on the text of a tree *)

Lemma at_text_offset :
  forall b c t rest, at_text b (c :: t) rest -> (offset b < length b)%nat.
Proof. intros b c t rest [_ H]. cbn [List.length] in H. lia. Qed.

Lemma at_text_split :
  forall b t1 t2 rest, at_text b (t1 ++ t2) rest -> at_text b t1 (t2 ++ rest).
Proof.
  intros b t1 t2 rest [Hb Hl]. split.
  - rewrite Hb, <- app_assoc. reflexivity.
  - rewrite length_app in Hl. lia.
Qed.

Lemma at_text_advance :
  forall b t1 t2 rest,
    at_text b (t1 ++ t2) rest -> at_text (advance (List.length t1) b) t2 rest.
Proof.
  intros b t1 t2 rest [Hb Hl]. split.
  - unfold buffer_at_offset, advance in *. cbn [offset content set_offset].
    rewrite Nat.add_comm, <- skipn_skipn, Hb, <- app_assoc.
    rewrite skipn_app, skipn_all, Nat.sub_diag. reflexivity.
  - rewrite length_app in Hl. cbn [advance set_offset offset length]. lia.
Qed.

Lemma advance_advance :
  forall n m b, advance m (advance n b) = advance (n + m) b.
Proof.
  intros n m b. unfold advance, set_offset. cbn [offset content length].
  f_equal. lia.
Qed.

Lemma skip_whitespace_at :
  forall b c t rest,
    at_text b (c :: t) rest -> 32 < c -> skip_whitespace b = Ret b.
Proof.
  intros b c t rest Hat Hc.
  pose proof (at_text_offset _ _ _ _ Hat) as Hoff. destruct Hat as [Hb _].
  unfold skip_whitespace.
  destruct (length b - offset b)%nat as [| k] eqn:Hk; [lia |].
  cbn [skip_whitespace_loop]. unfold can_access_at_index.
  rewrite Nat.add_0_r. destruct (Nat.ltb_spec (offset b) (length b)); [| lia].
  rewrite Hb. cbn [app peek bind].
  destruct (Z.leb_spec c 32); [lia |]. cbn [bind].
  destruct (Nat.leb_spec (length b) (offset b)); [lia | reflexivity].
Qed.

Lemma can_access_at :
  forall b c t rest, at_text b (c :: t) rest -> can_access_at_index b 0 = true.
Proof.
  intros b c t rest Hat. pose proof (at_text_offset _ _ _ _ Hat).
  unfold can_access_at_index. rewrite Nat.add_0_r. apply Nat.ltb_lt. assumption.
Qed.

Lemma at_literal_miss :
  forall b c r l0 lit,
    buffer_at_offset b = c :: r -> c <> l0 -> at_literal b (l0 :: lit) = Ret false.
Proof.
  intros b c r l0 lit Hb Hne. unfold at_literal.
  destruct (can_read b _); [| reflexivity].
  rewrite Hb. cbn [List.length strncmp].
  destruct (Z.eqb_spec c l0); [contradiction |]. cbn [bind].
  destruct (Z.eqb_spec (c - l0) 0); [lia | reflexivity].
Qed.

Lemma at_literal_hit :
  forall b lit rest,
    at_text b lit rest -> at_literal b lit = Ret true.
Proof.
  intros b lit rest [Hb Hl]. unfold at_literal, can_read.
  destruct (Nat.leb_spec (offset b + List.length lit) (length b)); [| lia].
  rewrite Hb. clear.
  assert (H : forall l n, n = List.length l -> strncmp (l ++ rest) l n = Ret 0).
  { induction l as [| x l IH]; intros n ->; cbn [List.length strncmp app]; [reflexivity |].
    rewrite Z.eqb_refl. apply IH. reflexivity. }
  rewrite H by reflexivity. reflexivity.
Qed.

(** [parse_value] on one of the three literals. *)
Lemma parse_value_literal :
  forall f item b w lit rest tag,
    (lit = bytes_of_string "null" /\ tag = cJSON_NULL) \/
    (lit = bytes_of_string "false" /\ tag = cJSON_False) \/
    (lit = bytes_of_string "true" /\ tag = cJSON_True) ->
    at_text b lit rest ->
    parse_value (S f) item b w
    = Ret (1, set_type tag item, advance (List.length lit) b, w).
Proof.
  intros f item b w lit rest tag Hlit Hat.
  change (bytes_of_string "null") with [110; 117; 108; 108] in *.
  change (bytes_of_string "false") with [102; 97; 108; 115; 101] in *.
  change (bytes_of_string "true") with [116; 114; 117; 101] in *.
  assert (Hsk : skip_whitespace b = Ret b).
  { destruct Hlit as [[-> _] | [[-> _] | [-> _]]];
      eapply skip_whitespace_at; try exact Hat; reflexivity. }
  assert (Hacc : can_access_at_index b 0 = true).
  { destruct Hlit as [[-> _] | [[-> _] | [-> _]]]; eapply can_access_at; exact Hat. }
  cbn [parse_value]. rewrite Hsk. cbn [bind]. rewrite Hacc. cbn [negb].
  change (bytes_of_string "null") with [110; 117; 108; 108] in *.
  change (bytes_of_string "false") with [102; 97; 108; 115; 101] in *.
  change (bytes_of_string "true") with [116; 114; 117; 101] in *.
  pose proof (at_literal_hit _ _ _ Hat) as Hhit.
  destruct Hat as [Hb _].
  destruct Hlit as [[-> ->] | [[-> ->] | [-> ->]]].
  - rewrite Hhit. reflexivity.
  - rewrite (at_literal_miss b _ _ _ _ Hb) by discriminate. cbn [bind].
    rewrite Hhit. reflexivity.
  - rewrite (at_literal_miss b _ _ _ _ Hb) by discriminate. cbn [bind].
    rewrite (at_literal_miss b _ _ _ _ Hb) by discriminate. cbn [bind].
    rewrite Hhit. reflexivity.
Qed.

(** [parse_value] on a byte that starts no literal: the dispatch. *)
Lemma parse_value_dispatch :
  forall f item b w c t rest,
    at_text b (c :: t) rest -> 32 < c ->
    c <> CH_n -> c <> CH_f -> c <> CH_t ->
    parse_value (S f) item b w
    = if c =? QUOTE then parse_string item b w
      else if (c =? MINUS) || is_digit c then parse_number item b w
      else if c =? LBRACKET then parse_array f item b w
      else if c =? LBRACE then parse_object f item b w
      else Ret (0, item, b, set_error (Some "Invalid value"%string) w).
Proof.
  intros f item b w c t rest Hat Hc Hn Hf Ht.
  cbn [parse_value].
  change (bytes_of_string "null") with [110; 117; 108; 108] in *.
  change (bytes_of_string "false") with [102; 97; 108; 115; 101] in *.
  change (bytes_of_string "true") with [116; 114; 117; 101] in *.
  rewrite (skip_whitespace_at _ _ _ _ Hat Hc). cbn [bind].
  rewrite (can_access_at _ _ _ _ Hat). cbn [negb].
  destruct Hat as [Hb _]. cbn [app] in Hb.
  rewrite !(at_literal_miss b _ _ _ _ Hb) by assumption. cbn [bind].
  rewrite Hb. reflexivity.
Qed.

Lemma parse_number_at :
  forall item b w text c rest x,
    at_text b text (c :: rest) ->
    strtod (text ++ c :: rest) = Ret (x, List.length text) ->
    text <> [] ->
    parse_number item b w
    = Ret (1, set_type cJSON_Number (set_number x (int_of_double x) item),
           advance (List.length text) b, w).
Proof.
  intros item b w text c rest x [Hb _] Hs Hne. unfold parse_number.
  rewrite Hb, Hs. cbn [bind].
  destruct text; [congruence | reflexivity].
Qed.

Lemma parse_string_at :
  forall item b w s rest,
    at_text b (string_text (Some s)) rest ->
    forallb printable s = true ->
    grants_all w ->
    exists w1,
      parse_string item b w
      = Ret (1, set_valuestring (Some s) (set_type cJSON_String item),
             advance (List.length (string_text (Some s))) b, w1) /\
      grants_all w1.
Proof.
  intros item b w s rest [Hb _] Hs Hw.
  unfold string_text in *. rewrite (c_str_printable s Hs) in *.
  cbn [app] in Hb. rewrite <- app_assoc in Hb. cbn [app] in Hb.
  unfold parse_string. rewrite Hb. cbn [peek bind List.tl].
  rewrite Z.eqb_refl. cbn [negb].
  rewrite scan_string_escape by assumption. cbn [bind negb].
  unfold call_malloc. rewrite Hw.
  cbn [negb]. rewrite unescape_escape by assumption. cbn [bind].
  rewrite Nat.ltb_irrefl, (c_str_printable s Hs).
  rewrite advance_advance.
  replace (1 + (0 + List.length (escape s)) + 1)%nat
    with (List.length (QUOTE :: escape s ++ [QUOTE]))
    by (cbn [List.length]; rewrite length_app; cbn [List.length]; lia).
  eexists. split; [reflexivity | apply grants_all_log; exact Hw].
Qed.

Lemma fmt_d_decimal_literal : forall v, decimal_literal (fmt_d v).
Proof.
  intros v. unfold fmt_d.
  assert (H : forall (neg : bool) u, u <> Decimal.Nil ->
                decimal_literal ((if neg then [MINUS] else []) ++ bytes_of_uint u)).
  { intros neg u Hu. destruct (bytes_of_uint_nonnil u Hu) as (d & tl & Heq & _).
    pose proof (bytes_of_uint_digits u) as Hall. rewrite Heq in *.
    exists neg, d, tl, [], [].
    rewrite !List.app_nil_r. repeat split; try (left; reflexivity). exact Hall. }
  destruct v as [| p | p]; cbn [Z.to_int].
  - apply (H false (Decimal.D0 Decimal.Nil)). discriminate.
  - apply (H false (Pos.to_uint p)). apply DecimalPos.Unsigned.to_uint_nonnil.
  - apply (H true (Pos.to_uint p)). apply DecimalPos.Unsigned.to_uint_nonnil.
Qed.

Lemma decimal_literal_first :
  forall text, decimal_literal text ->
    exists c0 r, text = c0 :: r /\ (c0 = MINUS \/ is_digit c0 = true).
Proof.
  intros text (neg & d & int & f & ex & -> & Hd & _).
  inversion Hd; subst. destruct neg; do 2 eexists; (split; [reflexivity |]); auto.
Qed.

Lemma int_of_double_range : forall d, INT_MIN <= int_of_double d <= INT_MAX.
Proof.
  intros d. unfold int_of_double.
  destruct (truncate d) as [t |]; [| unfold INT_MIN, INT_MAX; lia].
  destruct (Z.leb_spec INT_MIN t), (Z.leb_spec t INT_MAX); cbn;
    unfold INT_MIN, INT_MAX in *; lia.
Qed.

(** The text of a finite number is a decimal literal. *)
Lemma number_text_literal :
  forall t,
    isnan (valuedouble t) || isinf (valuedouble t) = false ->
    decimal_literal (number_text t).
Proof.
  intros t Hfin. unfold number_text. rewrite Hfin.
  destruct (double_eqb _ _); [apply fmt_d_decimal_literal |].
  destruct (valuedouble t); try discriminate. apply fmt_g_decimal_literal.
Qed.

Lemma bytes_eqb_refl : forall s, bytes_eqb s s = true.
Proof.
  induction s as [| c s IH]; [reflexivity |].
  cbn [bytes_eqb]. rewrite Z.eqb_refl, IH. reflexivity.
Qed.

Lemma text_eqb_refl : forall s, text_eqb s s = true.
Proof. intros [s |]; [apply bytes_eqb_refl | reflexivity]. Qed.

Lemma structurally_equal_node :
  forall a b,
    same_value a b = true ->
    string a = string b ->
    Forall2 (fun x y => structurally_equal x y = true) (child a) (child b) ->
    structurally_equal a b = true.
Proof.
  intros [ca ta vsa via vda sa] b Hv Hs Hc.
  cbn [structurally_equal]. cbn [child string] in *.
  rewrite Hv, Hs, text_eqb_refl. cbn [andb]. clear Hv Hs.
  induction Hc as [| x y xs ys Hxy _ IH]; [reflexivity |].
  rewrite Hxy. exact IH.
Qed.

Lemma fuel_for_eq : forall t, fuel_for t = S (loop_fuel (child t)).
Proof. intros [c ty vs vi vd s]. reflexivity. Qed.

Lemma plain_eq :
  forall t,
    plain t =
    printable_text (valuestring t) && printable_text (string t)
    && negb ((kind t =? cJSON_Number)
             && (isnan (valuedouble t) || isinf (valuedouble t)))
    && forallb plain (child t).
Proof. intros [c ty vs vi vd s]. reflexivity. Qed.

Lemma plain_parts :
  forall t, plain t = true ->
    printable_text (valuestring t) = true /\
    printable_text (string t) = true /\
    (kind t = cJSON_Number ->
     isnan (valuedouble t) || isinf (valuedouble t) = false) /\
    Forall (fun c => plain c = true) (child t).
Proof.
  intros t H. rewrite plain_eq in H.
  repeat (apply andb_true_iff in H; destruct H as [H ?]).
  repeat split; try assumption.
  - intros Hk. rewrite Hk in *. cbn in *. destruct (isnan _ || isinf _); [discriminate | reflexivity].
  - apply Forall_forall. apply forallb_forall. assumption.
Qed.

(** The first byte of the text of a tree is no white space and no
    closing bracket. *)
Lemma render_first :
  forall t, well_formed t -> plain t = true ->
    exists c0 r, render t = c0 :: r /\ 32 < c0 /\ c0 <> RBRACKET /\ c0 <> RBRACE.
Proof.
  intros t Hwf Hp. destruct (plain_parts t Hp) as (_ & _ & Hfin & _).
  rewrite render_eq. cbv zeta.
  inversion Hwf as [t0 Hk | t0 Hk | t0 s Hk | t0 Hk | t0 Hk]; subst.
  - destruct Hk as [Hk | [Hk | Hk]]; rewrite Hk; do 2 eexists;
      (split; [reflexivity |]); repeat split; (lia || discriminate).
  - rewrite Hk. cbn [Z.eqb cJSON_Number cJSON_NULL cJSON_False cJSON_True Z.shiftl].
    destruct (decimal_literal_first _ (number_text_literal t (Hfin Hk)))
      as (c0 & r & -> & Hc0).
    exists c0, r. split; [reflexivity |].
    destruct Hc0 as [-> | Hd]; [repeat split; (lia || discriminate) |].
    apply is_digit_range in Hd. unfold RBRACKET, RBRACE. lia.
  - rewrite Hk. do 2 eexists. split; [reflexivity |]. repeat split; (lia || discriminate).
  - rewrite Hk. do 2 eexists. split; [reflexivity |]. repeat split; (lia || discriminate).
  - rewrite Hk. do 2 eexists. split; [reflexivity |]. repeat split; (lia || discriminate).
Qed.

Lemma set_string_same : forall t k, string t = k -> set_string k t = t.
Proof. intros [c ty vs vi vd s] k H. cbn in *. subst. reflexivity. Qed.

Lemma New_Item_granted :
  forall w, grants_all w ->
    exists w1, cJSON_New_Item w = (Some zero_item, w1) /\ grants_all w1.
Proof.
  intros w Hw. unfold cJSON_New_Item, call_malloc. rewrite Hw.
  eexists. split; [reflexivity | apply grants_all_log; exact Hw].
Qed.

Lemma loop_condition_comma :
  forall b t rest,
    at_text b (COMMA :: t) rest -> (0 < offset b)%nat ->
    loop_condition b = Ret (true, advance 1 b).
Proof.
  intros b t rest Hat Hoff. unfold loop_condition.
  rewrite (can_access_at _ _ _ _ Hat). destruct Hat as [-> _].
  cbn [app peek bind]. rewrite Z.eqb_refl.
  destruct (Nat.eqb_spec (offset b) 0); [lia | reflexivity].
Qed.

Lemma loop_condition_close :
  forall b c t rest,
    at_text b (c :: t) rest -> c <> COMMA ->
    loop_condition b = Ret (false, b).
Proof.
  intros b c t rest Hat Hc. unfold loop_condition.
  rewrite (can_access_at _ _ _ _ Hat). destruct Hat as [-> _].
  cbn [app peek bind]. destruct (Z.eqb_spec c COMMA); [contradiction | reflexivity].
Qed.

Lemma render_nonempty :
  forall t, well_formed t -> plain t = true -> (0 < List.length (render t))%nat.
Proof.
  intros t Hwf Hp. destruct (render_first t Hwf Hp) as (c0 & r & -> & _).
  cbn [List.length]. lia.
Qed.

Lemma loop_fuel_cons :
  forall c cs, loop_fuel (c :: cs) = S (fuel_for c + loop_fuel cs).
Proof. reflexivity. Qed.

Lemma render_elements_cons :
  forall c cs,
    render_elements render (c :: cs)
    = render c ++ match cs with
                  | [] => []
                  | _ :: _ => COMMA :: render_elements render cs
                  end.
Proof. reflexivity. Qed.

Lemma parse_array_loop_render :
  forall cs c,
    Forall parses_back (c :: cs) ->
    Forall well_formed (c :: cs) ->
    Forall (fun x => string x = None) (c :: cs) ->
    Forall (fun x => plain x = true) (c :: cs) ->
    forall fuel head b w rest,
      (loop_fuel (c :: cs) <= fuel)%nat ->
      at_text b (render_elements render (c :: cs) ++ [RBRACKET]) rest ->
      grants_all w ->
      exists items w1,
        parse_array_loop fuel head b w
        = Ret (1, head ++ items,
               advance (List.length (render_elements render (c :: cs))) b, w1) /\
        grants_all w1 /\
        Forall2 (fun x y => structurally_equal x y = true) (c :: cs) items.
Proof.
  intros cs.
  induction cs as [| c' cs IH]; intros c Hpb Hwf Hkey Hpl fuel head b w rest Hfuel Hat Hw;
    inversion Hpb as [| ? ? Hpc Hpcs]; inversion Hwf as [| ? ? Hwc Hwcs];
    inversion Hkey as [| ? ? Hkc Hkcs]; inversion Hpl as [| ? ? Hplc Hplcs]; subst;
    destruct (render_first c Hwc Hplc) as (c0 & r0 & Hr0 & Hc0 & _);
    pose proof (render_nonempty c Hwc Hplc) as Hlen;
    destruct (New_Item_granted w Hw) as (w1 & Hnew & Hw1);
    rewrite loop_fuel_cons in Hfuel;
    (destruct fuel as [| f]; [lia |]);
    rewrite render_elements_cons in Hat |- *;
    cbn [parse_array_loop].
  - rewrite List.app_nil_r in *.
    pose proof (at_text_split _ _ _ _ Hat) as Hatc.
    pose proof (at_text_advance _ _ _ _ Hat) as Hatn.
    assert (Hsk : skip_whitespace b = Ret b).
    { rewrite Hr0 in Hatc. eapply skip_whitespace_at; eassumption. }
    rewrite Hsk. cbn [bind]. rewrite Hnew.
    destruct (Hpc f None b w1 RBRACKET rest ltac:(lia) Hatc
                  ltac:(right; left; reflexivity) Hw1)
      as (item & w2 & Hparse & Hw2 & Hse).
    change (set_string None zero_item) with zero_item in Hparse.
    rewrite Hparse. cbn [bind Z.eqb].
    rewrite (skip_whitespace_at _ _ _ _ Hatn) by reflexivity. cbn [bind].
    rewrite (loop_condition_close _ _ _ _ Hatn) by discriminate. cbn [bind].
    exists [item], w2. repeat split; try assumption.
    constructor; [| constructor]. rewrite (set_string_same c None Hkc) in Hse. exact Hse.
  - rewrite <- app_assoc in Hat. cbn [app] in Hat.
    pose proof (at_text_split _ _ _ _ Hat) as Hatc.
    pose proof (at_text_advance _ _ _ _ Hat) as Hatn.
    assert (Hsk : skip_whitespace b = Ret b).
    { rewrite Hr0 in Hatc. eapply skip_whitespace_at; eassumption. }
    rewrite Hsk. cbn [bind]. rewrite Hnew.
    destruct (Hpc f None b w1 COMMA
                  (render_elements render (c' :: cs) ++ [RBRACKET] ++ rest)
                  ltac:(lia)) as (item & w2 & Hparse & Hw2 & Hse);
      [ | left; reflexivity | exact Hw1 | ].
    { destruct Hatc as [Hb Hl]. split; [| exact Hl].
      rewrite Hb. cbn [app]. rewrite <- !app_assoc. reflexivity. }
    change (set_string None zero_item) with zero_item in Hparse.
    rewrite Hparse. cbn [bind Z.eqb].
    rewrite (skip_whitespace_at _ _ _ _ Hatn) by reflexivity. cbn [bind].
    rewrite (loop_condition_comma _ _ _ Hatn)
      by (cbn [advance set_offset offset]; lia).
    cbn [bind].
    change (COMMA :: render_elements render (c' :: cs) ++ [RBRACKET])
      with ([COMMA] ++ render_elements render (c' :: cs) ++ [RBRACKET]) in Hatn.
    apply at_text_advance in Hatn. cbn [List.length] in Hatn.
    destruct (IH c' Hpcs Hwcs Hkcs Hplcs f (head ++ [item]) _ w2 rest
                 ltac:(lia) Hatn Hw2) as (items & w3 & Hloop & Hw3 & Hall).
    rewrite Hloop.
    exists (item :: items), w3. repeat split; try assumption.
    + rewrite <- app_assoc. cbn [app]. rewrite !advance_advance.
      match goal with
      | |- Ret (_, _, advance ?n _, _) = Ret (_, _, advance ?m _, _) =>
          replace n with m; [reflexivity |]
      end.
      rewrite length_app. cbn [List.length]. lia.
    + constructor; [| exact Hall].
      rewrite (set_string_same c None Hkc) in Hse. exact Hse.
Qed.

Lemma render_members_cons :
  forall c cs,
    render_members render (c :: cs)
    = string_text (string c) ++ COLON :: render c
        ++ match cs with
           | [] => []
           | _ :: _ => COMMA :: render_members render cs
           end.
Proof. reflexivity. Qed.

(** The steps of the object loop on one member: key, colon, value. *)
Lemma parse_member_render :
  forall c k f b w sep more,
    parses_back c -> well_formed c -> plain c = true -> string c = Some k ->
    (fuel_for c <= f)%nat ->
    at_text b (string_text (Some k) ++ COLON :: render c) (sep :: more) ->
    delimiter sep ->
    grants_all w ->
    exists w2 item w3,
      let b2 := advance (List.length (string_text (Some k))) b in
      let b4 := advance 1 b2 in
      skip_whitespace b = Ret b /\
      parse_string zero_item b w
      = Ret (1, set_valuestring (Some k) (set_type cJSON_String zero_item), b2, w2) /\
      skip_whitespace b2 = Ret b2 /\
      peek (buffer_at_offset b2) = Ret COLON /\
      skip_whitespace b4 = Ret b4 /\
      parse_value f (set_string (Some k) zero_item) b4 w2
      = Ret (1, item, advance (List.length (render c)) b4, w3) /\
      grants_all w3 /\
      structurally_equal c item = true.
Proof.
  intros c k f b w sep more Hpb Hwf Hpl Hkey Hfuel Hat Hsep Hw.
  destruct (plain_parts c Hpl) as (_ & Hpk & _ & _). rewrite Hkey in Hpk. cbn in Hpk.
  destruct (render_first c Hwf Hpl) as (c0 & r0 & Hr0 & Hc0 & _).
  pose proof (at_text_split _ _ _ _ Hat) as Hatk.
  pose proof (at_text_advance _ _ _ _ Hat) as Hatc.
  assert (Hsk : skip_whitespace b = Ret b).
  { unfold string_text in Hatk. cbn [app] in Hatk.
    eapply skip_whitespace_at; [exact Hatk | reflexivity]. }
  destruct (parse_string_at zero_item b w k _ Hatk Hpk Hw) as (w2 & Hps & Hw2).
  pose proof (skip_whitespace_at _ _ _ _ Hatc ltac:(reflexivity)) as Hsk1.
  assert (Hatv : at_text (advance 1 (advance (List.length (string_text (Some k))) b))
                         (render c) (sep :: more)).
  { apply (at_text_advance _ [COLON] (render c) (sep :: more)). exact Hatc. }
  assert (Hsk2 : skip_whitespace (advance 1 (advance (List.length (string_text (Some k))) b))
                 = Ret (advance 1 (advance (List.length (string_text (Some k))) b))).
  { rewrite Hr0 in Hatv. eapply skip_whitespace_at; eassumption. }
  destruct (Hpb f (Some k) _ w2 sep more Hfuel Hatv Hsep Hw2) as (item & w3 & Hpv & Hw3 & Hse).
  exists w2, item, w3. cbv zeta. repeat split; try assumption.
  - destruct Hatc as [-> _]. reflexivity.
  - rewrite (set_string_same c (Some k) Hkey) in Hse. exact Hse.
Qed.

Lemma member_end :
  forall (kt v : list byte) b,
    advance (List.length v) (advance 1 (advance (List.length kt) b))
    = advance (List.length (kt ++ COLON :: v)) b.
Proof.
  intros kt v b. rewrite !advance_advance. f_equal.
  rewrite length_app. cbn [List.length]. lia.
Qed.

Lemma parse_object_loop_render :
  forall cs c,
    Forall parses_back (c :: cs) ->
    Forall well_formed (c :: cs) ->
    Forall (fun x => exists k, string x = Some k) (c :: cs) ->
    Forall (fun x => plain x = true) (c :: cs) ->
    forall fuel head b w rest,
      (loop_fuel (c :: cs) <= fuel)%nat ->
      at_text b (render_members render (c :: cs) ++ [RBRACE]) rest ->
      grants_all w ->
      exists items w1,
        parse_object_loop fuel head b w
        = Ret (1, head ++ items,
               advance (List.length (render_members render (c :: cs))) b, w1) /\
        grants_all w1 /\
        Forall2 (fun x y => structurally_equal x y = true) (c :: cs) items.
Proof.
  induction cs as [| c' cs IH]; intros c Hpb Hwf Hkey Hpl fuel head b w rest Hfuel Hat Hw;
    inversion Hpb as [| ? ? Hpc Hpcs]; inversion Hwf as [| ? ? Hwc Hwcs];
    inversion Hkey as [| ? ? [k Hkc] Hkcs]; inversion Hpl as [| ? ? Hplc Hplcs]; subst;
    destruct (New_Item_granted w Hw) as (w1 & Hnew & Hw1);
    rewrite loop_fuel_cons in Hfuel;
    (destruct fuel as [| f]; [lia |]);
    rewrite render_members_cons in Hat |- *; rewrite Hkc in Hat |- *;
    cbn [parse_object_loop].
  - rewrite List.app_nil_r in *.
    change (string_text (Some k) ++ COLON :: render c)
      with (string_text (Some k) ++ [COLON] ++ render c) in Hat.
    rewrite app_assoc in Hat.
    assert (Hat' : at_text b ((string_text (Some k) ++ COLON :: render c) ++ [RBRACE]) rest).
    { destruct Hat as [Hb Hl]. split.
      - rewrite Hb. rewrite <- !app_assoc. reflexivity.
      - rewrite !length_app in *. cbn [List.length] in *. lia. }
    clear Hat.
    pose proof (at_text_split _ _ _ _ Hat') as Hatm.
    pose proof (at_text_advance _ _ _ _ Hat') as Hatn.
    destruct (parse_member_render c k f b w1 RBRACE rest Hpc Hwc Hplc Hkc ltac:(lia) Hatm
                ltac:(right; right; left; reflexivity) Hw1)
      as (w2 & item & w3 & Hs0 & Hps & Hs1 & Hcolon & Hs2 & Hpv & Hw3 & Hse).
    rewrite Hs0. cbn [bind]. rewrite Hnew, Hps. cbn [bind Z.eqb].
    rewrite Hs1. cbn [bind]. rewrite Hcolon. cbn [bind].
    rewrite Z.eqb_refl. cbn [negb]. rewrite Hs2. cbn [bind].
    change (set_type cJSON_Invalid
              (set_valuestring None
                 (set_string
                    (valuestring (set_valuestring (Some k) (set_type cJSON_String zero_item)))
                    (set_valuestring (Some k) (set_type cJSON_String zero_item)))))
      with (set_string (Some k) zero_item).
    rewrite Hpv. cbn [bind Z.eqb]. rewrite member_end.
    rewrite (skip_whitespace_at _ _ _ _ Hatn) by reflexivity. cbn [bind].
    rewrite (loop_condition_close _ _ _ _ Hatn) by discriminate. cbn [bind].
    exists [item], w3. repeat split; try assumption.
    constructor; [exact Hse | constructor].
  - assert (Hat' : at_text b ((string_text (Some k) ++ COLON :: render c)
                                ++ [COMMA] ++ render_members render (c' :: cs) ++ [RBRACE])
                           rest).
    { destruct Hat as [Hb Hl]. split.
      - rewrite Hb. cbn [app]. rewrite <- !app_assoc. cbn [app].
        rewrite <- !app_assoc. reflexivity.
      - rewrite !length_app in *. cbn [List.length] in *.
        rewrite !length_app in *. cbn [List.length] in *. lia. }
    pose proof (at_text_split _ _ _ _ Hat') as Hatm.
    pose proof (at_text_advance _ _ _ _ Hat') as Hatn.
    destruct (parse_member_render c k f b w1 COMMA
                (render_members render (c' :: cs) ++ [RBRACE] ++ rest)
                Hpc Hwc Hplc Hkc ltac:(lia)) as
        (w2 & item & w3 & Hs0 & Hps & Hs1 & Hcolon & Hs2 & Hpv & Hw3 & Hse);
      [ | left; reflexivity | exact Hw1 | ].
    { destruct Hatm as [Hb Hl]. split; [| exact Hl].
      rewrite Hb. cbn [app]. rewrite <- !app_assoc. reflexivity. }
    rewrite Hs0. cbn [bind]. rewrite Hnew, Hps. cbn [bind Z.eqb].
    rewrite Hs1. cbn [bind]. rewrite Hcolon. cbn [bind].
    rewrite Z.eqb_refl. cbn [negb]. rewrite Hs2. cbn [bind].
    change (set_type cJSON_Invalid
              (set_valuestring None
                 (set_string
                    (valuestring (set_valuestring (Some k) (set_type cJSON_String zero_item)))
                    (set_valuestring (Some k) (set_type cJSON_String zero_item)))))
      with (set_string (Some k) zero_item).
    rewrite Hpv. cbn [bind Z.eqb]. rewrite member_end.
    rewrite (skip_whitespace_at _ _ _ _ Hatn) by reflexivity. cbn [bind].
    rewrite (loop_condition_comma _ _ _ Hatn)
      by (cbn [advance set_offset offset List.length]; rewrite length_app;
          cbn [List.length]; lia).
    cbn [bind].
    apply at_text_advance in Hatn. cbn [List.length] in Hatn.
    destruct (IH c' Hpcs Hwcs Hkcs Hplcs f (head ++ [item]) _ w3 rest
                 ltac:(lia) Hatn Hw3) as (items & w4 & Hloop & Hw4 & Hall).
    rewrite Hloop.
    exists (item :: items), w4. repeat split; try assumption.
    + rewrite <- app_assoc. cbn [app]. rewrite !advance_advance.
      match goal with
      | |- Ret (_, _, advance ?n _, _) = Ret (_, _, advance ?m _, _) =>
          replace n with m; [reflexivity |]
      end.
      rewrite !length_app. cbn [List.length]. rewrite !length_app. cbn [List.length]. lia.
    + constructor; [exact Hse | exact Hall].
Qed.

Lemma parse_bracketed_render :
  forall (Q : list cJSON -> Prop) opening closing tag e1 e2 loop item b w text rest,
    at_text b (opening :: text ++ [closing]) rest ->
    32 < closing ->
    (text = [] \/ exists c1 r, text = c1 :: r /\ 32 < c1 /\ c1 <> closing) ->
    grants_all w ->
    (text <> [] ->
     forall b1, at_text b1 (text ++ [closing]) rest ->
       exists items w1,
         loop [] b1 w = Ret (1, items, advance (List.length text) b1, w1) /\
         grants_all w1 /\ Q items) ->
    exists item' w1,
      parse_bracketed opening closing tag e1 e2 loop item b w
      = Ret (1, item', advance (List.length (opening :: text ++ [closing])) b, w1) /\
      grants_all w1 /\
      ((text = [] /\ item' = set_type tag item) \/
       (exists items, item' = set_child items (set_type tag item) /\ Q items)).
Proof.
  intros Q opening closing tag e1 e2 loop item b w text rest Hat Hclose Htext Hw Hloop.
  unfold parse_bracketed.
  pose proof (at_text_advance b [opening] (text ++ [closing]) rest Hat) as Hat1.
  cbn [List.length] in Hat1.
  destruct Hat as [Hb Hl]. rewrite Hb. cbn [app peek bind].
  rewrite Z.eqb_refl. cbn [negb].
  destruct Htext as [-> | (c1 & r & -> & Hc1 & Hne)].
  - cbn [app] in *.
    rewrite (skip_whitespace_at _ _ _ _ Hat1 Hclose). cbn [bind].
    rewrite (can_access_at _ _ _ _ Hat1).
    destruct Hat1 as [-> _]. cbn [app peek bind]. rewrite Z.eqb_refl.
    rewrite advance_advance. exists (set_type tag item), w.
    repeat split; auto.
  - cbn [app] in Hat1.
    rewrite (skip_whitespace_at _ _ _ _ Hat1 Hc1). cbn [bind].
    rewrite (can_access_at _ _ _ _ Hat1).
    pose proof Hat1 as [Hb1 _]. rewrite Hb1. cbn [app peek bind].
    destruct (Z.eqb_spec c1 closing); [contradiction |].
    destruct (Hloop ltac:(discriminate) _ Hat1) as (items & w1 & Hrun & Hw1 & HQ).
    rewrite Hrun. cbn [bind Z.eqb].
    pose proof (at_text_advance _ (c1 :: r) [closing] rest Hat1) as Hat2.
    destruct Hat2 as [Hb2 _]. rewrite Hb2. cbn [app peek bind].
    rewrite Z.eqb_refl. cbn [negb].
    exists (set_child items (set_type tag item)), w1.
    split; [| split; [exact Hw1 | right; exists items; split; [reflexivity | exact HQ]]].
    rewrite !advance_advance.
    match goal with
    | |- Ret (_, _, advance ?n _, _) = Ret (_, _, advance ?m _, _) =>
        replace n with m; [reflexivity |]
    end.
    cbn [List.length]. rewrite length_app. cbn [List.length]. lia.
Qed.

Lemma same_value_plain :
  forall a b,
    kind a = kind b -> valuestring a = valuestring b -> kind a <> cJSON_Number ->
    same_value a b = true.
Proof.
  intros a b Hk Hv Hn. unfold same_value.
  rewrite Hk, Z.eqb_refl, Hv, text_eqb_refl. rewrite <- Hk.
  destruct (Z.eqb_spec (kind a) cJSON_Number); [contradiction | reflexivity].
Qed.

Lemma same_value_number :
  forall a b,
    kind a = kind b -> valuestring a = valuestring b ->
    (integer_valued a = true ->
     valueint b = valueint a /\ double_eqb (valuedouble b) (valuedouble a) = true) ->
    same_value a b = true.
Proof.
  intros a b Hk Hv Hn. unfold same_value.
  rewrite Hk, Z.eqb_refl, Hv, text_eqb_refl. cbn [andb].
  destruct (integer_valued a); [| rewrite andb_false_r; reflexivity].
  destruct (Hn eq_refl) as [-> ->]. rewrite Z.eqb_refl, orb_true_r. reflexivity.
Qed.

Lemma Forall_parses_back :
  forall cs,
    Forall (fun c => well_formed c -> plain c = true -> parses_back c) cs ->
    Forall well_formed cs -> Forall (fun c => plain c = true) cs ->
    Forall parses_back cs.
Proof.
  intros cs H Hwf Hpl. rewrite Forall_forall in *. intros c Hin. auto.
Qed.

Lemma render_elements_start :
  forall cs,
    Forall well_formed cs -> Forall (fun c => plain c = true) cs ->
    (cs = [] /\ render_elements render cs = []) \/
    (exists c1 r, render_elements render cs = c1 :: r /\ 32 < c1 /\ c1 <> RBRACKET).
Proof.
  intros [| c cs] Hwf Hpl; [left; split; reflexivity | right].
  inversion Hwf; inversion Hpl; subst.
  destruct (render_first c) as (c0 & r0 & Hr0 & Hc0 & Hb & _); try assumption.
  rewrite render_elements_cons, Hr0. cbn [app]. eauto.
Qed.

Lemma render_members_start :
  forall cs,
    (cs = [] /\ render_members render cs = []) \/
    (exists r, render_members render cs = QUOTE :: r).
Proof.
  intros [| c cs]; [left; split; reflexivity | right].
  rewrite render_members_cons. unfold string_text. cbn [app]. eauto.
Qed.

(** The parser reads back the text of every well-formed tree without
    backslash-u escapes and non-finite numbers. *)
Lemma parse_value_render :
  forall t, well_formed t -> plain t = true -> parses_back t.
Proof.
  induction t as [t IH] using cJSON_tree_ind. intros Hwf Hpl.
  intros fuel key b w c rest Hfuel Hat Hc Hw.
  rewrite fuel_for_eq in Hfuel. destruct fuel as [| f]; [lia |].
  apply le_S_n in Hfuel.
  destruct (plain_parts t Hpl) as (Hpv & _ & Hfin & Hplc).
  assert (Hkind : kind (set_string key t) = kind t) by (destruct t; reflexivity).
  assert (Hvs : valuestring (set_string key t) = valuestring t) by (destruct t; reflexivity).
  assert (Hch : child (set_string key t) = child t) by (destruct t; reflexivity).
  assert (Hst : string (set_string key t) = key) by (destruct t; reflexivity).
  rewrite render_eq in Hat |- *. cbv zeta in Hat |- *.
  inversion Hwf as [t0 Hk Hv Hcs | t0 Hk Hv Hcs Hint | t0 s Hk Hv Hcs
                    | t0 Hk Hv Hwcs Hkeys | t0 Hk Hv Hwcs Hkeys]; subst t0.
  - (* literals *)
    assert (Hlit : exists lit tag,
               render t = lit /\ kind t = tag /\
               ((lit = bytes_of_string "null" /\ tag = cJSON_NULL) \/
                (lit = bytes_of_string "false" /\ tag = cJSON_False) \/
                (lit = bytes_of_string "true" /\ tag = cJSON_True))).
    { rewrite render_eq. cbv zeta.
      destruct Hk as [Hk | [Hk | Hk]]; rewrite Hk; do 2 eexists;
        (split; [reflexivity |]); (split; [reflexivity |]); auto. }
    destruct Hlit as (lit & tag & Hrender & Htag & Hcases).
    rewrite render_eq in Hrender. cbv zeta in Hrender. rewrite Hrender in Hat |- *.
    rewrite (parse_value_literal f _ b w lit (c :: rest) tag Hcases Hat).
    do 2 eexists. split; [reflexivity |]. split; [exact Hw |].
    apply structurally_equal_node.
    + apply same_value_plain.
      * rewrite Hkind, Htag.
        destruct Hcases as [[_ ->] | [[_ ->] | [_ ->]]]; reflexivity.
      * rewrite Hvs, Hv. reflexivity.
      * rewrite Hkind, Htag.
        destruct Hcases as [[_ ->] | [[_ ->] | [_ ->]]]; discriminate.
    + rewrite Hst. reflexivity.
    + rewrite Hch, Hcs. constructor.
  - (* numbers *)
    rewrite Hk in Hat |- *.
    cbn [Z.eqb Pos.eqb cJSON_Number cJSON_NULL cJSON_False cJSON_True Z.shiftl] in Hat |- *.
    pose proof (number_text_literal t (Hfin Hk)) as Hlit.
    destruct (decimal_literal_first _ Hlit) as (c0 & r0 & Hr0 & Hc0).
    destruct (strtod_decimal_literal _ c rest Hlit Hc) as (x & Hx).
    assert (Hne : number_text t <> []) by (rewrite Hr0; discriminate).
    assert (Hdisp : parse_value (S f) (set_string key zero_item) b w
                    = parse_number (set_string key zero_item) b w).
    { rewrite Hr0 in Hat.
      rewrite (parse_value_dispatch f _ b w c0 r0 (c :: rest) Hat).
      - destruct Hc0 as [-> | Hd]; [reflexivity |].
        rewrite Hd, orb_true_r.
        apply is_digit_range in Hd. unfold QUOTE.
        destruct (Z.eqb_spec c0 34); [exfalso; lia | reflexivity].
      - destruct Hc0 as [-> | Hd]; [reflexivity | apply is_digit_range in Hd; lia].
      - destruct Hc0 as [-> | Hd]; [discriminate | apply is_digit_range in Hd; unfold CH_n; lia].
      - destruct Hc0 as [-> | Hd]; [discriminate | apply is_digit_range in Hd; unfold CH_f; lia].
      - destruct Hc0 as [-> | Hd]; [discriminate | apply is_digit_range in Hd; unfold CH_t; lia]. }
    rewrite Hdisp, (parse_number_at _ b w _ c rest x Hat Hx Hne).
    do 2 eexists. split; [reflexivity |]. split; [exact Hw |].
    apply structurally_equal_node.
    + apply same_value_number.
      * rewrite Hkind, Hk. reflexivity.
      * rewrite Hvs, Hv. reflexivity.
      * unfold integer_valued.
        replace (valuedouble (set_string key t)) with (valuedouble t) by (destruct t; reflexivity).
        replace (valueint (set_string key t)) with (valueint t) by (destruct t; reflexivity).
        intros Hiv.
        assert (Hxv : x = double_of_int (valueint t)).
        { unfold number_text in Hx. rewrite (Hfin Hk), Hiv in Hx.
          rewrite strtod_fmt_d in Hx by (rewrite ?Hint; auto using int_of_double_range).
          congruence. }
        subst x. cbn [valueint valuedouble set_type set_number].
        rewrite int_of_double_of_int by (rewrite Hint; apply int_of_double_range).
        split; [reflexivity |]. rewrite double_eqb_sym. exact Hiv.
    + rewrite Hst. reflexivity.
    + rewrite Hch, Hcs. constructor.
  - (* strings *)
    rewrite Hk in Hat |- *.
    cbn [Z.eqb Pos.eqb orb cJSON_String cJSON_Raw cJSON_Number cJSON_NULL cJSON_False
               cJSON_True Z.shiftl] in Hat |- *.
    rewrite Hv in Hat, Hpv |- *. cbn [printable_text] in Hpv.
    assert (Hdisp : parse_value (S f) (set_string key zero_item) b w
                    = parse_string (set_string key zero_item) b w).
    { unfold string_text in Hat. cbn [app] in Hat.
      rewrite (parse_value_dispatch f _ b w QUOTE _ (c :: rest) Hat);
        [reflexivity | reflexivity | discriminate ..]. }
    destruct (parse_string_at (set_string key zero_item) b w s _ Hat Hpv Hw)
      as (w1 & Hps & Hw1).
    rewrite Hdisp, Hps.
    do 2 eexists. split; [reflexivity |]. split; [exact Hw1 |].
    apply structurally_equal_node.
    + apply same_value_plain.
      * rewrite Hkind, Hk. reflexivity.
      * rewrite Hvs, Hv. reflexivity.
      * rewrite Hkind, Hk. discriminate.
    + rewrite Hst. reflexivity.
    + rewrite Hch, Hcs. constructor.
  - (* arrays *)
    rewrite Hk in Hat |- *.
    cbn [Z.eqb Pos.eqb orb cJSON_Array cJSON_String cJSON_Raw cJSON_Number cJSON_NULL
               cJSON_False cJSON_True Z.shiftl] in Hat |- *.
    pose proof (Forall_parses_back _ IH Hwcs Hplc) as Hpb.
    assert (Hdisp : parse_value (S f) (set_string key zero_item) b w
                    = parse_array f (set_string key zero_item) b w).
    { rewrite (parse_value_dispatch f _ b w LBRACKET _ (c :: rest) Hat);
        [reflexivity | reflexivity | discriminate ..]. }
    rewrite Hdisp. unfold parse_array.
    destruct (parse_bracketed_render
                (fun items => Forall2 (fun x y => structurally_equal x y = true)
                                      (child t) items)
                LBRACKET RBRACKET cJSON_Array "Not an array" "Expected ']'"
                (parse_array_loop f) (set_string key zero_item) b w
                (render_elements render (child t)) (c :: rest) Hat
                ltac:(reflexivity))
      as (item & w1 & Hrun & Hw1 & Hitem); [ | exact Hw | | ].
    { destruct (render_elements_start _ Hwcs Hplc) as [[_ ->] | (c1 & r & -> & H1 & H2)];
        [left; reflexivity | right; eauto]. }
    { intros Hne b1 Hat1.
      destruct (child t) as [| c1 cs] eqn:Hchild; [contradiction Hne; reflexivity |].
      destruct (parse_array_loop_render cs c1 Hpb Hwcs Hkeys Hplc
                  f [] b1 w (c :: rest) Hfuel Hat1 Hw)
        as (items & w1 & Hloop & Hw1 & Hall).
      exists items, w1. auto. }
    rewrite Hrun. exists item, w1. split; [reflexivity |]. split; [exact Hw1 |].
    apply structurally_equal_node.
    + apply same_value_plain.
      * rewrite Hkind, Hk.
        destruct Hitem as [[_ ->] | (items & -> & _)]; reflexivity.
      * rewrite Hvs, Hv.
        destruct Hitem as [[_ ->] | (items & -> & _)]; reflexivity.
      * rewrite Hkind, Hk. discriminate.
    + rewrite Hst. destruct Hitem as [[_ ->] | (items & -> & _)]; reflexivity.
    + rewrite Hch. destruct Hitem as [[Hnil ->] | (items & -> & Hall)]; [| exact Hall].
      destruct (render_elements_start _ Hwcs Hplc) as [[-> _] | (c1 & r & Heq & _)];
        [constructor | congruence].
  - (* objects *)
    rewrite Hk in Hat |- *.
    cbn [Z.eqb Pos.eqb orb cJSON_Object cJSON_Array cJSON_String cJSON_Raw cJSON_Number
               cJSON_NULL cJSON_False cJSON_True Z.shiftl] in Hat |- *.
    pose proof (Forall_parses_back _ IH Hwcs Hplc) as Hpb.
    assert (Hdisp : parse_value (S f) (set_string key zero_item) b w
                    = parse_object f (set_string key zero_item) b w).
    { rewrite (parse_value_dispatch f _ b w LBRACE _ (c :: rest) Hat);
        [reflexivity | reflexivity | discriminate ..]. }
    rewrite Hdisp. unfold parse_object.
    destruct (parse_bracketed_render
                (fun items => Forall2 (fun x y => structurally_equal x y = true)
                                      (child t) items)
                LBRACE RBRACE cJSON_Object "Not an object" "Expected '}'"
                (parse_object_loop f) (set_string key zero_item) b w
                (render_members render (child t)) (c :: rest) Hat
                ltac:(reflexivity))
      as (item & w1 & Hrun & Hw1 & Hitem); [ | exact Hw | | ].
    { destruct (render_members_start (child t)) as [[_ ->] | (r & ->)];
        [left; reflexivity | right].
      do 2 eexists. split; [reflexivity |]. split; [reflexivity | discriminate]. }
    { intros Hne b1 Hat1.
      destruct (child t) as [| c1 cs] eqn:Hchild; [contradiction Hne; reflexivity |].
      destruct (parse_object_loop_render cs c1 Hpb Hwcs Hkeys Hplc
                  f [] b1 w (c :: rest) Hfuel Hat1 Hw)
        as (items & w1 & Hloop & Hw1 & Hall).
      exists items, w1. auto. }
    rewrite Hrun. exists item, w1. split; [reflexivity |]. split; [exact Hw1 |].
    apply structurally_equal_node.
    + apply same_value_plain.
      * rewrite Hkind, Hk.
        destruct Hitem as [[_ ->] | (items & -> & _)]; reflexivity.
      * rewrite Hvs, Hv.
        destruct Hitem as [[_ ->] | (items & -> & _)]; reflexivity.
      * rewrite Hkind, Hk. discriminate.
    + rewrite Hst. destruct Hitem as [[_ ->] | (items & -> & _)]; reflexivity.
    + rewrite Hch. destruct Hitem as [[Hnil ->] | (items & -> & Hall)]; [| exact Hall].
      destruct (render_members_start (child t)) as [[-> _] | (r & Heq)];
        [constructor | congruence].
Qed.

(** ** Round trip: the text is a C string *)


Lemma digits_nonzero : forall l, all_digits l -> nonzero l.
Proof.
  intros l H. unfold nonzero, all_digits in *. rewrite Forall_forall in *.
  intros c Hin. specialize (H c Hin). apply is_digit_range in H. unfold NUL. lia.
Qed.

Lemma decimal_literal_nonzero : forall text, decimal_literal text -> nonzero text.
Proof.
  intros text (neg & d & int & f & ex & -> & Hd & Hf & Hex). unfold nonzero.
  apply Forall_app; split; [| apply Forall_app; split; [| apply Forall_app; split]].
  - destruct neg; constructor; [discriminate | constructor].
  - apply digits_nonzero. exact Hd.
  - destruct Hf as [-> | (fd & -> & Hfd)]; [constructor |].
    constructor; [discriminate | apply digits_nonzero; exact Hfd].
  - destruct Hex as [-> | (s & ed & -> & Hs & Hed & _)]; [constructor |].
    constructor; [discriminate |].
    constructor; [destruct Hs as [-> | ->]; discriminate | apply digits_nonzero; exact Hed].
Qed.

Lemma escape_nonzero : forall s, forallb printable s = true -> nonzero (escape s).
Proof.
  induction s as [| c s IH]; intros H; [constructor |].
  cbn [forallb] in H. apply andb_true_iff in H as [Hc Hs].
  unfold escape. cbn [flat_map]. apply Forall_app. split; [| apply IH; exact Hs].
  destruct (printable_cases c Hc) as [-> | [-> | [-> | [-> | [-> | [-> | [-> | (H32 & Hq & Hb)]]]]]]];
    try (repeat constructor; discriminate).
  rewrite escape_plain_byte by assumption. repeat constructor. unfold NUL. lia.
Qed.

Lemma string_text_nonzero :
  forall s, forallb printable s = true -> nonzero (string_text (Some s)).
Proof.
  intros s H. unfold string_text. rewrite (c_str_printable s H).
  constructor; [discriminate |]. apply Forall_app. split; [apply escape_nonzero; exact H |].
  repeat constructor. discriminate.
Qed.

Lemma render_elements_nonzero :
  forall cs,
    Forall (fun c => nonzero (render c)) cs -> nonzero (render_elements render cs).
Proof.
  intros cs H. induction H as [| c cs Hc _ IH]; [constructor |].
  rewrite render_elements_cons. apply Forall_app. split; [exact Hc |].
  destruct cs; [constructor |]. constructor; [discriminate | exact IH].
Qed.

Lemma render_members_nonzero :
  forall cs,
    Forall (fun c => nonzero (render c)) cs ->
    Forall (fun c => nonzero (string_text (string c))) cs ->
    nonzero (render_members render cs).
Proof.
  intros cs H. induction H as [| c cs Hc _ IH]; intros Hk; [constructor |].
  inversion Hk as [| ? ? Hkc Hkcs]; subst.
  rewrite render_members_cons. apply Forall_app. split; [exact Hkc |].
  constructor; [discriminate |]. apply Forall_app. split; [exact Hc |].
  destruct cs; [constructor |]. constructor; [discriminate | exact (IH Hkcs)].
Qed.

Lemma render_nonzero :
  forall t, well_formed t -> plain t = true -> nonzero (render t).
Proof.
  induction t as [t IH] using cJSON_tree_ind. intros Hwf Hpl.
  destruct (plain_parts t Hpl) as (Hpv & _ & Hfin & Hplc).
  assert (Hcs : Forall (fun c => well_formed c) (child t) ->
                Forall (fun c => nonzero (render c)) (child t)).
  { intros Hw. rewrite Forall_forall in *. auto. }
  rewrite render_eq. cbv zeta.
  inversion Hwf as [t0 Hk Hv Hc0 | t0 Hk Hv Hc0 Hint | t0 s Hk Hv Hc0
                    | t0 Hk Hv Hwcs Hkeys | t0 Hk Hv Hwcs Hkeys]; subst t0.
  - destruct Hk as [Hk | [Hk | Hk]]; rewrite Hk; repeat constructor; discriminate.
  - rewrite Hk. apply decimal_literal_nonzero, number_text_literal, Hfin, Hk.
  - rewrite Hk, Hv. rewrite Hv in Hpv. apply string_text_nonzero. exact Hpv.
  - rewrite Hk. cbn [Z.eqb Pos.eqb orb cJSON_Array cJSON_String cJSON_Raw cJSON_Number
                          cJSON_NULL cJSON_False cJSON_True Z.shiftl].
    constructor; [discriminate |]. apply Forall_app.
    split; [| repeat constructor; discriminate].
    apply render_elements_nonzero, Hcs, Hwcs.
  - rewrite Hk. cbn [Z.eqb Pos.eqb orb cJSON_Object cJSON_Array cJSON_String cJSON_Raw
                          cJSON_Number cJSON_NULL cJSON_False cJSON_True Z.shiftl].
    constructor; [discriminate |]. apply Forall_app.
    split; [| repeat constructor; discriminate].
    apply render_members_nonzero; [apply Hcs, Hwcs |].
    rewrite Forall_forall in *. intros c Hin.
    destruct (Hkeys c Hin) as [k Hkc]. rewrite Hkc.
    destruct (plain_parts c (Hplc c Hin)) as (_ & Hpk & _).
    rewrite Hkc in Hpk. apply string_text_nonzero. exact Hpk.
Qed.

Lemma strlen_c_string :
  forall l junk, nonzero l -> strlen (l ++ NUL :: junk) = Ret (List.length l).
Proof.
  intros l junk H. induction H as [| c l Hc _ IH]; [reflexivity |].
  cbn [app strlen List.length].
  destruct (Z.eqb_spec c NUL); [contradiction |]. rewrite IH. reflexivity.
Qed.

(** ** Round trip *)

Lemma grants_all_set_error : forall e w, grants_all w -> grants_all (set_error e w).
Proof. intros e w H n. exact (H n). Qed.

(** C1, as stated, fails: a Raw node, which the Builder API creates, is
    serialized as a quoted string and parsed back as a String node. *)
Lemma C1_raw_comes_back_as_string :
  exists w1 text w2 t' w3,
    cJSON_CreateRaw (Some (bytes_of_string "x")) initial_world = (Some sample_raw, w1) /\
    cJSON_PrintUnformatted (Some sample_raw) w1 = (Some text, w2) /\
    cJSON_Parse 1 (Some (c_string text)) w2 = Ret (Some t', w3) /\
    kind sample_raw = cJSON_Raw /\
    kind t' = cJSON_String /\
    structurally_equal sample_raw t' = false.
Proof.
  do 5 eexists.
  split; [vm_compute; reflexivity |].
  split; [vm_compute; reflexivity |].
  split; [vm_compute; reflexivity |].
  vm_compute. repeat split.
Qed.

(** Two more uses of the Builder API that do not survive the round
    trip: a String created from a null pointer comes back as the empty
    string, and an item attached to an object with cJSON_AddItemToArray,
    which has no key, comes back under the empty key. *)
Example null_string_comes_back_empty :
  exists s w1 text w2 t' w3,
    cJSON_CreateString None initial_world = (Some s, w1) /\
    cJSON_PrintUnformatted (Some s) w1 = (Some text, w2) /\
    cJSON_Parse 1 (Some (c_string text)) w2 = Ret (Some t', w3) /\
    valuestring s = None /\ valuestring t' = Some [] /\
    structurally_equal s t' = false.
Proof.
  do 6 eexists.
  split; [vm_compute; reflexivity |].
  split; [vm_compute; reflexivity |].
  split; [vm_compute; reflexivity |].
  vm_compute. repeat split.
Qed.

Example keyless_member_comes_back_keyed :
  exists o text w2 t' w3,
    cJSON_AddItemToArray (Some (set_type cJSON_Object zero_item)) (Some sample_true)
    = (1, Some o) /\
    cJSON_PrintUnformatted (Some o) initial_world = (Some text, w2) /\
    cJSON_Parse 3 (Some (c_string text)) w2 = Ret (Some t', w3) /\
    map string (child o) = [None] /\ map string (child t') = [Some []] /\
    structurally_equal o t' = false.
Proof.
  do 5 eexists.
  split; [vm_compute; reflexivity |].
  split; [vm_compute; reflexivity |].
  split; [vm_compute; reflexivity |].
  vm_compute. repeat split.
Qed.

(** C1, amended: for every tree that the Builder API yields without Raw
    nodes and null strings (scalars from the constructors, arrays grown
    by cJSON_AddItemToArray, objects grown by cJSON_AddItemToObject or
    cJSON_AddItemToObjectCS, every node attached once), whose strings and
    keys need no backslash-u escape and whose numbers are finite: when
    allocations are granted, cJSON_PrintUnformatted returns a text, and
    cJSON_Parse of that C string, with fuel for the depth of the tree,
    returns a tree structurally equal to the original (same kinds, same
    keys in the same order, equal strings, and for every Number whose
    double equals its integer view the same integer view and an equal
    double). *)
Theorem C1_roundtrip_of_built_trees :
  forall t, built t -> plain t = true ->
  forall w, grants_all w ->
    exists text w1,
      cJSON_PrintUnformatted (Some t) w = (Some text, w1) /\
      forall junk fuel w2,
        (fuel_for t <= fuel)%nat -> grants_all w2 ->
        exists t' w3,
          cJSON_Parse fuel (Some (text ++ NUL :: junk)) w2 = Ret (Some t', w3) /\
          structurally_equal t t' = true.
Proof.
  intros t Hb Hpl w Hw.
  destruct (built_well_formed t Hb) as [Hwf Hkey].
  unfold cJSON_PrintUnformatted, call_malloc. rewrite Hw. cbn [print_value].
  match goal with
  | |- context [print_item t ?p ?w1] =>
      pose proof (print_item_render t Hwf p w1 (grants_all_log _ _ Hw)) as Hpr;
      destruct (print_item t p w1) as [[ok p'] w']
  end.
  destruct Hpr as (-> & Hbuf & Hw'). cbn [Z.eqb buffer app] in *.
  exists (buffer p'), w'. split; [reflexivity |].
  intros junk fuel w2 Hfuel Hw2. rewrite Hbuf.
  unfold cJSON_Parse.
  rewrite (strlen_c_string _ junk (render_nonzero t Hwf Hpl)). cbn [bind].
  unfold cJSON_ParseWithLength.
  pose proof (render_nonempty t Hwf Hpl) as Hlen.
  destruct (Nat.eqb_spec (List.length (render t)) 0); [lia |].
  destruct (New_Item_granted _ (grants_all_set_error None w2 Hw2)) as (w3 & -> & Hw3).
  destruct (parse_value_render t Hwf Hpl fuel None
              (mk_parse_buffer (render t ++ NUL :: junk) (List.length (render t)) 0)
              w3 NUL junk Hfuel) as (item & w4 & Hparse & Hw4 & Hse).
  - split; [reflexivity | cbn [offset length]; lia].
  - right. right. right. reflexivity.
  - exact Hw3.
  - change (set_string None zero_item) with zero_item in Hparse.
    rewrite Hparse. cbn [bind Z.eqb].
    exists item, w4. split; [reflexivity |].
    rewrite (set_string_same t None Hkey) in Hse. exact Hse.
Qed.

Lemma sample_object_built : built sample_object.
Proof.
  assert (Ha0 : built (set_type cJSON_Array zero_item))
    by (apply (built_array initial_world _ (log_event (ev_malloc libc 64 true) initial_world));
        reflexivity).
  assert (H1 : built sample_one)
    by (apply (built_number (Fin false 1 0) initial_world _
                 (log_event (ev_malloc libc 64 true) initial_world)); reflexivity).
  assert (Hx : built sample_x).
  { eapply (built_string (bytes_of_string "x") initial_world). vm_compute. reflexivity. }
  assert (Ht : built sample_true)
    by (apply (built_true initial_world _ (log_event (ev_malloc libc 64 true) initial_world));
        reflexivity).
  assert (Ha1 : built (set_child [sample_one] (set_type cJSON_Array zero_item)))
    by (apply (built_array_item _ _ _ Ha0 eq_refl H1); reflexivity).
  assert (Ha2 : built (set_child [sample_one; sample_x] (set_type cJSON_Array zero_item)))
    by (apply (built_array_item _ _ _ Ha1 eq_refl Hx); reflexivity).
  assert (Ha3 : built sample_array)
    by (apply (built_array_item _ _ _ Ha2 eq_refl Ht); reflexivity).
  assert (Ho : built (set_type cJSON_Object zero_item))
    by (apply (built_object initial_world _ (log_event (ev_malloc libc 64 true) initial_world));
        reflexivity).
  eapply (built_object_item _ (bytes_of_string "a") _ initial_world _ _ _ Ho eq_refl Ha3).
  vm_compute. reflexivity.
Defined.

Lemma C1_roundtrip_of_built_trees_witness :
  built sample_object /\ plain sample_object = true /\ grants_all initial_world /\
  exists text w1,
    cJSON_PrintUnformatted (Some sample_object) initial_world = (Some text, w1) /\
    forall junk fuel w2,
      (fuel_for sample_object <= fuel)%nat -> grants_all w2 ->
      exists t' w3,
        cJSON_Parse fuel (Some (text ++ NUL :: junk)) w2 = Ret (Some t', w3) /\
        structurally_equal sample_object t' = true.
Proof.
  split; [exact sample_object_built |].
  split; [reflexivity |].
  split; [intros n; reflexivity |].
  apply (C1_roundtrip_of_built_trees sample_object sample_object_built eq_refl initial_world).
  intros n. reflexivity.
Defined.

Example sample_object_text :
  fst (cJSON_PrintUnformatted (Some sample_object) initial_world)
  = Some ([LBRACE] ++ quoted "a" ++ bytes_of_string ":[1," ++ quoted "x"
                   ++ bytes_of_string ",true]}").
Proof. vm_compute. reflexivity. Qed.

(** ** Unicode escapes *)

Lemma ordinary_cases :
  forall c, ordinary c = true -> c <> QUOTE /\ c <> BACKSLASH /\ c <> NUL.
Proof.
  intros c H. unfold ordinary in H.
  apply andb_true_iff in H as [H H3]. apply andb_true_iff in H as [H1 H2].
  apply negb_true_iff in H1, H2, H3.
  apply Z.eqb_neq in H1, H2, H3. auto.
Qed.

Lemma scan_string_ordinary :
  forall c r stepped len,
    ordinary c = true ->
    scan_string (c :: r) stepped len = scan_string r (S stepped) (S len).
Proof.
  intros c r stepped len H. destruct (ordinary_cases c H) as (Hq & Hb & Hn).
  cbn [scan_string].
  destruct (Z.eqb_spec c QUOTE); [contradiction |].
  destruct (Z.eqb_spec c NUL); [contradiction |].
  destruct (Z.eqb_spec c BACKSLASH); [contradiction | reflexivity].
Qed.

Lemma scan_string_backslash :
  forall e r stepped len,
    scan_string (BACKSLASH :: e :: r) stepped len
    = scan_string r (S (S stepped)) (S len).
Proof. reflexivity. Qed.

Lemma scan_string_pieces :
  forall pieces rest stepped len,
    forallb piece_ok pieces = true ->
    scan_string (string_body pieces ++ QUOTE :: rest) stepped len
    = Ret (true, (stepped + List.length (string_body pieces))%nat,
           (len + list_sum (map counted pieces))%nat).
Proof.
  induction pieces as [| p pieces IH]; intros rest stepped len H.
  - cbn. rewrite !Nat.add_0_r. reflexivity.
  - cbn [forallb] in H. apply andb_true_iff in H as [Hp H].
    unfold string_body in *. cbn [flat_map map]. rewrite <- app_assoc.
    match goal with
    | |- context [list_sum (?x :: ?l)] =>
        change (list_sum (x :: l)) with (x + list_sum l)%nat
    end.
    destruct p as [c | e | h1 h2 h3 h4]; cbn [piece_text piece_ok counted app] in *.
    + rewrite scan_string_ordinary by assumption. rewrite IH by assumption.
      cbn [List.length]. apply f_equal; apply f_equal2; [apply f_equal |]; lia.
    + rewrite scan_string_backslash.
      rewrite IH by assumption. cbn [List.length]. apply f_equal; apply f_equal2; [apply f_equal |]; lia.
    + apply andb_true_iff in Hp as [Hp H4]. apply andb_true_iff in Hp as [Hp H3].
      apply andb_true_iff in Hp as [H1 H2].
      rewrite scan_string_backslash.
      rewrite !scan_string_ordinary by assumption. rewrite IH by assumption.
      cbn [List.length]. apply f_equal; apply f_equal2; [apply f_equal |]; lia.
Qed.

Lemma unescape_ordinary :
  forall c r, ordinary c = true ->
    unescape (c :: r) = (o <- unescape r ;; Ret (c :: o)).
Proof.
  intros c r H. destruct (ordinary_cases c H) as (Hq & Hb & Hn).
  cbn [unescape].
  destruct (Z.eqb_spec c QUOTE); [contradiction |].
  destruct (Z.eqb_spec c BACKSLASH); [contradiction | reflexivity].
Qed.

Lemma unescape_escaped :
  forall e r, (e =? CH_u) = false ->
    unescape (BACKSLASH :: e :: r) = (o <- unescape r ;; Ret (escape_value e :: o)).
Proof.
  intros e r H. cbn [unescape].
  change (BACKSLASH =? QUOTE) with false. change (BACKSLASH =? BACKSLASH) with true.
  cbn iota. unfold escape_value. rewrite H.
  destruct (e =? CH_b); [reflexivity |]. destruct (e =? CH_f); [reflexivity |].
  destruct (e =? CH_n); [reflexivity |]. destruct (e =? CH_r); [reflexivity |].
  destruct (e =? CH_t); reflexivity.
Qed.

Lemma unescape_pieces :
  forall pieces rest,
    forallb piece_ok pieces = true ->
    unescape (string_body pieces ++ QUOTE :: rest) = Ret (decoded pieces).
Proof.
  induction pieces as [| p pieces IH]; intros rest H; [reflexivity |].
  cbn [forallb] in H. apply andb_true_iff in H as [Hp H].
  unfold string_body, decoded in *. cbn [flat_map map]. rewrite <- app_assoc.
  destruct p as [c | e | h1 h2 h3 h4]; cbn [piece_text piece_ok piece_value app] in *.
  - rewrite unescape_ordinary by assumption. rewrite IH by assumption. reflexivity.
  - apply andb_true_iff in Hp as [Hu _]. apply negb_true_iff in Hu.
    rewrite unescape_escaped by assumption. rewrite IH by assumption. reflexivity.
  - cbn [unescape].
    change (BACKSLASH =? QUOTE) with false. change (BACKSLASH =? BACKSLASH) with true.
    change (CH_u =? CH_b) with false. change (CH_u =? CH_f) with false.
    change (CH_u =? CH_n) with false. change (CH_u =? CH_r) with false.
    change (CH_u =? CH_t) with false. change (CH_u =? CH_u) with true. cbn iota.
    rewrite IH by assumption. reflexivity.
Qed.

Lemma escape_value_nonzero : forall e, e <> NUL -> escape_value e <> NUL.
Proof.
  intros e H. unfold escape_value.
  destruct (e =? CH_b); [discriminate |]. destruct (e =? CH_f); [discriminate |].
  destruct (e =? CH_n); [discriminate |]. destruct (e =? CH_r); [discriminate |].
  destruct (e =? CH_t); [discriminate | exact H].
Qed.

Lemma decoded_nonzero :
  forall pieces, forallb piece_ok pieces = true -> nonzero (decoded pieces).
Proof.
  induction pieces as [| p pieces IH]; intros H; [constructor |].
  cbn [forallb] in H. apply andb_true_iff in H as [Hp H].
  unfold decoded. cbn [map]. constructor; [| apply IH; exact H].
  destruct p as [c | e | h1 h2 h3 h4]; cbn [piece_ok piece_value] in *.
  - apply (ordinary_cases c Hp).
  - apply andb_true_iff in Hp as [_ Hn]. apply negb_true_iff, Z.eqb_neq in Hn.
    apply escape_value_nonzero; exact Hn.
  - discriminate.
Qed.

Lemma string_body_nonzero :
  forall pieces, forallb piece_ok pieces = true -> nonzero (string_body pieces).
Proof.
  induction pieces as [| p pieces IH]; intros H; [constructor |].
  cbn [forallb] in H. apply andb_true_iff in H as [Hp H].
  unfold string_body. cbn [flat_map]. apply Forall_app. split; [| apply IH; exact H].
  destruct p as [c | e | h1 h2 h3 h4]; cbn [piece_ok piece_text] in *.
  - constructor; [apply (ordinary_cases c Hp) | constructor].
  - apply andb_true_iff in Hp as [_ Hn]. apply negb_true_iff, Z.eqb_neq in Hn.
    constructor; [discriminate |]. constructor; [exact Hn | constructor].
  - apply andb_true_iff in Hp as [Hp H4]. apply andb_true_iff in Hp as [Hp H3].
    apply andb_true_iff in Hp as [H1 H2].
    constructor; [discriminate |]. constructor; [discriminate |].
    constructor; [apply (ordinary_cases _ H1) |].
    constructor; [apply (ordinary_cases _ H2) |].
    constructor; [apply (ordinary_cases _ H3) |].
    constructor; [apply (ordinary_cases _ H4) | constructor].
Qed.

Lemma c_str_nonzero_id : forall s, nonzero s -> c_str s = s.
Proof.
  induction 1 as [| c s Hc _ IH]; [reflexivity |].
  cbn [c_str]. destruct (Z.eqb_spec c NUL); [contradiction | congruence].
Qed.

Lemma counted_length :
  forall pieces, (List.length (decoded pieces) <= list_sum (map counted pieces))%nat.
Proof.
  induction pieces as [| p pieces IH]; [cbn; lia |].
  unfold decoded in *. cbn [map List.length].
  match goal with
  | |- context [list_sum (?x :: ?l)] =>
      change (list_sum (x :: l)) with (x + list_sum l)%nat
  end.
  destruct p; cbn [counted]; lia.
Qed.

Lemma parse_string_pieces :
  forall pieces item b w rest,
    forallb piece_ok pieces = true ->
    buffer_at_offset b = QUOTE :: string_body pieces ++ QUOTE :: rest ->
    next_granted w ->
    parse_string item b w
    = Ret (1, set_valuestring (Some (decoded pieces)) (set_type cJSON_String item),
           advance (List.length (QUOTE :: string_body pieces ++ [QUOTE])) b,
           log_event (ev_malloc (global_malloc w)
                                (Z.of_nat (list_sum (map counted pieces)) + 1) true) w).
Proof.
  intros pieces item b w rest Hok Hb Hw.
  unfold parse_string. rewrite Hb. cbn [peek bind List.tl].
  rewrite Z.eqb_refl. cbn [negb].
  rewrite scan_string_pieces by assumption. cbn [bind negb].
  unfold call_malloc. unfold next_granted in Hw. rewrite Hw. cbn [negb].
  rewrite unescape_pieces by assumption. cbn [bind].
  pose proof (counted_length pieces) as Hlen.
  destruct (Nat.ltb_spec (0 + list_sum (map counted pieces))
                         (List.length (decoded pieces))) as [Hlt | _]; [lia |].
  rewrite (c_str_nonzero_id _ (decoded_nonzero pieces Hok)).
  rewrite advance_advance. cbn [Nat.add].
  replace (List.length (QUOTE :: string_body pieces ++ [QUOTE]))
    with (S (List.length (string_body pieces) + 1))
    by (cbn [List.length]; rewrite length_app; reflexivity).
  reflexivity.
Qed.

Lemma hex_digit_ordinary : forall c v, hex_value c = Some v -> ordinary c = true.
Proof.
  intros c v H. unfold hex_value in H. unfold ordinary, QUOTE, BACKSLASH, NUL.
  destruct (Z.eqb_spec c 34) as [-> | _]; [discriminate |].
  destruct (Z.eqb_spec c 92) as [-> | _]; [discriminate |].
  destruct (Z.eqb_spec c 0) as [-> | _]; [discriminate | reflexivity].
Qed.

Lemma Parse_string_pieces :
  forall pieces fuel rest w,
    forallb piece_ok pieces = true -> grants_all w ->
    exists w',
      cJSON_Parse (S fuel) (Some ((QUOTE :: string_body pieces ++ [QUOTE]) ++ NUL :: rest)) w
      = Ret (Some (set_valuestring (Some (decoded pieces))
                                   (set_type cJSON_String zero_item)), w').
Proof.
  intros pieces fuel rest w Hok Hw.
  assert (Hnz : nonzero (QUOTE :: string_body pieces ++ [QUOTE])).
  { constructor; [discriminate |]. apply Forall_app. split.
    - apply string_body_nonzero; exact Hok.
    - constructor; [discriminate | constructor]. }
  unfold cJSON_Parse. rewrite (strlen_c_string _ rest Hnz). cbn [bind].
  unfold cJSON_ParseWithLength.
  destruct (Nat.eqb_spec (List.length (QUOTE :: string_body pieces ++ [QUOTE])) 0)
    as [H0 | _]; [discriminate |].
  destruct (New_Item_granted _ (grants_all_set_error None w Hw)) as (w1 & -> & Hw1).
  rewrite (parse_value_dispatch fuel zero_item _ w1 QUOTE
             (string_body pieces ++ [QUOTE]) (NUL :: rest)).
  - rewrite Z.eqb_refl.
    rewrite (parse_string_pieces pieces zero_item _ w1 (NUL :: rest) Hok).
    + cbn [bind Z.eqb]. eexists. reflexivity.
    + unfold buffer_at_offset. cbn [offset content skipn app].
      rewrite <- app_assoc. reflexivity.
    + apply Hw1.
  - split; [reflexivity | cbn [offset length]; lia].
  - unfold QUOTE. lia.
  - discriminate.
  - discriminate.
  - discriminate.
Qed.

Lemma forallb_piece_ok_app :
  forall before p after,
    forallb piece_ok (before ++ p :: after) = true ->
    forallb piece_ok before = true /\ piece_ok p = true /\
    forallb piece_ok after = true.
Proof.
  intros before p after H. rewrite forallb_app in H.
  apply andb_true_iff in H as [Hb H]. cbn [forallb] in H.
  apply andb_true_iff in H as [Hp Ha]. auto.
Qed.

Lemma string_body_app :
  forall before p after,
    string_body (before ++ p :: after)
    = string_body before ++ piece_text p ++ string_body after.
Proof.
  intros before p after. unfold string_body. rewrite flat_map_app. reflexivity.
Qed.

Lemma decoded_app :
  forall before p after,
    decoded (before ++ p :: after) = decoded before ++ piece_value p :: decoded after.
Proof. intros before p after. unfold decoded. rewrite map_app. reflexivity. Qed.

(** C6: wherever a backslash-u escape stands in a string, after and
    before any other pieces of the string, further backslash-u escapes
    among them, [parse_string] stores one question mark, the placeholder,
    for it and steps over the four bytes behind it, between the bytes it
    stores for the pieces before and after; the cursor ends behind the
    closing quote.  [cJSON_Parse] of such a text returns a String node of
    that value.  The text made of the escape of U+0041 parses to the
    one-character string of the placeholder, not to the letter A. *)
Theorem C6_unicode_escape_placeholder :
  (forall before h1 h2 h3 h4 after,
      forallb piece_ok (before ++ unicode_escape h1 h2 h3 h4 :: after) = true ->
      let text := QUOTE :: (string_body before
                            ++ [BACKSLASH; CH_u; h1; h2; h3; h4]
                            ++ string_body after) ++ [QUOTE] in
      let value := decoded before ++ QUESTION :: decoded after in
      (forall item b w rest,
          buffer_at_offset b = text ++ rest -> next_granted w ->
          exists w1,
            parse_string item b w
            = Ret (1, set_valuestring (Some value) (set_type cJSON_String item),
                   advance (List.length text) b, w1)) /\
      (forall fuel rest w,
          grants_all w ->
          exists item w',
            cJSON_Parse (S fuel) (Some (text ++ NUL :: rest)) w = Ret (Some item, w') /\
            kind item = cJSON_String /\ valuestring item = Some value)) /\
  (forall n, exists item w,
      cJSON_Parse (1 + n) (Some (c_string escaped_A_text)) initial_world
      = Ret (Some item, w) /\
      kind item = cJSON_String /\
      valuestring item = Some [QUESTION] /\
      valuestring item <> Some (bytes_of_string "A")).
Proof.
  split.
  - intros before h1 h2 h3 h4 after Hok text value. subst text value.
    change [BACKSLASH; CH_u; h1; h2; h3; h4]
      with (piece_text (unicode_escape h1 h2 h3 h4)).
    change QUESTION with (piece_value (unicode_escape h1 h2 h3 h4)).
    rewrite <- string_body_app, <- decoded_app.
    split.
    + intros item b w rest Hb Hw. eexists.
      apply (parse_string_pieces _ item b w rest Hok); [| exact Hw].
      rewrite Hb. cbn [app]. rewrite <- app_assoc. reflexivity.
    + intros fuel rest w Hw.
      destruct (Parse_string_pieces _ fuel rest w Hok Hw) as [w' Hp].
      do 2 eexists. split; [exact Hp |]. split; reflexivity.
  - intros n. do 2 eexists. split; [vm_compute; reflexivity |].
    vm_compute. repeat split. discriminate.
Qed.

Lemma C6_unicode_escape_placeholder_witness :
  forallb piece_ok (escapes_before ++ unicode_escape 48 48 52 49 :: escapes_after) = true /\
  grants_all initial_world /\
  exists item w',
    cJSON_Parse 1 (Some ((QUOTE :: (string_body escapes_before
                                    ++ [BACKSLASH; CH_u; 48; 48; 52; 49]
                                    ++ string_body escapes_after) ++ [QUOTE])
                         ++ [NUL])) initial_world
    = Ret (Some item, w') /\
    kind item = cJSON_String /\
    valuestring item = Some [97; QUESTION; LF; QUESTION].
Proof.
  assert (Hok : forallb piece_ok
                  (escapes_before ++ unicode_escape 48 48 52 49 :: escapes_after) = true)
    by reflexivity.
  assert (Hg : grants_all initial_world) by (intros n; reflexivity).
  split; [exact Hok |]. split; [exact Hg |].
  exact (proj2 (proj1 C6_unicode_escape_placeholder
                      escapes_before 48 48 52 49 escapes_after Hok)
               0%nat [] initial_world Hg).
Defined.

(** * Further properties of the library *)

(** ** Array access *)

(** X1: [cJSON_GetArrayItem] returns a node exactly for the indices from 0 to
    the size of the array, excluded; a null array has size 0 and no
    items. *)
Theorem GetArrayItem_in_bounds :
  forall array index,
    (exists item, cJSON_GetArrayItem array index = Some item) <->
    0 <= index < cJSON_GetArraySize array.
Proof.
  intros [a |] index; unfold cJSON_GetArrayItem, cJSON_GetArraySize.
  - destruct (Z.ltb_spec index 0) as [Hneg | Hpos].
    + split; [intros [item [=]] | lia].
    + split.
      * intros [item Hitem].
        assert (Hlt : (Z.to_nat index < List.length (child a))%nat)
          by (apply nth_error_Some; congruence).
        lia.
      * intros [_ Hlt].
        destruct (nth_error (child a) (Z.to_nat index)) as [item |] eqn:Hn;
          [exists item; reflexivity |].
        apply nth_error_None in Hn. lia.
  - split; [intros [item [=]] | lia].
Qed.

(** X2: [cJSON_AddItemToArray] on an array and a detached item succeeds and
    appends: the size grows by one, the item is the last one, and the
    items before it are the former ones in their former order. *)
Theorem AddItemToArray_appends :
  forall a i,
    exists a1,
      cJSON_AddItemToArray (Some a) (Some i) = (1, Some a1) /\
      cJSON_GetArraySize (Some a1) = cJSON_GetArraySize (Some a) + 1 /\
      cJSON_GetArrayItem (Some a1) (cJSON_GetArraySize (Some a)) = Some i /\
      (forall index, index < cJSON_GetArraySize (Some a) ->
                     cJSON_GetArrayItem (Some a1) index
                     = cJSON_GetArrayItem (Some a) index) /\
      type a1 = type a /\ valuestring a1 = valuestring a /\ string a1 = string a.
Proof.
  intros a i. eexists. split; [reflexivity |].
  unfold cJSON_GetArraySize, cJSON_GetArrayItem. cbn [child set_child].
  rewrite length_app. cbn [List.length].
  repeat split.
  - lia.
  - destruct (Z.ltb_spec (Z.of_nat (List.length (child a))) 0); [lia |].
    rewrite Nat2Z.id, nth_error_app2, Nat.sub_diag by lia. reflexivity.
  - intros index Hlt. destruct (Z.ltb_spec index 0); [reflexivity |].
    apply nth_error_app1. lia.
Qed.

(** ** Heap accounting *)

Lemma live_log : forall ev w, live (log_event ev w) = event_delta ev + live w.
Proof. reflexivity. Qed.

Lemma accounted_refl : forall w, accounted w w 0.
Proof.
  intros w. repeat split; [lia |]. exists []. split; [reflexivity | constructor].
Qed.

Lemma accounted_trans :
  forall w w1 w2 n m,
    accounted w w1 n -> accounted w1 w2 m -> accounted w w2 (n + m).
Proof.
  intros w w1 w2 n m (Hm1 & Hf1 & Hg1 & Hl1 & evs1 & Ht1 & He1)
         (Hm2 & Hf2 & Hg2 & Hl2 & evs2 & Ht2 & He2).
  repeat split; try congruence; [lia |].
  exists (evs2 ++ evs1). split.
  - rewrite Ht2, Ht1. apply app_assoc.
  - apply Forall_app. split; [| exact He1].
    rewrite Hm1, Hf1 in He2. exact He2.
Qed.

Lemma accounted_eq :
  forall w w' n m, accounted w w' n -> n = m -> accounted w w' m.
Proof. intros w w' n m H <-. exact H. Qed.

Lemma accounted_set_error : forall e w, accounted w (set_error e w) 0.
Proof.
  intros e w. repeat split; [unfold live, set_error; cbn [heap_trace]; lia |].
  exists []. split; [reflexivity | constructor].
Qed.

Lemma accounted_malloc :
  forall size w ok w1,
    call_malloc (global_malloc w) size w = (ok, w1) ->
    accounted w w1 (if ok then 1 else 0).
Proof.
  intros size w ok w1 [= <- <-]. repeat split.
  - rewrite live_log. cbn [event_delta]. destruct (heap_grants w _); lia.
  - eexists [_]. split; [reflexivity |]. repeat constructor.
Qed.

Lemma accounted_free : forall w, accounted w (call_free (global_free w) w) (-1).
Proof.
  intros w. repeat split.
  - unfold call_free. rewrite live_log. cbn [event_delta]. lia.
  - eexists [_]. split; [reflexivity |]. repeat constructor.
Qed.

Lemma accounted_grants :
  forall w w' n, accounted w w' n -> grants_all w -> grants_all w'.
Proof. intros w w' n (_ & _ & Hg & _) H k. rewrite Hg. apply H. Qed.

(** The world after [k] calls of the installed release function. *)
Lemma delete_node_world :
  forall i w,
    delete_node i w
    = mk_world (global_malloc w) (global_free w) (global_error w) (heap_grants w)
               (repeat (ev_free (global_free w)) (blocks i) ++ heap_trace w).
Proof.
  induction i as [i IH] using cJSON_tree_ind. intros w.
  assert (Hchain : forall w0,
             fold_left (fun w' c => delete_node c w') (child i) w0
             = mk_world (global_malloc w0) (global_free w0) (global_error w0)
                        (heap_grants w0)
                        (repeat (ev_free (global_free w0))
                                (fold_right (fun c n => blocks c + n)%nat O (child i))
                           ++ heap_trace w0)).
  { induction IH as [| c l Hc _ IHl]; intros w0; cbn [fold_left fold_right].
    - destruct w0; reflexivity.
    - rewrite Hc, IHl. cbn. f_equal.
      rewrite app_assoc, <- repeat_app. f_equal. f_equal. lia. }
  destruct i as [c ty vs vi vd s].
  cbn [delete_node blocks child valuestring string] in *.
  set (fl := fold_right _ _ _) in *.
  rewrite Hchain.
  destruct (has_flag cJSON_IsReference _), vs, s;
    try destruct (has_flag cJSON_StringIsConst _);
    cbn; unfold call_free, log_event; cbn; f_equal;
    rewrite ?Nat.add_0_r, ?Nat.add_1_r; reflexivity.
Qed.

Lemma Delete_world :
  forall chain w,
    cJSON_Delete chain w
    = mk_world (global_malloc w) (global_free w) (global_error w) (heap_grants w)
               (repeat (ev_free (global_free w)) (chain_blocks chain) ++ heap_trace w).
Proof.
  unfold cJSON_Delete, chain_blocks.
  induction chain as [| c l IH]; intros w; cbn [fold_left fold_right].
  - destruct w; reflexivity.
  - rewrite delete_node_world, IH. cbn. f_equal.
    rewrite app_assoc, <- repeat_app. f_equal. f_equal. lia.
Qed.

Lemma held_frees :
  forall f n trace, held (repeat (ev_free f) n ++ trace) = held trace - Z.of_nat n.
Proof.
  intros f n trace. induction n as [| n IH].
  - cbn [repeat app]. lia.
  - cbn [repeat app held fold_right event_delta]. fold (held (repeat (ev_free f) n ++ trace)).
    rewrite IH. lia.
Qed.

Lemma accounted_Delete :
  forall chain w, accounted w (cJSON_Delete chain w) (- Z.of_nat (chain_blocks chain)).
Proof.
  intros chain w. rewrite Delete_world. repeat split.
  - unfold live. cbn [heap_trace]. rewrite held_frees. lia.
  - eexists. split; [reflexivity |]. cbn [global_malloc global_free].
    apply Forall_forall. intros ev Hin. apply repeat_spec in Hin. subst ev. reflexivity.
Qed.

(** X3: [cJSON_Delete] makes no allocation and leaves the installed pair, the
    error slot and the heap's answers as they are; it calls the release
    function installed at the time of the call once for every block the
    chain owns: each node, each string value and each key that is not
    constant, the children and string of a reference node excepted. *)
Theorem Delete_releases_owned_blocks :
  forall chain w,
    heap_trace (cJSON_Delete chain w)
    = repeat (ev_free (global_free w)) (chain_blocks chain) ++ heap_trace w /\
    global_malloc (cJSON_Delete chain w) = global_malloc w /\
    global_free (cJSON_Delete chain w) = global_free w /\
    global_error (cJSON_Delete chain w) = global_error w /\
    heap_grants (cJSON_Delete chain w) = heap_grants w /\
    live (cJSON_Delete chain w) = live w - Z.of_nat (chain_blocks chain).
Proof.
  intros chain w. rewrite Delete_world. cbn. repeat split.
  unfold live. cbn [heap_trace]. apply held_frees.
Qed.

(** ** Whitespace *)

Lemma peek_skipn :
  forall (mem : list byte) o, (o < List.length mem)%nat ->
    peek (skipn o mem) = Ret (nth o mem 0).
Proof.
  induction mem as [| x mem IH]; intros o Ho; cbn [List.length] in Ho; [lia |].
  destruct o as [| o]; [reflexivity |].
  cbn [skipn nth]. apply IH. lia.
Qed.

Lemma skip_whitespace_loop_spec :
  forall n b,
    (offset b + n <= length b)%nat ->
    (length b <= List.length (content b))%nat ->
    exists b',
      skip_whitespace_loop n b = Ret b' /\
      content b' = content b /\ length b' = length b /\
      (offset b <= offset b' <= offset b + n)%nat /\
      (forall k, (offset b <= k < offset b')%nat -> nth k (content b) 0 <= 32) /\
      ((offset b' < offset b + n)%nat -> 32 < nth (offset b') (content b) 0).
Proof.
  induction n as [| n IH]; intros b Hn Hmem; cbn [skip_whitespace_loop].
  - exists b. repeat split; intros; lia.
  - unfold can_access_at_index. rewrite Nat.add_0_r.
    destruct (Nat.ltb_spec (offset b) (length b)) as [Hlt | Hge]; [| lia].
    unfold buffer_at_offset. rewrite peek_skipn by lia. cbn [bind].
    destruct (Z.leb_spec (nth (offset b) (content b) 0) 32) as [Hws | Hnws].
    + destruct (IH (advance 1 b)) as (b' & Hrun & Hc & Hl & Ho & Hbelow & Hstop);
        cbn [advance set_offset offset length content] in *; try lia.
      exists b'. repeat split; try assumption; try lia.
      intros k Hk. destruct (Nat.eq_dec k (offset b)) as [-> | Hne]; [exact Hws |].
      apply Hbelow. lia.
    + exists b. repeat split; intros; lia.
Qed.

(** X4: [skip_whitespace] reads below the length of the buffer only: it
    returns as soon as the memory holds that many bytes.  The cursor it
    leaves is within the length; from a cursor within the length it moves
    forward over bytes that are at most 32 and stops at the length or at
    the first byte above 32. *)
Theorem skip_whitespace_within_length :
  forall b,
    (length b <= List.length (content b))%nat ->
    exists b',
      skip_whitespace b = Ret b' /\
      content b' = content b /\ length b' = length b /\
      (offset b' <= length b)%nat /\
      ((offset b <= length b)%nat ->
       (offset b <= offset b')%nat /\
       (forall k, (offset b <= k < offset b')%nat -> nth k (content b) 0 <= 32) /\
       ((offset b' < length b)%nat -> 32 < nth (offset b') (content b) 0)).
Proof.
  intros b Hmem. unfold skip_whitespace.
  destruct (Nat.le_gt_cases (offset b) (length b)) as [Hin | Hout].
  - destruct (skip_whitespace_loop_spec (length b - offset b) b)
      as (b1 & Hrun & Hc & Hl & Ho & Hbelow & Hstop); try lia.
    rewrite Hrun. cbn [bind]. eexists. split; [reflexivity |].
    destruct (Nat.leb_spec (length b1) (offset b1)) as [Hend | Hmid];
      cbn [set_offset content length offset]; repeat split; try lia; try assumption;
      try (intros k Hk; apply Hbelow; lia); try (intros Hlt; apply Hstop; lia).
  - replace (length b - offset b)%nat with O by lia. cbn [skip_whitespace_loop bind].
    eexists. split; [reflexivity |].
    destruct (Nat.leb_spec (length b) (offset b)) as [_ | Hbad]; [| lia].
    cbn [set_offset content length offset]. repeat split; lia.
Qed.

Lemma skip_whitespace_within_length_witness :
  (length spaced_buffer <= List.length (content spaced_buffer))%nat /\
  exists b',
    skip_whitespace spaced_buffer = Ret b' /\
    content b' = content spaced_buffer /\ length b' = length spaced_buffer /\
    (offset b' <= length spaced_buffer)%nat /\
    ((offset spaced_buffer <= length spaced_buffer)%nat ->
     (offset spaced_buffer <= offset b')%nat /\
     (forall k, (offset spaced_buffer <= k < offset b')%nat ->
                nth k (content spaced_buffer) 0 <= 32) /\
     ((offset b' < length spaced_buffer)%nat ->
      32 < nth (offset b') (content spaced_buffer) 0)).
Proof.
  split; [cbn; lia | apply (skip_whitespace_within_length spaced_buffer); cbn; lia].
Defined.

Lemma skip_whitespace_loop_mono :
  forall n b b',
    skip_whitespace_loop n b = Ret b' ->
    content b' = content b /\ length b' = length b /\ (offset b <= offset b')%nat /\
    ((offset b <= length b)%nat -> (offset b' <= length b)%nat).
Proof.
  induction n as [| n IH]; intros b b' H; cbn [skip_whitespace_loop] in H.
  - injection H as <-. repeat split; lia.
  - unfold can_access_at_index in H. rewrite Nat.add_0_r in H.
    destruct (Nat.ltb_spec (offset b) (length b)) as [Hlt | Hge].
    + destruct (peek (buffer_at_offset b)) as [c | |]; cbn [bind] in H; try discriminate.
      destruct (c <=? 32).
      * apply IH in H. cbn [advance set_offset offset length content] in H.
        destruct H as (Hc & Hl & Ho & Hin). repeat split; try assumption; lia.
      * injection H as <-. repeat split; lia.
    + injection H as <-. repeat split; lia.
Qed.
(** ** What every parsing step keeps *)

Ltac run_hyp H :=
  repeat match type of H with
         | bind ?m _ = _ => destruct m as [? | |] eqn:?; cbn [bind] in H; try discriminate
         | (if ?c then _ else _) = _ => destruct c eqn:?
         | (let '(_, _) := ?x in _) = _ => destruct x eqn:?
         | match ?x with _ => _ end = _ => destruct x eqn:?
         end.

Lemma skip_whitespace_mono :
  forall b b',
    skip_whitespace b = Ret b' ->
    content b' = content b /\ length b' = length b /\
    (room b' <= room b)%nat /\ (offset b' <= length b)%nat.
Proof.
  intros b b' H. unfold skip_whitespace in H.
  destruct (skip_whitespace_loop _ b) as [b1 | |] eqn:Hloop; cbn [bind] in H;
    try discriminate.
  apply skip_whitespace_loop_mono in Hloop. destruct Hloop as (Hc & Hl & Ho & Hin).
  injection H as <-. unfold room.
  destruct (Nat.leb_spec (length b1) (offset b1));
    cbn [set_offset content length offset]; repeat split; try assumption; lia.
Qed.

Lemma loop_condition_mono :
  forall b again b',
    loop_condition b = Ret (again, b') ->
    content b' = content b /\ length b' = length b /\ (room b' <= room b)%nat /\
    (again = true -> (room b' < room b)%nat).
Proof.
  intros b again b' H. unfold loop_condition, can_access_at_index in H.
  rewrite Nat.add_0_r in H. unfold room.
  destruct (Nat.ltb_spec (offset b) (length b)).
  - run_hyp H; injection H as <- <-; cbn [advance set_offset content length offset];
      repeat split; try lia; discriminate.
  - injection H as <- <-. repeat split; try lia; discriminate.
Qed.

Lemma scan_string_steps :
  forall input stepped len closed stepped' len',
    scan_string input stepped len = Ret (closed, stepped', len') ->
    (stepped <= stepped')%nat.
Proof.
  fix IH 1. intros [| c r] stepped len closed stepped' len' H; cbn [scan_string] in H;
    [discriminate |].
  destruct (c =? QUOTE); [injection H as _ <- _; lia |].
  destruct (c =? NUL); [injection H as _ <- _; lia |].
  destruct (c =? BACKSLASH).
  - destruct r as [| e r']; [discriminate |]. apply IH in H. lia.
  - apply IH in H. lia.
Qed.

Lemma fresh_fields :
  forall item, fresh item ->
    item = mk_cJSON [] 0 None (valueint item) (valuedouble item) (string item).
Proof. intros [c ty vs vi vd s] (Ht & Hv & Hc). cbn in *. subst. reflexivity. Qed.

Ltac malloc_case :=
  match goal with
  | Hm : call_malloc _ _ _ = (?ok, _), Hn : negb ?ok = _ |- _ =>
      destruct ok; try discriminate
  end.

Ltac post_split := split; [| split; [| split; [| split; [| split]]]].

Lemma refused_not_granted :
  forall via size w w1, call_malloc via size w = (false, w1) -> grants_all w -> False.
Proof.
  intros via size w w1 [= Hg _] Hall. rewrite Hall in Hg. discriminate.
Qed.

Lemma parse_string_step :
  forall item b w ok item' b' w',
    fresh item ->
    parse_string item b w = Ret (ok, item', b', w') ->
    content b' = content b /\ length b' = length b /\ (offset b <= offset b')%nat /\
    accounted w w' (Z.of_nat (blocks item') - Z.of_nat (blocks item)) /\
    (ok = 0 -> grants_all w -> global_error w' <> None) /\
    (ok <> 0 -> (offset b < offset b')%nat /\
                exists s, item' = set_valuestring (Some s) (set_type cJSON_String item)).
Proof.
  intros item b w ok item' b' w' Hfresh H. unfold parse_string in H.
  rewrite (fresh_fields item Hfresh) in *. clear Hfresh.
  run_hyp H; try discriminate; injection H as <- <- <- <-;
    cbn [advance set_offset content length offset];
    post_split; try reflexivity; try lia; try (intros; discriminate); try congruence.
  - eapply accounted_eq; [apply accounted_set_error | lia].
  - eapply accounted_eq; [apply accounted_set_error | lia].
  - malloc_case.
    eapply accounted_eq; [eapply accounted_malloc; eassumption | lia].
  - malloc_case. intros _ Hall. exfalso.
    eapply refused_not_granted; eassumption.
  - malloc_case.
    eapply accounted_eq; [eapply accounted_malloc; eassumption |].
    destruct (string item); cbn; lia.
  - intros _. split; [lia |]. eexists. reflexivity.
Qed.

Lemma parse_number_step :
  forall item b w ok item' b' w',
    fresh item ->
    parse_number item b w = Ret (ok, item', b', w') ->
    content b' = content b /\ length b' = length b /\ (offset b <= offset b')%nat /\
    accounted w w' (Z.of_nat (blocks item') - Z.of_nat (blocks item)) /\
    (ok = 0 -> grants_all w -> global_error w' <> None) /\
    (ok <> 0 -> (offset b < offset b')%nat /\
                well_formed item' /\ string item' = string item /\
                type item' = kind item').
Proof.
  intros item b w ok item' b' w' Hfresh H. unfold parse_number in H.
  rewrite (fresh_fields item Hfresh) in *. clear Hfresh.
  run_hyp H; try discriminate; injection H as <- <- <- <-;
    cbn [advance set_offset content length offset];
    post_split; try reflexivity; try lia; try (intros; discriminate); try congruence.
  - eapply accounted_eq; [apply accounted_set_error | lia].
  - eapply accounted_eq; [apply accounted_refl |]. destruct (string item); cbn; lia.
  - intros _. apply Nat.eqb_neq in Heqb0. split; [lia |].
    split; [| split; reflexivity]. apply wf_number; reflexivity.
Qed.

Ltac post_step :=
  match goal with
  | |- value_post _ _ _ (bind ?m _) =>
      destruct m as [? | |] eqn:?; cbn [bind]; [| exact I | exact I]
  | |- value_post _ _ _ (if ?c then _ else _) => destruct c eqn:?
  | |- value_post _ _ _ (let '(_, _) := ?x in _) => destruct x eqn:?
  | |- value_post _ _ _ (match ?x with _ => _ end) => destruct x eqn:?
  | |- value_post _ _ _ Undefined => exact I
  | |- value_post _ _ _ OutOfFuel => exact I
  | |- loop_post _ _ _ _ (bind ?m _) =>
      destruct m as [? | |] eqn:?; cbn [bind]; [| exact I | exact I]
  | |- loop_post _ _ _ _ (if ?c then _ else _) => destruct c eqn:?
  | |- loop_post _ _ _ _ (let '(_, _) := ?x in _) => destruct x eqn:?
  | |- loop_post _ _ _ _ (match ?x with _ => _ end) => destruct x eqn:?
  | |- loop_post _ _ _ _ Undefined => exact I
  | |- loop_post _ _ _ _ OutOfFuel => exact I
  end.

(** Turns the equations of the steps run so far into what they keep. *)
Ltac use_steps :=
  repeat match goal with
         | H : skip_whitespace _ = Ret _ |- _ =>
             apply skip_whitespace_mono in H; destruct H as (? & ? & ? & ?)
         | H : loop_condition _ = Ret _ |- _ =>
             apply loop_condition_mono in H; destruct H as (? & ? & ? & ?)
         | H : (_ =? _) = true |- _ => apply Z.eqb_eq in H
         | H : (_ =? _) = false |- _ => apply Z.eqb_neq in H
         end.

Lemma string_value_post :
  forall item b w,
    fresh item -> (offset b < length b)%nat ->
    value_post item b w (parse_string item b w).
Proof.
  intros item b w Hfresh Hin.
  destruct (parse_string item b w) as [[[[ok item'] b'] w'] | |] eqn:H; try exact I.
  apply parse_string_step in H; [| exact Hfresh].
  destruct H as (Hc & Hl & Ho & Hacc & Herr & Hok).
  cbn [value_post]. unfold room. post_split; try assumption; try lia.
  intros Hne. destruct (Hok Hne) as (Hlt & s & ->).
  rewrite (fresh_fields item Hfresh).
  split; [apply (wf_string _ s); reflexivity |].
  split; [reflexivity | split; [lia | reflexivity]].
Qed.

Lemma number_value_post :
  forall item b w,
    fresh item -> (offset b < length b)%nat ->
    value_post item b w (parse_number item b w).
Proof.
  intros item b w Hfresh Hin.
  destruct (parse_number item b w) as [[[[ok item'] b'] w'] | |] eqn:H; try exact I.
  apply parse_number_step in H; [| exact Hfresh].
  destruct H as (Hc & Hl & Ho & Hacc & Herr & Hok).
  cbn [value_post]. unfold room. post_split; try assumption; try lia.
  intros Hne. destruct (Hok Hne) as (Hlt & Hwf & Hs & Hty).
  split; [exact Hwf |]. split; [exact Hs | split; [lia | exact Hty]].
Qed.

Lemma member_ok_parts :
  forall keyed head,
    Forall (member_ok keyed) head ->
    Forall well_formed head /\
    Forall (fun c => if keyed then exists k, string c = Some k else string c = None) head.
Proof.
  intros keyed head H. induction H as [| c l [Hw Hk] _ [IH1 IH2]]; split; constructor; assumption.
Qed.

Lemma Delete_error :
  forall chain w, global_error (cJSON_Delete chain w) = global_error w.
Proof. intros chain w. rewrite Delete_world. reflexivity. Qed.

Lemma parse_bracketed_post :
  forall opening closing tag keyed e1 e2 loop,
    (tag = cJSON_Array /\ keyed = false) \/ (tag = cJSON_Object /\ keyed = true) ->
    (forall head b w, loop_post keyed head b w (loop head b w)) ->
    forall item b w,
      fresh item -> (offset b < length b)%nat ->
      value_post item b w (parse_bracketed opening closing tag e1 e2 loop item b w).
Proof.
  intros opening closing tag keyed e1 e2 loop Htag Hloop item b w Hfresh Hin.
  unfold parse_bracketed.
  rewrite (fresh_fields item Hfresh) in *. clear Hfresh.
  repeat post_step.
  all: try match goal with
           | H : _ ?h ?b ?w = Ret (_, _, _, _) |- _ =>
               let Hk := fresh "Hk" in
               pose proof (Hloop h b w) as Hk; rewrite H in Hk; cbn [loop_post] in Hk;
               destruct Hk as (? & ? & ? & Hacc & Herr & Hmem)
           end.
  all: use_steps.
  all: cbn [value_post advance set_offset content length offset] in *; unfold room in *;
    cbn [advance set_offset content length offset] in *.
  - post_split; try reflexivity; try lia.
    + eapply accounted_eq; [apply accounted_set_error | lia].
    + intros _ _. cbn. discriminate.
  - post_split; try congruence; try lia.
    + eapply accounted_eq; [apply accounted_refl |].
      destruct Htag as [[-> _] | [-> _]]; destruct (string item); cbn; lia.
    + intros _.
      split; [| split; [reflexivity
                       | split; [lia | destruct Htag as [[-> _] | [-> _]]; reflexivity]]].
      destruct Htag as [[-> _] | [-> _]];
        [apply wf_array | apply wf_object]; try reflexivity; constructor.
  - post_split; try congruence; try lia.
    + eapply accounted_eq;
        [eapply accounted_trans; [exact Hacc | apply accounted_Delete] |].
      cbn [chain_blocks fold_right]. lia.
    + intros _ Hall. rewrite Delete_error. apply Herr; [assumption | exact Hall].
  - post_split; try congruence; try lia.
    + eapply accounted_eq;
        [eapply accounted_trans;
         [exact Hacc
         | eapply accounted_trans; [apply accounted_set_error | apply accounted_Delete]] |].
      cbn [chain_blocks fold_right]. lia.
    + intros _ _. rewrite Delete_error. cbn. discriminate.
  - post_split; try congruence; try lia.
    + eapply accounted_eq; [exact Hacc |].
      unfold chain_blocks.
      destruct Htag as [[-> _] | [-> _]]; destruct (string item);
        cbn -[Z.of_nat Z.sub]; lia.
    + intros _.
      split; [| split; [reflexivity
                       | split; [lia | destruct Htag as [[-> _] | [-> _]]; reflexivity]]].
      assert (Hhead : Forall (member_ok keyed) l) by (apply Hmem; [assumption | constructor]).
      apply member_ok_parts in Hhead. destruct Hhead as [Hwf Hkeys].
      destruct Htag as [[-> ->] | [-> ->]];
        [apply wf_array | apply wf_object]; try reflexivity; assumption.
Qed.

Lemma value_post_skip :
  forall item b b1 w r,
    content b1 = content b -> length b1 = length b -> (room b1 <= room b)%nat ->
    value_post item b1 w r -> value_post item b w r.
Proof.
  intros item b b1 w [[[[ok item'] b'] w'] | |] Hc Hl Hr H; try exact I.
  cbn [value_post] in *. destruct H as (? & ? & ? & ? & ? & Hok).
  post_split; try congruence; try lia; try assumption.
  intros Hne. destruct (Hok Hne) as (? & ? & ? & ?). repeat split; try assumption; lia.
Qed.

Lemma loop_post_after :
  forall keyed head head1 b b1 w w1 r,
    content b1 = content b -> length b1 = length b -> (room b1 <= room b)%nat ->
    accounted w w1 (Z.of_nat (chain_blocks head1) - Z.of_nat (chain_blocks head)) ->
    (Forall (member_ok keyed) head -> Forall (member_ok keyed) head1) ->
    loop_post keyed head1 b1 w1 r -> loop_post keyed head b w r.
Proof.
  intros keyed head head1 b b1 w w1 [[[[ok head'] b'] w'] | |] Hc Hl Hr Hacc Hmem H;
    try exact I.
  cbn [loop_post] in *. destruct H as (? & ? & ? & Hacc' & Herr & Hok).
  post_split; try congruence; try lia.
  - eapply accounted_eq; [eapply accounted_trans; [exact Hacc | exact Hacc'] | lia].
  - intros Hz Hall. apply Herr; [exact Hz |]. eapply accounted_grants; eassumption.
  - intros Hne Hhead. apply Hok; auto.
Qed.

Lemma accounted_log_malloc :
  forall size ok w,
    accounted w (log_event (ev_malloc (global_malloc w) size ok) w) (if ok then 1 else 0).
Proof.
  intros size ok w. repeat split.
  - rewrite live_log. cbn [event_delta]. destruct ok; lia.
  - eexists [_]. split; [reflexivity |]. repeat constructor.
Qed.

Lemma fresh_zero : forall key, fresh (set_string key zero_item).
Proof. intros key. repeat split. Qed.

Lemma chain_blocks_app :
  forall head c, chain_blocks (head ++ [c]) = (chain_blocks head + blocks c)%nat.
Proof.
  intros head c. unfold chain_blocks. induction head as [| x l IH]; cbn [app fold_right].
  - lia.
  - rewrite IH. lia.
Qed.

Lemma member_ok_app :
  forall keyed head c,
    member_ok keyed c -> Forall (member_ok keyed) head ->
    Forall (member_ok keyed) (head ++ [c]).
Proof.
  intros keyed head c Hc Hhead. apply Forall_app. split; [exact Hhead |].
  constructor; [exact Hc | constructor].
Qed.

Lemma parse_post :
  forall fuel,
    (forall item b w, fresh item -> value_post item b w (parse_value fuel item b w)) /\
    (forall head b w, loop_post false head b w (parse_array_loop fuel head b w)) /\
    (forall head b w, loop_post true head b w (parse_object_loop fuel head b w)).
Proof.
  induction fuel as [| fuel (IHv & IHa & IHo)].
  - repeat split; intros; exact I.
  - split; [| split].
    + intros item b w Hfresh. cbn [parse_value].
      repeat post_step.
      all: match goal with
           | H : skip_whitespace _ = Ret _ |- _ =>
               apply skip_whitespace_mono in H; destruct H as (Hc & Hl & Hr & Hin)
           end.
      all: try match goal with
               | H : negb (can_access_at_index _ 0) = _ |- _ =>
                   unfold can_access_at_index in H; rewrite Nat.add_0_r in H;
                   first [apply negb_true_iff in H; apply Nat.ltb_ge in H
                         | apply negb_false_iff in H; apply Nat.ltb_lt in H]
               end.
      all: try (eapply value_post_skip; [exact Hc | exact Hl | exact Hr |]).
      all: try (apply string_value_post; assumption).
      all: try (apply number_value_post; assumption).
      all: try (eapply parse_bracketed_post; [left; split; reflexivity | exact IHa | assumption ..]).
      all: try (eapply parse_bracketed_post; [right; split; reflexivity | exact IHo | assumption ..]).
      all: rewrite (fresh_fields item Hfresh);
        cbn [value_post advance set_offset content length offset]; unfold room in *;
        cbn [advance set_offset content length offset] in *;
        post_split; try reflexivity; try lia; try (intros; congruence).
      all: try (eapply accounted_eq; [apply accounted_set_error | lia]).
      all: try (intros _ _; cbn; discriminate).
      all: try (eapply accounted_eq; [apply accounted_refl |];
                destruct (string item); cbn -[Z.of_nat Z.sub]; lia).
      all: intros _; split; [| split; [reflexivity | split; [lia | reflexivity]]].
      all: apply wf_literal; try reflexivity; auto.
    + intros head b w. cbn [parse_array_loop].
      post_step. unfold cJSON_New_Item, call_malloc.
      match goal with
      | H : skip_whitespace _ = Ret _ |- _ =>
          apply skip_whitespace_mono in H; destruct H as (Hc & Hl & Hr & Hin)
      end.
      pose proof (accounted_log_malloc sizeof_cJSON
                    (heap_grants w (List.length (heap_trace w))) w) as Hnew.
      destruct (heap_grants w _) eqn:Hg; cbn iota beta.
      2:{ cbn [loop_post]. post_split; try assumption; try (intros; congruence).
          eapply accounted_eq; [exact Hnew | lia]. }
      match goal with
      | |- loop_post _ _ _ _ (bind (parse_value _ ?i ?b1 ?w1) _) =>
          pose proof (IHv i b1 w1 (fresh_zero None)) as Hk;
          destruct (parse_value fuel i b1 w1) as [[[[ok ni1] b2] w2] | |];
          cbn [bind]; try exact I
      end.
      cbn [value_post] in Hk. destruct Hk as (Hc2 & Hl2 & Hr2 & Hacc & Herr & Hok).
      assert (Hacc2 : accounted w w2
                        (Z.of_nat (chain_blocks (head ++ [ni1]))
                         - Z.of_nat (chain_blocks head))).
      { eapply accounted_eq; [eapply accounted_trans; [exact Hnew | exact Hacc] |].
        rewrite chain_blocks_app. change (blocks zero_item) with 1%nat. lia. }
      destruct (Z.eqb_spec ok 0) as [Hz | Hnz].
      { cbn [loop_post]. post_split; try congruence; try lia; try assumption.
        intros _ Hall. apply Herr; [exact Hz |].
        eapply accounted_grants; [exact Hnew | exact Hall]. }
      destruct (Hok Hnz) as (Hwf & Hkey & Hlt & _).
      do 2 post_step. use_steps.
      match goal with
      | |- loop_post _ _ _ _ (let '(_, _) := ?x in _) => destruct x as [again b4] eqn:Hx
      end.
      match goal with
      | H : loop_condition _ = Ret _ |- _ =>
          apply loop_condition_mono in H; destruct H as (? & ? & ? & ?)
      end.
      destruct again.
      * eapply loop_post_after; [| | | exact Hacc2 | | apply IHa]; try congruence; try lia.
        intros Hhead. apply member_ok_app; [split; assumption | exact Hhead].
      * cbn [loop_post]. post_split; try congruence; try lia; try assumption.
        intros _ Hhead. apply member_ok_app; [split; assumption | exact Hhead].
    + intros head b w. cbn [parse_object_loop].
      post_step. unfold cJSON_New_Item, call_malloc.
      match goal with
      | H : skip_whitespace _ = Ret _ |- _ =>
          apply skip_whitespace_mono in H; destruct H as (Hc & Hl & Hr & Hin)
      end.
      pose proof (accounted_log_malloc sizeof_cJSON
                    (heap_grants w (List.length (heap_trace w))) w) as Hnew.
      destruct (heap_grants w _) eqn:Hg; cbn iota beta.
      2:{ cbn [loop_post]. post_split; try assumption; try (intros; congruence).
          eapply accounted_eq; [exact Hnew | lia]. }
      match goal with
      | |- loop_post _ _ _ _ (bind (parse_string ?i ?b1 ?w1) _) =>
          destruct (parse_string i b1 w1) as [[[[ok ni1] b2] w2] | |] eqn:Hkey;
          cbn [bind]; try exact I
      end.
      apply parse_string_step in Hkey; [| apply (fresh_zero None)].
      destruct Hkey as (Hc2 & Hl2 & Ho2 & Hacc & Herr & Hok).
      change (blocks zero_item) with 1%nat in Hacc.
      assert (Hall1 : grants_all w -> grants_all w2).
      { intros Hall. eapply accounted_grants; [exact Hacc |].
        eapply accounted_grants; [exact Hnew | exact Hall]. }
      destruct (Z.eqb_spec ok 0) as [Hz | Hnz].
      { cbn [loop_post]. unfold room in *.
        post_split; try congruence; try lia.
        - eapply accounted_eq; [eapply accounted_trans; [exact Hnew | exact Hacc] |].
          rewrite chain_blocks_app. lia.
        - intros _ Hall. apply Herr; [exact Hz |].
          eapply accounted_grants; [exact Hnew | exact Hall]. }
      destruct (Hok Hnz) as (Hlt & s & ->). clear Hok.
      change (blocks (set_valuestring (Some s) (set_type cJSON_String zero_item)))
        with 2%nat in Hacc.
      assert (Hkeyacc : accounted w w2 2).
      { eapply accounted_eq; [eapply accounted_trans; [exact Hnew | exact Hacc] | lia]. }
      set (ni2 := set_type cJSON_Invalid _).
      assert (Hfresh2 : fresh ni2) by (repeat split).
      do 3 post_step.
      { use_steps. cbn [loop_post]. unfold room in *.
        post_split; try congruence; try lia.
        - eapply accounted_eq;
            [eapply accounted_trans; [exact Hkeyacc | apply accounted_set_error] |].
          rewrite chain_blocks_app. change (blocks ni2) with 2%nat. lia.
        - intros _ _. cbn. discriminate. }
      post_step.
      match goal with
      | |- loop_post _ _ _ _ (bind (parse_value _ ?i ?b4 ?w1) _) =>
          pose proof (IHv i b4 w1 Hfresh2) as Hk;
          destruct (parse_value fuel i b4 w1) as [[[[ok2 ni3] b5] w3] | |];
          cbn [bind]; try exact I
      end.
      cbn [value_post] in Hk. destruct Hk as (Hc5 & Hl5 & Hr5 & Hacc5 & Herr5 & Hok5).
      change (blocks ni2) with 2%nat in Hacc5.
      assert (Hacc3 : accounted w w3
                        (Z.of_nat (chain_blocks (head ++ [ni3]))
                         - Z.of_nat (chain_blocks head))).
      { eapply accounted_eq; [eapply accounted_trans; [exact Hkeyacc | exact Hacc5] |].
        rewrite chain_blocks_app. lia. }
      use_steps. unfold room in *. cbn [advance set_offset content length offset] in *.
      destruct (Z.eqb_spec ok2 0) as [Hz2 | Hnz2].
      { cbn [loop_post]. unfold room.
        post_split; try congruence; try lia; try assumption.
        intros _ Hall. apply Herr5; [exact Hz2 | exact (Hall1 Hall)]. }
      destruct (Hok5 Hnz2) as (Hwf & Hkey & Hlt5 & _).
      do 2 post_step. use_steps.
      match goal with
      | |- loop_post _ _ _ _ (let '(_, _) := ?x in _) => destruct x as [again b7] eqn:Hx
      end.
      match goal with
      | H : loop_condition _ = Ret _ |- _ =>
          apply loop_condition_mono in H; destruct H as (? & ? & ? & ?)
      end.
      unfold room in *.
      assert (Hmember : member_ok true ni3).
      { split; [exact Hwf |]. exists s. exact Hkey. }
      destruct again.
      * eapply loop_post_after; [| | | exact Hacc3 | | apply IHo];
          unfold room; try congruence; try lia.
        intros Hhead. apply member_ok_app; [exact Hmember | exact Hhead].
      * cbn [loop_post]. unfold room.
        post_split; try congruence; try lia; try assumption.
        intros _ Hhead. apply member_ok_app; [exact Hmember | exact Hhead].
Qed.

(** ** The public parse functions *)

(** The blocks a returned tree owns; nothing for a null tree. *)
Lemma ParseWithLength_post :
  forall fuel value len w r w',
    cJSON_ParseWithLength fuel value len w = Ret (r, w') ->
    accounted w w' (Z.of_nat (chain_blocks (chain_of r))) /\
    (r = None -> grants_all w -> global_error w' <> None) /\
    (forall t, r = Some t -> well_formed t /\ string t = None /\ type t = kind t).
Proof.
  intros fuel value len w r w' H. unfold cJSON_ParseWithLength in H.
  destruct value as [mem |].
  2:{ injection H as <- <-. split; [| split]; try (intros; discriminate).
      eapply accounted_eq;
        [eapply accounted_trans; apply accounted_set_error | reflexivity]. }
  destruct (len =? 0)%nat.
  { injection H as <- <-. split; [| split]; try (intros; discriminate).
    eapply accounted_eq;
      [eapply accounted_trans; apply accounted_set_error | reflexivity]. }
  unfold cJSON_New_Item, call_malloc in H.
  pose proof (accounted_set_error None w) as Hreset.
  pose proof (accounted_log_malloc sizeof_cJSON
                (heap_grants (set_error None w)
                             (List.length (heap_trace (set_error None w))))
                (set_error None w)) as Hnew.
  destruct (heap_grants (set_error None w) _) eqn:Hg; cbn iota beta in H.
  2:{ injection H as <- <-. split; [| split]; try (intros; discriminate).
      eapply accounted_eq;
        [eapply accounted_trans;
         [exact Hreset | eapply accounted_trans; [exact Hnew | apply accounted_set_error]]
        | reflexivity]. }
  match type of H with
  | bind (parse_value ?f ?i ?b ?w1) _ = _ =>
      pose proof (proj1 (parse_post f) i b w1 (fresh_zero None)) as Hk;
      destruct (parse_value f i b w1) as [[[[ok i1] b1] w2] | |];
      cbn [bind] in H; try discriminate
  end.
  cbn [value_post] in Hk. destruct Hk as (_ & _ & _ & Hacc & Herr & Hok).
  change (blocks zero_item) with 1%nat in Hacc.
  destruct (Z.eqb_spec ok 0) as [Hz | Hnz]; injection H as <- <-.
  - split; [| split]; try (intros; discriminate).
    + eapply accounted_eq;
        [eapply accounted_trans;
         [exact Hreset
         | eapply accounted_trans;
           [exact Hnew
           | eapply accounted_trans; [exact Hacc | apply (accounted_Delete [i1])]]] |].
      cbn [chain_of chain_blocks fold_right]. lia.
    + intros _ Hall. change (delete_node i1 w2) with (cJSON_Delete [i1] w2).
      rewrite Delete_error. apply Herr; [exact Hz |].
      eapply accounted_grants; [exact Hnew |].
      eapply accounted_grants; [exact Hreset | exact Hall].
  - split; [| split]; try (intros; discriminate).
    + eapply accounted_eq;
        [eapply accounted_trans;
         [exact Hreset | eapply accounted_trans; [exact Hnew | exact Hacc]] |].
      cbn [chain_of chain_blocks fold_right]. lia.
    + intros t [= <-]. destruct (Hok Hnz) as (Hwf & Hs & _ & Hty).
      split; [exact Hwf | split; [exact Hs | exact Hty]].
Qed.

Lemma Parse_post :
  forall fuel value w r w',
    cJSON_Parse fuel value w = Ret (r, w') ->
    exists len, cJSON_ParseWithLength fuel value len w = Ret (r, w').
Proof.
  intros fuel [mem |] w r w' H; cbn [cJSON_Parse] in H.
  - destruct (strlen mem) as [n | |]; cbn [bind] in H; try discriminate.
    exists n. exact H.
  - exists O. exact H.
Qed.

(** X5: Whatever the input and whatever the heap refuses, a parse that
    returns leaves as many more blocks held as the tree it returns owns:
    none when it returns null, every node built for the call having been
    released.  Deleting the returned tree releases the rest. *)
Theorem Parse_holds_the_tree_only :
  forall fuel value len w r w',
    cJSON_ParseWithLength fuel value len w = Ret (r, w')
    \/ cJSON_Parse fuel value w = Ret (r, w') ->
    live w' = live w + Z.of_nat (chain_blocks (chain_of r)) /\
    live (cJSON_Delete (chain_of r) w') = live w.
Proof.
  intros fuel value len w r w' H.
  assert (Hacc : accounted w w' (Z.of_nat (chain_blocks (chain_of r)))).
  { destruct H as [H | H].
    - apply (ParseWithLength_post _ _ _ _ _ _ H).
    - apply Parse_post in H. destruct H as [n H].
      apply (ParseWithLength_post _ _ _ _ _ _ H). }
  destruct Hacc as (_ & _ & _ & Hlive & _). split; [exact Hlive |].
  pose proof (accounted_Delete (chain_of r) w') as (_ & _ & _ & Hdel & _). lia.
Qed.

(** X6: Every heap call of a parse goes through the pair installed when it
    was called, and the parse leaves that pair installed. *)
Theorem Parse_through_installed_pair :
  forall fuel value len w r w',
    cJSON_ParseWithLength fuel value len w = Ret (r, w')
    \/ cJSON_Parse fuel value w = Ret (r, w') ->
    global_malloc w' = global_malloc w /\ global_free w' = global_free w /\
    exists evs,
      heap_trace w' = evs ++ heap_trace w /\
      Forall (through (global_malloc w) (global_free w)) evs.
Proof.
  intros fuel value len w r w' H.
  assert (Hacc : accounted w w' (Z.of_nat (chain_blocks (chain_of r)))).
  { destruct H as [H | H].
    - apply (ParseWithLength_post _ _ _ _ _ _ H).
    - apply Parse_post in H. destruct H as [n H].
      apply (ParseWithLength_post _ _ _ _ _ _ H). }
  destruct Hacc as (Hm & Hf & _ & _ & Hevs). repeat split; assumption.
Qed.

(** X7: On a heap that grants every request, the error slot tells how a
    parse ended: it is set when the parse returns null and empty when it
    returns a tree. *)
Theorem Parse_error_iff_null :
  forall fuel value len w r w',
    grants_all w ->
    cJSON_ParseWithLength fuel value len w = Ret (r, w') ->
    (r = None <-> cJSON_GetErrorPtr w' <> None).
Proof.
  intros fuel value len w r w' Hall H. unfold cJSON_GetErrorPtr. split.
  - intros Hnull. apply (ParseWithLength_post _ _ _ _ _ _ H); assumption.
  - intros Herr. destruct r as [t |]; [| reflexivity].
    apply ParseWithLength_error in H. congruence.
Qed.

(** X8: A tree returned by a parse is well formed: every node is of one of
    the seven JSON kinds (never Raw or Invalid), only strings hold a
    string value, only arrays and objects hold children, the members of
    an object all carry a key and the elements of an array none, and the
    integer view of a number is the conversion of its double.  The root
    has no key.  On a heap that grants every request such a tree always
    serializes. *)
Theorem Parse_returns_well_formed :
  forall fuel value len w t w',
    cJSON_ParseWithLength fuel value len w = Ret (Some t, w') ->
    well_formed t /\ string t = None /\
    forall w2, grants_all w2 ->
      fst (cJSON_PrintUnformatted (Some t) w2) = Some (render t).
Proof.
  intros fuel value len w t w' H.
  destruct (ParseWithLength_post _ _ _ _ _ _ H) as (_ & _ & Hshape).
  destruct (Hshape t eq_refl) as (Hwf & Hs & _). split; [exact Hwf |]. split; [exact Hs |].
  intros w2 Hall. unfold cJSON_PrintUnformatted, call_malloc.
  rewrite Hall. cbn [print_value].
  pose proof (print_item_render t Hwf (mk_printbuffer [] 256)
                (log_event (ev_malloc (global_malloc w2) 256 true) w2)
                (grants_all_log _ _ Hall)) as Hp.
  destruct (print_item t _ _) as [[ok p] w3]. destruct Hp as (-> & -> & _).
  reflexivity.
Qed.

(** ** Termination

    Only the three mutually recursive parsing functions can run out of
    fuel; everything they call returns or is undefined. *)

Lemma bind_no_fuel :
  forall (A B : Type) (m : outcome A) (k : A -> outcome B),
    m <> OutOfFuel -> (forall a, m = Ret a -> k a <> OutOfFuel) -> bind m k <> OutOfFuel.
Proof.
  intros A B [a | |] k Hm Hk; cbn [bind];
    [apply Hk; reflexivity | discriminate | exfalso; apply Hm; reflexivity].
Qed.

Create HintDb no_fuel.

Ltac no_fuel :=
  repeat first
    [ discriminate
    | solve [auto with no_fuel]
    | match goal with
      | |- bind _ _ <> OutOfFuel => apply bind_no_fuel; [| intros ? ?]
      | |- (if ?c then _ else _) <> OutOfFuel => destruct c
      | |- (let '(_, _) := ?x in _) <> OutOfFuel => destruct x
      | |- match ?x with _ => _ end <> OutOfFuel => destruct x
      end ].

Lemma peek_no_fuel : forall s, peek s <> OutOfFuel.
Proof. intros [| c r]; discriminate. Qed.
#[local] Hint Resolve peek_no_fuel : no_fuel.

Lemma strlen_no_fuel : forall s, strlen s <> OutOfFuel.
Proof. induction s as [| c r IH]; cbn [strlen]; no_fuel. Qed.
#[local] Hint Resolve strlen_no_fuel : no_fuel.

Lemma strncmp_no_fuel : forall n mem lit, strncmp mem lit n <> OutOfFuel.
Proof. induction n as [| n IH]; intros mem lit; cbn [strncmp]; no_fuel. Qed.
#[local] Hint Resolve strncmp_no_fuel : no_fuel.

Lemma skip_whitespace_loop_no_fuel : forall n b, skip_whitespace_loop n b <> OutOfFuel.
Proof. induction n as [| n IH]; intros b; cbn [skip_whitespace_loop]; no_fuel. Qed.
#[local] Hint Resolve skip_whitespace_loop_no_fuel : no_fuel.

Lemma skip_whitespace_no_fuel : forall b, skip_whitespace b <> OutOfFuel.
Proof. intros b. unfold skip_whitespace. no_fuel. Qed.
#[local] Hint Resolve skip_whitespace_no_fuel : no_fuel.

Lemma scan_string_no_fuel :
  forall input stepped len, scan_string input stepped len <> OutOfFuel.
Proof.
  fix IH 1. intros [| c r] stepped len; cbn [scan_string]; [discriminate |].
  destruct (c =? QUOTE); [discriminate |]. destruct (c =? NUL); [discriminate |].
  destruct (c =? BACKSLASH); [| apply IH].
  destruct r as [| e r']; [discriminate | apply IH].
Qed.
#[local] Hint Resolve scan_string_no_fuel : no_fuel.

Lemma unescape_no_fuel : forall input, unescape input <> OutOfFuel.
Proof.
  fix IH 1. intros [| c r]; cbn [unescape]; [discriminate |].
  destruct (c =? QUOTE); [discriminate |].
  destruct (c =? BACKSLASH).
  - destruct r as [| e r']; [discriminate |].
    repeat match goal with
           | |- (if ?c then _ else _) <> OutOfFuel => destruct c
           end;
      try (apply bind_no_fuel; [apply IH | intros; discriminate]).
    destruct r' as [| x1 [| x2 [| x3 [| x4 r'']]]]; try discriminate.
    apply bind_no_fuel; [apply IH | intros; discriminate].
  - apply bind_no_fuel; [apply IH | intros; discriminate].
Qed.
#[local] Hint Resolve unescape_no_fuel : no_fuel.

Lemma parse_string_no_fuel : forall item b w, parse_string item b w <> OutOfFuel.
Proof. intros item b w. unfold parse_string. no_fuel. Qed.
#[local] Hint Resolve parse_string_no_fuel : no_fuel.

Lemma match_ci_no_fuel : forall lit s, match_ci lit s <> OutOfFuel.
Proof. induction lit as [| y lit IH]; intros s; cbn [match_ci]; no_fuel. Qed.
#[local] Hint Resolve match_ci_no_fuel : no_fuel.

Lemma scan_sign_no_fuel : forall s, scan_sign s <> OutOfFuel.
Proof. intros s. unfold scan_sign. no_fuel. Qed.
#[local] Hint Resolve scan_sign_no_fuel : no_fuel.

Lemma scan_exponent_no_fuel : forall mark s, scan_exponent mark s <> OutOfFuel.
Proof. intros mark s. unfold scan_exponent. no_fuel. Qed.
#[local] Hint Resolve scan_exponent_no_fuel : no_fuel.

Lemma scan_decimal_no_fuel : forall neg s, scan_decimal neg s <> OutOfFuel.
Proof. intros neg s. unfold scan_decimal. no_fuel. Qed.
#[local] Hint Resolve scan_decimal_no_fuel : no_fuel.

Lemma scan_hex_no_fuel : forall neg s, scan_hex neg s <> OutOfFuel.
Proof. intros neg s. unfold scan_hex. no_fuel. Qed.
#[local] Hint Resolve scan_hex_no_fuel : no_fuel.

Lemma scan_nan_tag_no_fuel : forall s, scan_nan_tag s <> OutOfFuel.
Proof. intros s. unfold scan_nan_tag. no_fuel. Qed.
#[local] Hint Resolve scan_nan_tag_no_fuel : no_fuel.

Lemma strtod_unsigned_no_fuel : forall neg s, strtod_unsigned neg s <> OutOfFuel.
Proof. intros neg s. unfold strtod_unsigned. no_fuel. Qed.
#[local] Hint Resolve strtod_unsigned_no_fuel : no_fuel.

Lemma strtod_no_fuel : forall s, strtod s <> OutOfFuel.
Proof. intros s. unfold strtod. no_fuel. Qed.
#[local] Hint Resolve strtod_no_fuel : no_fuel.

Lemma parse_number_no_fuel : forall item b w, parse_number item b w <> OutOfFuel.
Proof. intros item b w. unfold parse_number. no_fuel. Qed.
#[local] Hint Resolve parse_number_no_fuel : no_fuel.

Lemma at_literal_no_fuel : forall b lit, at_literal b lit <> OutOfFuel.
Proof. intros b lit. unfold at_literal. no_fuel. Qed.
#[local] Hint Resolve at_literal_no_fuel : no_fuel.

Lemma loop_condition_no_fuel : forall b, loop_condition b <> OutOfFuel.
Proof. intros b. unfold loop_condition. no_fuel. Qed.
#[local] Hint Resolve loop_condition_no_fuel : no_fuel.

Lemma parse_bracketed_no_fuel :
  forall opening closing tag e1 e2 loop item b w,
    (forall head b' w', (room b' < room b)%nat -> loop head b' w' <> OutOfFuel) ->
    (offset b < length b)%nat ->
    parse_bracketed opening closing tag e1 e2 loop item b w <> OutOfFuel.
Proof.
  intros opening closing tag e1 e2 loop item b w Hloop Hin. unfold parse_bracketed.
  apply bind_no_fuel; [no_fuel | intros c _].
  destruct (negb (c =? opening)); [discriminate |].
  apply bind_no_fuel; [no_fuel | intros b1 Hskip].
  apply skip_whitespace_mono in Hskip. destruct Hskip as (_ & _ & Hr & _).
  unfold room in *. cbn [advance set_offset content length offset] in Hr.
  apply bind_no_fuel; [no_fuel | intros empty _].
  destruct empty; [discriminate |].
  apply bind_no_fuel; [apply Hloop; unfold room; lia | intros [[[ok head] b2] w2] _].
  no_fuel.
Qed.

(** Fuel suffices when it exceeds twice the room left in the buffer. *)
Lemma parse_no_fuel :
  forall fuel,
    (forall item b w,
        (2 * room b + 1 <= fuel)%nat -> parse_value fuel item b w <> OutOfFuel) /\
    (forall head b w,
        (2 * room b + 2 <= fuel)%nat -> parse_array_loop fuel head b w <> OutOfFuel) /\
    (forall head b w,
        (2 * room b + 2 <= fuel)%nat -> parse_object_loop fuel head b w <> OutOfFuel).
Proof.
  induction fuel as [| fuel (IHv & IHa & IHo)].
  - repeat split; intros; lia.
  - split; [| split].
    + intros item b w Hfuel. cbn [parse_value].
      apply bind_no_fuel; [no_fuel | intros b1 Hskip].
      apply skip_whitespace_mono in Hskip. destruct Hskip as (_ & _ & Hr & _).
      destruct (can_access_at_index b1 0) eqn:Hcan; cbn [negb]; [| discriminate].
      unfold can_access_at_index in Hcan. rewrite Nat.add_0_r in Hcan.
      apply Nat.ltb_lt in Hcan.
      no_fuel.
      * apply parse_bracketed_no_fuel; [| exact Hcan].
        intros head b' w' Hlt. apply IHa. lia.
      * apply parse_bracketed_no_fuel; [| exact Hcan].
        intros head b' w' Hlt. apply IHo. lia.
    + intros head b w Hfuel. cbn [parse_array_loop].
      apply bind_no_fuel; [no_fuel | intros b1 Hskip].
      apply skip_whitespace_mono in Hskip. destruct Hskip as (_ & _ & Hr & _).
      destruct (cJSON_New_Item w) as [[ni |] w1] eqn:Hnew; [| discriminate].
      assert (Hni : ni = zero_item).
      { unfold cJSON_New_Item, call_malloc in Hnew.
        destruct (heap_grants w _); [| discriminate]. congruence. }
      subst ni.
      apply bind_no_fuel; [apply IHv; lia | intros [[[ok ni1] b2] w2] Hval].
      pose proof (proj1 (parse_post fuel) zero_item b1 w1 (fresh_zero None)) as Hk.
      rewrite Hval in Hk. cbn [value_post] in Hk.
      destruct Hk as (_ & _ & _ & _ & _ & Hok).
      destruct (Z.eqb_spec ok 0) as [Hz | Hnz]; [discriminate |].
      destruct (Hok Hnz) as (_ & _ & Hlt & _).
      apply bind_no_fuel; [no_fuel | intros b3 Hskip3].
      apply skip_whitespace_mono in Hskip3. destruct Hskip3 as (_ & _ & Hr3 & _).
      apply bind_no_fuel; [no_fuel | intros [again b4] Hcond].
      apply loop_condition_mono in Hcond. destruct Hcond as (_ & _ & Hr4 & _).
      destruct again; [| discriminate]. apply IHa. lia.
    + intros head b w Hfuel. cbn [parse_object_loop].
      apply bind_no_fuel; [no_fuel | intros b1 Hskip].
      apply skip_whitespace_mono in Hskip. destruct Hskip as (_ & _ & Hr & _).
      destruct (cJSON_New_Item w) as [[ni |] w1] eqn:Hnew; [| discriminate].
      assert (Hni : ni = zero_item).
      { unfold cJSON_New_Item, call_malloc in Hnew.
        destruct (heap_grants w _); [| discriminate]. congruence. }
      subst ni.
      apply bind_no_fuel; [no_fuel | intros [[[ok ni1] b2] w2] Hkey].
      apply parse_string_step in Hkey; [| apply (fresh_zero None)].
      destruct Hkey as (_ & Hl2 & Ho2 & _ & _ & Hok).
      destruct (Z.eqb_spec ok 0) as [Hz | Hnz]; [discriminate |].
      destruct (Hok Hnz) as (_ & s & ->). clear Hok.
      set (ni2 := set_type cJSON_Invalid _).
      assert (Hfresh2 : fresh ni2) by (repeat split).
      apply bind_no_fuel; [no_fuel | intros b3 Hskip3].
      apply skip_whitespace_mono in Hskip3. destruct Hskip3 as (_ & Hl3 & Hr3 & _).
      apply bind_no_fuel; [no_fuel | intros c _].
      destruct (negb (c =? COLON)); [discriminate |].
      apply bind_no_fuel; [no_fuel | intros b4 Hskip4].
      apply skip_whitespace_mono in Hskip4. destruct Hskip4 as (_ & Hl4 & Hr4 & _).
      unfold room in *. cbn [advance set_offset content length offset] in *.
      apply bind_no_fuel; [apply IHv; unfold room; lia | intros [[[ok2 ni3] b5] w3] Hval].
      pose proof (proj1 (parse_post fuel) ni2 b4 w2 Hfresh2) as Hk.
      rewrite Hval in Hk. cbn [value_post] in Hk.
      destruct Hk as (_ & _ & _ & _ & _ & Hok).
      destruct (Z.eqb_spec ok2 0) as [Hz2 | Hnz2]; [discriminate |].
      destruct (Hok Hnz2) as (_ & _ & Hlt & _).
      apply bind_no_fuel; [no_fuel | intros b6 Hskip6].
      apply skip_whitespace_mono in Hskip6. destruct Hskip6 as (_ & _ & Hr6 & _).
      apply bind_no_fuel; [no_fuel | intros [again b7] Hcond].
      apply loop_condition_mono in Hcond. destruct Hcond as (_ & _ & Hr7 & _).
      unfold room in *.
      destruct again; [| discriminate]. apply IHo. unfold room. lia.
Qed.

Lemma strlen_bound : forall mem n, strlen mem = Ret n -> (n < List.length mem)%nat.
Proof.
  induction mem as [| c r IH]; intros n H; cbn [strlen] in H; [discriminate |].
  destruct (c =? NUL).
  - injection H as <-. cbn. lia.
  - destruct (strlen r) as [k | |]; cbn [bind] in H; try discriminate.
    injection H as <-. specialize (IH k eq_refl). cbn. lia.
Qed.

(** X9: The parser terminates on every input: the depth of its recursion
    and the turns of its member loops together stay within twice the
    length given, so with that much fuel and one more the parse returns
    or is undefined; for [cJSON_Parse], twice the size of the memory that
    holds the text is enough. *)
Theorem Parse_terminates :
  forall value w,
    (forall len fuel,
        (2 * len + 1 <= fuel)%nat ->
        cJSON_ParseWithLength fuel value len w <> OutOfFuel) /\
    (forall fuel,
        (2 * List.length (match value with Some mem => mem | None => [] end) <= fuel)%nat ->
        cJSON_Parse fuel value w <> OutOfFuel).
Proof.
  intros value w.
  assert (Hlen : forall len fuel,
             (2 * len + 1 <= fuel)%nat ->
             cJSON_ParseWithLength fuel value len w <> OutOfFuel).
  { intros len fuel Hfuel. unfold cJSON_ParseWithLength.
    destruct value as [mem |]; [| discriminate].
    destruct (len =? 0)%nat; [discriminate |].
    destruct (cJSON_New_Item _) as [[i |] w1]; [| discriminate].
    apply bind_no_fuel.
    - apply (proj1 (parse_no_fuel fuel)). unfold room. cbn [length offset]. lia.
    - intros [[[ok i1] b1] w2] _. destruct (ok =? 0); discriminate. }
  split; [exact Hlen |].
  intros fuel Hfuel. unfold cJSON_Parse. destruct value as [mem |].
  - apply bind_no_fuel; [no_fuel | intros n Hn].
    apply strlen_bound in Hn. apply Hlen. lia.
  - discriminate.
Qed.

(** ** The serializer and the heap *)

Lemma ensure_buffer_post :
  forall p needed w ok p' w',
    ensure_buffer p needed w = (ok, p', w') ->
    accounted w w' 0 /\ buffer p' = buffer p /\
    (ok <> 0 -> 0 <= needed -> written p' + needed + 1 <= capacity p').
Proof.
  intros p needed w ok p' w' H. unfold ensure_buffer in H.
  destruct (Z.leb_spec (needed + written p + 1) (capacity p)) as [Hfit | Hgrow].
  - injection H as <- <- <-. split; [apply accounted_refl |]. split; [reflexivity |].
    intros _ _. lia.
  - destruct (call_malloc _ _ w) as [granted w1] eqn:Hm.
    pose proof (accounted_malloc _ _ _ _ Hm) as Hacc.
    destruct granted; injection H as <- <- <-.
    + split; [| split; [reflexivity |]].
      * eapply accounted_eq;
          [eapply accounted_trans; [exact Hacc | apply accounted_free] | reflexivity].
      * intros _ Hn. unfold written in *. cbn [buffer capacity]. lia.
    + split; [exact Hacc |]. split; [reflexivity |]. intros Hne. congruence.
Qed.

Lemma print_post_then :
  forall w ok p1 w1 (k : print_result),
    accounted w w1 0 -> print_post w1 k ->
    print_post w (if ok =? 0 then (0, p1, w1) else k).
Proof.
  intros w ok p1 w1 [[ok' p'] w'] Hacc Hk. unfold print_post in *.
  destruct (ok =? 0); [exact Hacc |].
  eapply accounted_eq; [eapply accounted_trans; [exact Hacc | exact Hk] | reflexivity].
Qed.

Lemma reserve_post :
  forall p n w text,
    print_post w (let '(ok, p1, w1) := ensure_buffer p n w in
                  if ok =? 0 then (0, p1, w1) else (1, emit text p1, w1)).
Proof.
  intros p n w text. destruct (ensure_buffer p n w) as [[ok p1] w1] eqn:H.
  apply ensure_buffer_post in H. destruct H as (Hacc & _).
  apply print_post_then; [exact Hacc |]. apply accounted_refl.
Qed.

Lemma print_array_loop_post :
  forall pv chain,
    Forall (fun c => forall p w, print_post w (pv c p w)) chain ->
    forall p w, print_post w (print_array_loop pv chain p w).
Proof.
  intros pv chain H. induction H as [| c next Hc _ IH]; intros p w;
    cbn [print_array_loop].
  - apply accounted_refl.
  - pose proof (Hc p w) as Hk. destruct (pv c p w) as [[ok p1] w1].
    unfold print_post in Hk. apply print_post_then; [exact Hk |].
    destruct next as [| c' next']; [apply accounted_refl |].
    pose proof (reserve_post p1 1 w1 [COMMA]) as Hcomma. unfold emit_byte.
    destruct (ensure_buffer p1 1 w1) as [[ok2 p2] w2].
    destruct (ok2 =? 0) eqn:Hz; cbn [print_post] in Hcomma; cbn iota beta.
    + exact Hcomma.
    + cbn [Z.eqb]. pose proof (IH (emit [COMMA] p2) w2) as Hrest.
      destruct (print_array_loop pv (c' :: next') (emit [COMMA] p2) w2) as [[ok3 p3] w3].
      unfold print_post in *.
      eapply accounted_eq; [eapply accounted_trans; [exact Hcomma | exact Hrest] | reflexivity].
Qed.

Lemma print_post_seq :
  forall w (x : print_result) (k : printbuffer -> world -> print_result),
    print_post w x -> (forall p1 w1, print_post w1 (k p1 w1)) ->
    print_post w (let '(ok, p1, w1) := x in if ok =? 0 then (0, p1, w1) else k p1 w1).
Proof.
  intros w [[ok p1] w1] k Hx Hk. apply print_post_then; [exact Hx | apply Hk].
Qed.

Lemma emit_byte_post : forall c p w, print_post w (emit_byte c p w).
Proof. intros c p w. apply reserve_post. Qed.

Lemma print_string_ptr_post : forall str p w, print_post w (print_string_ptr str p w).
Proof. intros str p w. apply reserve_post. Qed.

Lemma print_number_post : forall item p w, print_post w (print_number item p w).
Proof. intros item p w. apply reserve_post. Qed.

Lemma print_literal_post : forall text p w, print_post w (print_literal text p w).
Proof. intros text p w. apply reserve_post. Qed.

Lemma print_post_done : forall ok w p, print_post w (ok, p, w).
Proof. intros ok w p. apply accounted_refl. Qed.

Lemma print_object_loop_post :
  forall pv chain,
    Forall (fun c => forall p w, print_post w (pv c p w)) chain ->
    forall p w, print_post w (print_object_loop pv chain p w).
Proof.
  intros pv chain H. induction H as [| c next Hc _ IH]; intros p w;
    cbn [print_object_loop].
  - apply print_post_done.
  - apply print_post_seq; [apply print_string_ptr_post | intros p0 w0].
    apply print_post_seq; [apply emit_byte_post | intros p1 w1].
    apply print_post_seq; [apply Hc | intros p2 w2].
    destruct next as [| c' next']; [apply print_post_done |].
    apply print_post_seq; [apply emit_byte_post | intros p3 w3]. apply IH.
Qed.

Lemma print_bracketed_post :
  forall opening closing loop item,
    (forall p w, print_post w (loop (child item) p w)) ->
    forall p w, print_post w (print_bracketed opening closing loop item p w).
Proof.
  intros opening closing loop item Hloop p w. unfold print_bracketed.
  apply print_post_seq; [apply emit_byte_post | intros p1 w1].
  apply print_post_seq; [apply Hloop | intros p2 w2]. apply emit_byte_post.
Qed.

Lemma print_item_post : forall item p w, print_post w (print_item item p w).
Proof.
  induction item as [item IH] using cJSON_tree_ind. intros p w.
  rewrite print_item_eq. cbv zeta.
  repeat match goal with
         | |- print_post _ (if ?c then _ else _) => destruct c
         end.
  - apply print_literal_post.
  - apply print_literal_post.
  - apply print_literal_post.
  - apply print_number_post.
  - apply print_string_ptr_post.
  - apply print_bracketed_post. apply print_array_loop_post. exact IH.
  - apply print_bracketed_post. apply print_object_loop_post. exact IH.
  - apply print_post_done.
Qed.

Lemma PrintUnformatted_post :
  forall item w,
    accounted w (snd (cJSON_PrintUnformatted item w))
              (match fst (cJSON_PrintUnformatted item w) with
               | Some _ => 1
               | None => 0
               end).
Proof.
  intros item w. unfold cJSON_PrintUnformatted.
  destruct (call_malloc _ 256 w) as [granted w1] eqn:Hm.
  pose proof (accounted_malloc _ _ _ _ Hm) as Hacc.
  destruct granted; [| exact Hacc].
  assert (Hp : print_post w1 (print_value item (mk_printbuffer [] 256) w1)).
  { destruct item as [i |]; [apply print_item_post | apply print_post_done]. }
  destruct (print_value item _ w1) as [[r p] w2]. unfold print_post in Hp.
  destruct (r =? 0); cbn [fst snd].
  - eapply accounted_eq;
      [eapply accounted_trans;
       [exact Hacc | eapply accounted_trans; [exact Hp | apply accounted_free]]
      | reflexivity].
  - eapply accounted_eq; [eapply accounted_trans; [exact Hacc | exact Hp] | reflexivity].
Qed.

(** X10: Whatever the tree and whatever the heap refuses, the serializer
    makes every heap call through the installed pair and leaves that pair
    installed; when it returns a text it holds one more block, the text,
    and when it returns null it holds none, its buffer having been
    released. *)
Theorem Print_holds_the_text_only :
  forall item w,
    accounted w (snd (cJSON_PrintUnformatted item w))
              (match fst (cJSON_PrintUnformatted item w) with
               | Some _ => 1
               | None => 0
               end) /\
    cJSON_Print item w = cJSON_PrintUnformatted item w /\
    forall prebuffer fmt,
      cJSON_PrintBuffered item prebuffer fmt w = cJSON_PrintUnformatted item w.
Proof.
  intros item w. split; [apply PrintUnformatted_post |]. split; reflexivity.
Qed.

(** ** Strings: the reservation and the round trip *)

Lemma escape_byte_length : forall c, (List.length (escape_byte c) <= 6)%nat.
Proof.
  intros c. unfold escape_byte.
  repeat match goal with
         | |- context [if ?b then _ else _] => destruct b
         end; cbn [List.length]; lia.
Qed.

Lemma escape_length : forall s, (List.length (escape s) <= 6 * List.length s)%nat.
Proof.
  induction s as [| c s IH]; [cbn; lia |].
  unfold escape in *. cbn [flat_map]. rewrite length_app. cbn [List.length].
  pose proof (escape_byte_length c). lia.
Qed.

(** X11: What [print_string_ptr] writes fits what it reserved: after a
    successful call the text written so far and its terminator lie
    within the capacity of the buffer, the escaped string taking at most
    six bytes for each byte of the string and two for the quotes. *)
Theorem print_string_ptr_fits :
  forall str p w ok p' w',
    print_string_ptr str p w = (ok, p', w') -> ok <> 0 ->
    buffer p' = buffer p ++ string_text str /\
    (List.length (string_text str)
     <= 6 * List.length (match str with Some s => c_str s | None => [] end) + 2)%nat /\
    written p' + 1 <= capacity p'.
Proof.
  intros str p w ok p' w' H Hok. unfold print_string_ptr in H.
  set (s := match str with Some s => c_str s | None => [] end) in *.
  destruct (ensure_buffer p _ w) as [[ok1 p1] w1] eqn:He.
  apply ensure_buffer_post in He. destruct He as (_ & Hb & Hfit).
  destruct (Z.eqb_spec ok1 0) as [Hz | Hnz]; injection H as <- <- <-; [congruence |].
  assert (Hlen : (List.length (string_text str) <= 6 * List.length s + 2)%nat).
  { unfold string_text. fold s. cbn [List.length]. rewrite length_app. cbn [List.length].
    pose proof (escape_length s). lia. }
  split; [cbn [emit buffer]; congruence |]. split; [exact Hlen |].
  specialize (Hfit Hnz ltac:(lia)).
  unfold written in *. cbn [emit buffer capacity]. rewrite length_app. lia.
Qed.

Lemma print_string_ptr_fits_witness :
  print_string_ptr (Some (bytes_of_string "x")) (mk_printbuffer [] 256) initial_world
  = (1, mk_printbuffer (quoted "x") 256, initial_world) /\
  1 <> 0 /\
  buffer (mk_printbuffer (quoted "x") 256)
  = buffer (mk_printbuffer [] 256) ++ string_text (Some (bytes_of_string "x")) /\
  (List.length (string_text (Some (bytes_of_string "x")))
   <= 6 * List.length (c_str (bytes_of_string "x")) + 2)%nat /\
  written (mk_printbuffer (quoted "x") 256) + 1 <= capacity (mk_printbuffer (quoted "x") 256).
Proof.
  assert (H : print_string_ptr (Some (bytes_of_string "x")) (mk_printbuffer [] 256)
                initial_world
              = (1, mk_printbuffer (quoted "x") 256, initial_world))
    by (vm_compute; reflexivity).
  split; [exact H |]. split; [discriminate |].
  exact (print_string_ptr_fits _ _ _ _ _ _ H ltac:(discriminate)).
Defined.

Lemma unprintable_cases :
  forall c, 0 < c < 256 -> printable c = false ->
    In c [1; 2; 3; 4; 5; 6; 7; 11; 14; 15; 16; 17; 18; 19; 20; 21; 22; 23; 24; 25; 26;
          27; 28; 29; 30; 31].
Proof.
  intros c Hc H. unfold printable, BS, TAB, LF, FF, CR in H.
  repeat rewrite orb_false_iff in H.
  destruct H as [[[[[H32 H8] H9] H10] H12] H13].
  apply Z.leb_gt in H32. apply Z.eqb_neq in H8, H9, H10, H12, H13.
  cbn [In].
  assert (Hcases : c = 1 \/ c = 2 \/ c = 3 \/ c = 4 \/ c = 5 \/ c = 6 \/ c = 7 \/ c = 11 \/
                   c = 14 \/ c = 15 \/ c = 16 \/ c = 17 \/ c = 18 \/ c = 19 \/ c = 20 \/
                   c = 21 \/ c = 22 \/ c = 23 \/ c = 24 \/ c = 25 \/ c = 26 \/ c = 27 \/
                   c = 28 \/ c = 29 \/ c = 30 \/ c = 31) by lia.
  repeat (destruct Hcases as [-> | Hcases]; [tauto |]). subst c. tauto.
Qed.

Lemma scan_string_any_byte :
  forall c rest stepped len,
    0 < c < 256 ->
    exists k,
      scan_string (escape_byte c ++ rest) stepped len
      = scan_string rest (stepped + List.length (escape_byte c)) (len + S k).
Proof.
  intros c rest stepped len Hc. destruct (printable c) eqn:Hp.
  - exists O. rewrite scan_string_escape_byte by assumption. f_equal. lia.
  - exists 4%nat. pose proof (unprintable_cases c Hc Hp) as Hin. cbn [In] in Hin.
    repeat (destruct Hin as [<- | Hin];
            [cbn; f_equal; lia |]).
    contradiction.
Qed.

Lemma unescape_any_byte :
  forall c rest,
    0 < c < 256 ->
    unescape (escape_byte c ++ rest) = (o <- unescape rest ;; Ret (reparsed c :: o)).
Proof.
  intros c rest Hc. unfold reparsed. destruct (printable c) eqn:Hp.
  - apply unescape_escape_byte. exact Hp.
  - pose proof (unprintable_cases c Hc Hp) as Hin. cbn [In] in Hin.
    repeat (destruct Hin as [<- | Hin]; [reflexivity |]).
    contradiction.
Qed.

Lemma scan_string_any :
  forall s rest stepped len,
    Forall (fun c => 0 < c < 256) s ->
    exists k,
      scan_string (escape s ++ QUOTE :: rest) stepped len
      = Ret (true, (stepped + List.length (escape s))%nat, (len + List.length s + k)%nat).
Proof.
  intros s rest stepped len H. revert stepped len.
  induction H as [| c s Hc _ IH]; intros stepped len.
  - exists O. cbn [escape flat_map app scan_string List.length].
    rewrite Z.eqb_refl, !Nat.add_0_r. reflexivity.
  - unfold escape in *. cbn [flat_map]. rewrite <- app_assoc.
    destruct (scan_string_any_byte c (flat_map escape_byte s ++ QUOTE :: rest)
                                   stepped len Hc) as [k1 ->].
    destruct (IH (stepped + List.length (escape_byte c))%nat (len + S k1)%nat) as [k2 ->].
    exists (k1 + k2)%nat. rewrite length_app. cbn [List.length].
    match goal with
    | |- Ret (_, ?a, ?b) = Ret (_, ?c, ?d) =>
        replace a with c by lia; replace b with d by lia; reflexivity
    end.
Qed.

Lemma unescape_any :
  forall s rest,
    Forall (fun c => 0 < c < 256) s ->
    unescape (escape s ++ QUOTE :: rest) = Ret (map reparsed s).
Proof.
  intros s rest H. induction H as [| c s Hc _ IH]; [reflexivity |].
  unfold escape in *. cbn [flat_map map]. rewrite <- app_assoc.
  rewrite unescape_any_byte by assumption. rewrite IH. reflexivity.
Qed.

Lemma reparsed_nonzero : forall c, 0 < c -> reparsed c <> NUL.
Proof.
  intros c Hc. unfold reparsed, QUESTION, NUL. destruct (printable c); lia.
Qed.

Lemma c_str_nonzero : forall s, Forall (fun c => c <> NUL) s -> c_str s = s.
Proof.
  intros s H. induction H as [| c s Hc _ IH]; [reflexivity |].
  cbn [c_str]. destruct (Z.eqb_spec c NUL); [contradiction | congruence].
Qed.

(** X12: Parsing what [print_string_ptr] writes for a string gives the
    string back byte by byte, except that each control byte written as a
    backslash-u escape (every byte below 32 other than backspace, tab,
    line feed, form feed and carriage return) comes back as a question
    mark; the cursor stops behind the closing quote, and a second round
    trip changes nothing more. *)
Theorem parse_string_of_printed :
  forall item b w s rest,
    Forall (fun c => 0 < c < 256) s ->
    buffer_at_offset b = string_text (Some s) ++ rest ->
    next_granted w ->
    (exists w1,
        parse_string item b w
        = Ret (1, set_valuestring (Some (map reparsed s)) (set_type cJSON_String item),
               advance (List.length (string_text (Some s))) b, w1)) /\
    map reparsed (map reparsed s) = map reparsed s.
Proof.
  intros item b w s rest Hs Hb Hw. split.
  - assert (Hnz : Forall (fun c => c <> NUL) s).
    { eapply Forall_impl; [| exact Hs]. intros c Hc. unfold NUL. cbn beta in Hc. lia. }
    unfold string_text in *. rewrite (c_str_nonzero s Hnz) in *.
    cbn [app] in Hb. rewrite <- app_assoc in Hb. cbn [app] in Hb.
    unfold parse_string. rewrite Hb. cbn [peek bind List.tl].
    rewrite Z.eqb_refl. cbn [negb].
    destruct (scan_string_any s rest 0 0 Hs) as [k ->]. cbn [bind negb].
    unfold call_malloc. unfold next_granted in Hw. rewrite Hw.
    cbn [negb]. rewrite unescape_any by assumption. cbn [bind].
    rewrite length_map. unfold byte in *.
    match goal with
    | |- context [Nat.ltb ?x ?y] => destruct (Nat.ltb_spec x y) as [Hbad | _]; [lia |]
    end.
    rewrite c_str_nonzero.
    + rewrite advance_advance. eexists. do 3 f_equal. f_equal.
      cbn [List.length]. rewrite length_app. cbn [List.length]. lia.
    + apply Forall_map. eapply Forall_impl; [| exact Hs].
      intros c Hc. apply reparsed_nonzero. cbn beta in Hc. lia.
  - rewrite map_map. apply map_ext. intros c. unfold reparsed.
    destruct (printable c) eqn:Hp; [rewrite Hp; reflexivity | reflexivity].
Qed.

Lemma parse_string_of_printed_witness :
  Forall (fun c => 0 < c < 256) [7] /\
  buffer_at_offset (mk_parse_buffer (string_text (Some [7]) ++ [NUL]) 8 0)
  = string_text (Some [7]) ++ [NUL] /\
  next_granted initial_world /\
  (exists w1,
      parse_string zero_item (mk_parse_buffer (string_text (Some [7]) ++ [NUL]) 8 0)
                   initial_world
      = Ret (1, set_valuestring (Some (map reparsed [7])) (set_type cJSON_String zero_item),
             advance (List.length (string_text (Some [7])))
                     (mk_parse_buffer (string_text (Some [7]) ++ [NUL]) 8 0), w1)) /\
  map reparsed (map reparsed [7]) = map reparsed [7].
Proof.
  assert (H1 : Forall (fun c => 0 < c < 256) [7]) by (repeat constructor).
  split; [exact H1 |]. split; [reflexivity |]. split; [reflexivity |].
  exact (parse_string_of_printed zero_item
           (mk_parse_buffer (string_text (Some [7]) ++ [NUL]) 8 0)
           initial_world [7] [NUL] H1 eq_refl eq_refl).
Defined.

(** ** Objects: adding and looking up *)

Lemma first_with_key_app :
  forall cmp chain x key,
    first_with_key cmp (chain ++ [x]) key
    = match first_with_key cmp chain key with
      | Some m => Some m
      | None => if key_matches cmp key x then Some x else None
      end.
Proof.
  intros cmp chain x key. unfold key_matches.
  induction chain as [| c next IH]; cbn [app first_with_key].
  - destruct (string x) as [k |]; [destruct (cmp k key =? 0) |]; reflexivity.
  - destruct (string c) as [k |]; [destruct (cmp k key =? 0) |]; auto.
Qed.

Lemma first_with_key_found :
  forall cmp chain key,
    (exists m, first_with_key cmp chain key = Some m) <->
    Exists (fun c => key_matches cmp key c = true) chain.
Proof.
  intros cmp chain key. unfold key_matches.
  induction chain as [| c next IH]; cbn [first_with_key].
  - split; [intros [m [=]] | intros H; inversion H].
  - rewrite Exists_cons, <- IH.
    destruct (string c) as [k |]; [destruct (cmp k key =? 0) |].
    + split; [intros _; left; reflexivity | intros _; eexists; reflexivity].
    + split; [intros H; right; exact H | intros [H | H]; [discriminate | exact H]].
    + split; [intros H; right; exact H | intros [H | H]; [discriminate | exact H]].
Qed.

Lemma tolower_zero : forall c, tolower c = 0 <-> c = 0.
Proof.
  intros c. unfold tolower.
  destruct (Z.leb_spec 65 c), (Z.leb_spec c 90); cbn [andb]; lia.
Qed.

Lemma strcasecmp_zero_iff :
  forall a b, strcasecmp a b = 0 <-> map tolower (c_str a) = map tolower (c_str b).
Proof.
  induction a as [| x a IH]; intros [| y b]; cbn [strcasecmp c_str map].
  - tauto.
  - pose proof (tolower_zero y). unfold NUL.
    destruct (Z.eqb_spec y 0); cbn [map]; split; intros;
      try lia; try discriminate; auto; try (exfalso; lia).
  - pose proof (tolower_zero x). unfold NUL.
    destruct (Z.eqb_spec x 0); cbn [map]; split; intros;
      try lia; try discriminate; auto; try (exfalso; lia).
  - pose proof (tolower_zero x). pose proof (tolower_zero y). unfold NUL.
    destruct (Z.eqb_spec (tolower x) (tolower y)) as [Heq | Hne].
    + destruct (Z.eqb_spec x 0) as [-> | Hx].
      * destruct (Z.eqb_spec y 0) as [-> | Hy]; [tauto | exfalso; lia].
      * destruct (Z.eqb_spec y 0) as [-> | Hy]; [exfalso; lia |].
        cbn [map]. rewrite IH. split; [intros ->; congruence | intros [= _ H']; exact H'].
    + destruct (Z.eqb_spec x 0) as [-> | Hx], (Z.eqb_spec y 0) as [-> | Hy]; cbn [map];
        split; intros H'; try discriminate; try lia; try congruence.
Qed.

Lemma strcmp_self : forall key, strcmp (c_str key) key = 0.
Proof.
  intros key. apply strcmp_zero_iff.
  induction key as [| c key IH]; [reflexivity |].
  cbn [c_str]. destruct (Z.eqb_spec c NUL) as [-> | Hc]; [reflexivity |].
  cbn [c_str]. destruct (Z.eqb_spec c NUL); [contradiction | congruence].
Qed.

Lemma strcmp_strcasecmp : forall a b, strcmp a b = 0 -> strcasecmp a b = 0.
Proof.
  intros a b H. apply strcasecmp_zero_iff. apply strcmp_zero_iff in H. congruence.
Qed.

(** X13: After [cJSON_AddItemToObject] or [cJSON_AddItemToObjectCS] has
    attached a detached item (a node that is in no chain, as a
    constructor returns it), the item is the last member and carries the
    key; both lookups of that key return what they returned before when
    a member answered already, and the new item otherwise: an earlier
    member of the same key is never replaced and always wins. *)
Theorem AddItemToObject_then_lookup :
  forall o key i w o1 i1 w1,
    cJSON_AddItemToObject (Some o) (Some key) (Some i) w = (1, Some o1, Some i1, w1)
    \/ cJSON_AddItemToObjectCS (Some o) (Some key) (Some i) w = (1, Some o1, Some i1, w1) ->
    child o1 = child o ++ [i1] /\
    string i1 = Some (c_str key) /\
    kind i1 = kind i /\ valuestring i1 = valuestring i /\ child i1 = child i /\
    cJSON_GetObjectItemCaseSensitive (Some o1) (Some key)
    = match cJSON_GetObjectItemCaseSensitive (Some o) (Some key) with
      | Some m => Some m
      | None => Some i1
      end /\
    cJSON_GetObjectItem (Some o1) (Some key)
    = match cJSON_GetObjectItem (Some o) (Some key) with
      | Some m => Some m
      | None => Some i1
      end.
Proof.
  intros o key i w o1 i1 w1 H.
  assert (Hshape : child o1 = child o ++ [i1] /\ string i1 = Some (c_str key) /\
                   kind i1 = kind i /\ valuestring i1 = valuestring i /\
                   child i1 = child i).
  { destruct H as [H | H].
    - unfold cJSON_AddItemToObject, add_item_to_object, strdup, call_malloc in H.
      cbn [Z.eqb] in H. destruct (heap_grants w _); cbn iota beta in H; [| discriminate].
      injection H as <- <- <-. repeat split.
    - unfold cJSON_AddItemToObjectCS, add_item_to_object in H. cbn [Z.eqb] in H.
      cbn iota beta in H. injection H as <- <- <-. repeat split.
      unfold kind. cbn [type set_type]. apply kind_with_const_flag. }
  destruct Hshape as (Hc & Hs & Hk & Hv & Hch).
  repeat split; try assumption.
  - unfold cJSON_GetObjectItemCaseSensitive. rewrite Hc, first_with_key_app.
    unfold key_matches. rewrite Hs, strcmp_self. reflexivity.
  - unfold cJSON_GetObjectItem. rewrite Hc, first_with_key_app.
    unfold key_matches. rewrite Hs, (strcmp_strcasecmp _ _ (strcmp_self key)). reflexivity.
Qed.

(** X14: [cJSON_HasObjectItem] answers 1 exactly when some member carries a
    key equal to the requested one up to the case of ASCII letters, and 0
    otherwise; so it answers 1 whenever the case-sensitive lookup finds a
    member, and 0 for a null object or a null key. *)
Theorem HasObjectItem_ignores_case :
  forall o key,
    (cJSON_HasObjectItem (Some o) (Some key) = 1 <->
     Exists (fun c => exists k, string c = Some k /\
                                map tolower (c_str k) = map tolower (c_str key))
            (child o)) /\
    (cJSON_HasObjectItem (Some o) (Some key) <> 1 ->
     cJSON_HasObjectItem (Some o) (Some key) = 0 /\
     cJSON_GetObjectItemCaseSensitive (Some o) (Some key) = None) /\
    cJSON_HasObjectItem None (Some key) = 0 /\
    cJSON_HasObjectItem (Some o) None = 0.
Proof.
  intros o key.
  assert (Hiff : cJSON_HasObjectItem (Some o) (Some key) = 1 <->
                 Exists (fun c => key_matches strcasecmp key c = true) (child o)).
  { unfold cJSON_HasObjectItem, cJSON_GetObjectItem.
    rewrite <- first_with_key_found.
    destruct (first_with_key strcasecmp (child o) key) as [m |].
    - split; [intros _; eexists; reflexivity | reflexivity].
    - split; [discriminate | intros [m [=]]]. }
  split; [| split; [| split; reflexivity]].
  - rewrite Hiff. rewrite !Exists_exists.
    split; intros (c & Hin & Hc); exists c; (split; [exact Hin |]);
      unfold key_matches in *.
    + destruct (string c) as [k |]; [| discriminate].
      exists k. split; [reflexivity |]. apply strcasecmp_zero_iff, Z.eqb_eq, Hc.
    + destruct Hc as (k & -> & Hk). apply Z.eqb_eq, strcasecmp_zero_iff, Hk.
  - intros Hne. split.
    + unfold cJSON_HasObjectItem in *.
      destruct (cJSON_GetObjectItem _ _); [congruence | reflexivity].
    + unfold cJSON_GetObjectItemCaseSensitive.
      destruct (first_with_key strcmp (child o) key) as [m |] eqn:Hm; [| reflexivity].
      exfalso. apply Hne, Hiff.
      assert (Hex : Exists (fun c => key_matches strcmp key c = true) (child o))
        by (apply first_with_key_found; eexists; exact Hm).
      eapply Exists_impl; [| exact Hex].
      intros c Hc. unfold key_matches in *. destruct (string c) as [k |]; [| discriminate].
      apply Z.eqb_eq in Hc. apply Z.eqb_eq. apply strcmp_strcasecmp. exact Hc.
Qed.

(** ** Kinds *)

(** X15: The kind of a node is decided by the low eight bits of its type
    alone: every predicate answers 0 or 1, at most one of the nine
    single-kind predicates answers 1, [cJSON_IsBool] answers 1 exactly for
    True and False, and setting flag bits above the low eight (reference,
    constant key) changes no answer. *)
Theorem kind_predicates_partition :
  forall i,
    (cJSON_IsInvalid (Some i) + cJSON_IsFalse (Some i) + cJSON_IsTrue (Some i)
     + cJSON_IsNull (Some i) + cJSON_IsNumber (Some i) + cJSON_IsString (Some i)
     + cJSON_IsArray (Some i) + cJSON_IsObject (Some i) + cJSON_IsRaw (Some i) <= 1) /\
    Forall (fun v => v = 0 \/ v = 1)
           [cJSON_IsInvalid (Some i); cJSON_IsFalse (Some i); cJSON_IsTrue (Some i);
            cJSON_IsBool (Some i); cJSON_IsNull (Some i); cJSON_IsNumber (Some i);
            cJSON_IsString (Some i); cJSON_IsArray (Some i); cJSON_IsObject (Some i);
            cJSON_IsRaw (Some i)] /\
    cJSON_IsBool (Some i) = cJSON_IsTrue (Some i) + cJSON_IsFalse (Some i) /\
    forall flags, Z.land flags 255 = 0 ->
      let j := Some (set_type (Z.lor (type i) flags) i) in
      cJSON_IsInvalid j = cJSON_IsInvalid (Some i) /\
      cJSON_IsFalse j = cJSON_IsFalse (Some i) /\
      cJSON_IsTrue j = cJSON_IsTrue (Some i) /\
      cJSON_IsBool j = cJSON_IsBool (Some i) /\
      cJSON_IsNull j = cJSON_IsNull (Some i) /\
      cJSON_IsNumber j = cJSON_IsNumber (Some i) /\
      cJSON_IsString j = cJSON_IsString (Some i) /\
      cJSON_IsArray j = cJSON_IsArray (Some i) /\
      cJSON_IsObject j = cJSON_IsObject (Some i) /\
      cJSON_IsRaw j = cJSON_IsRaw (Some i).
Proof.
  intros i.
  unfold cJSON_IsInvalid, cJSON_IsFalse, cJSON_IsTrue, cJSON_IsBool, cJSON_IsNull,
    cJSON_IsNumber, cJSON_IsString, cJSON_IsArray, cJSON_IsObject, cJSON_IsRaw.
  split; [| split; [| split]].
  - set (k := kind i).
    change cJSON_Invalid with 0; change cJSON_False with 1; change cJSON_True with 2;
      change cJSON_NULL with 4; change cJSON_Number with 8; change cJSON_String with 16;
      change cJSON_Array with 32; change cJSON_Object with 64; change cJSON_Raw with 128.
    repeat match goal with
           | |- context [k =? ?c] => destruct (Z.eqb_spec k c)
           end; cbn [c_bool]; lia.
  - repeat match goal with
           | |- Forall _ (_ :: _) => apply Forall_cons
           | |- Forall _ [] => apply Forall_nil
           end;
      repeat match goal with
             | |- context [?a =? ?c] => destruct (a =? c)
             end; cbn; auto.
  - set (k := kind i).
    change cJSON_False with 1; change cJSON_True with 2.
    destruct (Z.eqb_spec k 2), (Z.eqb_spec k 1); cbn; lia.
  - intros flags Hflags.
    assert (Hk : kind (set_type (Z.lor (type i) flags) i) = kind i).
    { unfold kind. cbn [type set_type].
      rewrite Z.land_lor_distr_l, Hflags. apply Z.lor_0_r. }
    cbv zeta. rewrite Hk. repeat split.
Qed.

Lemma kind_predicates_partition_witness :
  Z.land cJSON_StringIsConst 255 = 0 /\
  cJSON_IsString (Some (set_type (Z.lor (type sample_x) cJSON_StringIsConst) sample_x))
  = cJSON_IsString (Some sample_x).
Proof.
  split; [reflexivity |].
  destruct (kind_predicates_partition sample_x) as (_ & _ & _ & H).
  apply (H cJSON_StringIsConst eq_refl).
Defined.

(** ** Constructors and helpers keep the heap balanced *)

Lemma live_malloc :
  forall via size w ok w1,
    call_malloc via size w = (ok, w1) -> live w1 = live w + (if ok then 1 else 0).
Proof.
  intros via size w ok w1 [= <- <-]. rewrite live_log. cbn [event_delta].
  destruct (heap_grants w _); lia.
Qed.

Lemma live_Delete :
  forall chain w, live (cJSON_Delete chain w) = live w - Z.of_nat (chain_blocks chain).
Proof. intros chain w. rewrite Delete_world. unfold live. cbn [heap_trace]. apply held_frees. Qed.

Lemma create_with_ok :
  forall f w,
    blocks (f zero_item) = 1%nat -> string (f zero_item) = None ->
    has_flag cJSON_StringIsConst (f zero_item) = false ->
    created_ok w (create_with f w).
Proof.
  intros f w Hb Hs Hf. unfold create_with, cJSON_New_Item.
  destruct (call_malloc _ _ w) as [ok w1] eqn:Hm. apply live_malloc in Hm.
  destruct ok; cbn [option_map]; split; cbn [fst snd chain_of chain_blocks fold_right].
  - rewrite Hb. lia.
  - intros i [= <-]. split; assumption.
  - lia.
  - intros i [=].
Qed.

Lemma CreateString_ok : forall str w, created_ok w (cJSON_CreateString str w).
Proof.
  intros str w. unfold cJSON_CreateString, cJSON_New_Item.
  destruct (call_malloc _ _ w) as [ok w1] eqn:Hm. apply live_malloc in Hm.
  destruct ok; [| split; [cbn; lia | intros i [=]]].
  destruct str as [s |].
  - unfold strdup. destruct (call_malloc libc _ w1) as [ok2 w2] eqn:Hm2.
    apply live_malloc in Hm2. destruct ok2.
    + split; [cbn -[Z.of_nat]; lia | intros i [= <-]; split; reflexivity].
    + split; [| intros i [=]]. cbn [fst snd chain_of].
      rewrite live_Delete. cbn -[Z.of_nat]. lia.
  - split; [cbn -[Z.of_nat]; lia | intros i [= <-]; split; reflexivity].
Qed.

Lemma CreateRaw_ok : forall raw w, created_ok w (cJSON_CreateRaw raw w).
Proof.
  intros raw w. unfold cJSON_CreateRaw, cJSON_New_Item.
  destruct (call_malloc _ _ w) as [ok w1] eqn:Hm. apply live_malloc in Hm.
  destruct ok; [| split; [cbn; lia | intros i [=]]].
  destruct raw as [s |].
  - unfold strdup. destruct (call_malloc libc _ w1) as [ok2 w2] eqn:Hm2.
    apply live_malloc in Hm2.
    destruct ok2; (split; [cbn -[Z.of_nat]; lia | intros i [= <-]; split; reflexivity]).
  - split; [cbn -[Z.of_nat]; lia | intros i [= <-]; split; reflexivity].
Qed.

(** X16: A constructor of a string node reports a refused copy of the text:
    [cJSON_CreateString] releases the node and returns null, while
    [cJSON_CreateRaw] returns a Raw node without text.  Either way the
    blocks held afterwards are those of the node returned. *)
Theorem CreateString_and_CreateRaw_on_refusal :
  forall text w,
    created_ok w (cJSON_CreateString (Some text) w) /\
    created_ok w (cJSON_CreateRaw (Some text) w) /\
    (forall i, fst (cJSON_CreateString (Some text) w) = Some i ->
               kind i = cJSON_String /\ valuestring i = Some (c_str text)) /\
    (heap_grants w (List.length (heap_trace w)) = true ->
     heap_grants w (S (List.length (heap_trace w))) = false ->
     fst (cJSON_CreateString (Some text) w) = None /\
     exists i, fst (cJSON_CreateRaw (Some text) w) = Some i /\
               kind i = cJSON_Raw /\ valuestring i = None).
Proof.
  intros text w. split; [apply CreateString_ok |]. split; [apply CreateRaw_ok |]. split.
  - unfold cJSON_CreateString, cJSON_New_Item, strdup, call_malloc.
    destruct (heap_grants w _); cbn [fst snd]; [| intros i [=]].
    destruct (heap_grants _ _); cbn [fst snd]; [| intros i [=]].
    intros i [= <-]. split; reflexivity.
  - intros H1 H2.
    unfold cJSON_CreateString, cJSON_CreateRaw, cJSON_New_Item, strdup, call_malloc.
    rewrite H1. cbn [log_event heap_grants heap_trace List.length]. rewrite H2.
    split; [reflexivity |]. eexists. split; [reflexivity |]. split; reflexivity.
Qed.

Lemma add_created_to_object_post :
  forall w created object name,
    created_ok w created ->
    let '(item, o1, w') := add_created_to_object created object name in
    live w' = live w + Z.of_nat (chain_blocks (chain_of item)) /\
    match item with
    | None => o1 = object
    | Some i =>
        exists o key,
          object = Some o /\ name = Some key /\
          o1 = Some (set_child (child o ++ [i]) o) /\ string i = Some (c_str key)
    end.
Proof.
  intros w [item w1] object name [Hlive Hitem]. cbn [fst snd] in *.
  unfold add_created_to_object, cJSON_AddItemToObject, add_item_to_object.
  destruct object as [o |], name as [key |], item as [i |];
    cbn [Z.eqb chain_of]; cbn iota beta;
    cbn [chain_of chain_blocks fold_right] in *;
    try (rewrite live_Delete; cbn [chain_blocks fold_right]; split; [lia | reflexivity]).
  destruct (Hitem i eq_refl) as [Hs Hf].
  unfold strdup. destruct (call_malloc libc _ w1) as [ok w2] eqn:Hm.
  apply live_malloc in Hm. destruct ok; cbn [add_item_to_array Z.eqb chain_of];
    cbn iota beta.
  - split.
    + cbn [chain_of chain_blocks fold_right] in *.
      assert (Hb : blocks (set_string (Some (strdup_text key)) i) = S (blocks i)).
      { destruct i as [c ty vs vi vd s]. cbn [string] in Hs. subst s.
        unfold has_flag in Hf. cbn [blocks set_string child valuestring string type] in *.
        unfold has_flag. cbn [type]. rewrite Hf. lia. }
      rewrite Hb. lia.
    + exists o, key. repeat split.
  - rewrite live_Delete. split; [| reflexivity].
    cbn [chain_of chain_blocks fold_right] in *.
    assert (Hb : blocks (set_string None i) = blocks i).
    { destruct i as [c ty vs vi vd s]. cbn [string] in Hs. subst s. reflexivity. }
    rewrite Hb. lia.
Qed.

(** X17: Each of the nine create-and-attach helpers either returns the new
    member, attached last to the object under a copy of the name, or
    returns null and leaves the object as it was; in both cases the
    blocks held afterwards are those of the member returned, so a helper
    that fails on a null object, a null name or a refused allocation has
    released everything it had obtained. *)
Theorem add_helpers_hold_member_only :
  forall boolean number str raw helper,
    In helper (add_helpers boolean number str raw) ->
    forall object name w,
      let '(item, o1, w') := helper object name w in
      live w' = live w + Z.of_nat (chain_blocks (chain_of item)) /\
      match item with
      | None => o1 = object
      | Some i =>
          exists o key,
            object = Some o /\ name = Some key /\
            o1 = Some (set_child (child o ++ [i]) o) /\ string i = Some (c_str key)
      end.
Proof.
  intros boolean number str raw helper Hin object name w.
  unfold add_helpers in Hin. cbn [In] in Hin.
  repeat (destruct Hin as [<- | Hin]); try contradiction;
    apply add_created_to_object_post;
    try (apply create_with_ok; reflexivity);
    try apply CreateString_ok; try apply CreateRaw_ok.
  unfold cJSON_CreateBool. destruct (boolean =? 0); apply create_with_ok; reflexivity.
Qed.

Lemma add_helpers_hold_member_only_witness :
  In cJSON_AddNullToObject
     (add_helpers 0 (Fin false 0 0) None None) /\
  let '(item, o1, w') := cJSON_AddNullToObject None None initial_world in
  live w' = live initial_world + Z.of_nat (chain_blocks (chain_of item)) /\
  match item with
  | None => o1 = None
  | Some i =>
      exists o key,
        @None cJSON = Some o /\ @None (list byte) = Some key /\
        o1 = Some (set_child (child o ++ [i]) o) /\ string i = Some (c_str key)
  end.
Proof.
  assert (Hin : In cJSON_AddNullToObject (add_helpers 0 (Fin false 0 0) None None))
    by (left; reflexivity).
  split; [exact Hin |].
  exact (add_helpers_hold_member_only 0 (Fin false 0 0) None None
           cJSON_AddNullToObject Hin None None initial_world).
Defined.

(** ** Parsing the text of a tree *)

Lemma ParseWithLength_render :
  forall t, well_formed t -> plain t = true -> string t = None ->
    forall fuel len c rest w,
      (fuel_for t <= fuel)%nat -> (List.length (render t) <= len)%nat ->
      delimiter c -> grants_all w ->
      exists t' w',
        cJSON_ParseWithLength fuel (Some (render t ++ c :: rest)) len w
        = Ret (Some t', w') /\
        structurally_equal t t' = true.
Proof.
  intros t Hwf Hpl Hkey fuel len c rest w Hfuel Hlen Hc Hw.
  unfold cJSON_ParseWithLength.
  pose proof (render_nonempty t Hwf Hpl) as Hpos.
  destruct (Nat.eqb_spec len 0); [lia |].
  destruct (New_Item_granted _ (grants_all_set_error None w Hw)) as (w1 & -> & Hw1).
  destruct (parse_value_render t Hwf Hpl fuel None
              (mk_parse_buffer (render t ++ c :: rest) len 0)
              w1 c rest Hfuel) as (item & w2 & Hparse & Hw2 & Hse).
  - split; [reflexivity | cbn [offset length]; lia].
  - exact Hc.
  - exact Hw1.
  - change (set_string None zero_item) with zero_item in Hparse.
    rewrite Hparse. cbn [bind Z.eqb].
    exists item, w2. split; [reflexivity |].
    rewrite (set_string_same t None Hkey) in Hse. exact Hse.
Qed.

Lemma strlen_at_least :
  forall text rest n,
    nonzero text -> strlen (text ++ rest) = Ret n -> (List.length text <= n)%nat.
Proof.
  induction text as [| c text IH]; intros rest n Hnz H; [cbn; lia |].
  inversion Hnz as [| c0 l0 Hc Htl]; subst.
  cbn [app strlen] in H. destruct (Z.eqb_spec c NUL); [contradiction |].
  destruct (strlen (text ++ rest)) as [k | |] eqn:Hk; cbn [bind] in H; try discriminate.
  injection H as <-. specialize (IH rest k Htl Hk). cbn [List.length]. lia.
Qed.

(** X18: The parser does not ask that the input ends where the value ends.
    Take a tree the Builder API yields without Raw nodes and without
    strings created from a null pointer (scalars from the constructors,
    arrays grown by [cJSON_AddItemToArray], objects grown by
    [cJSON_AddItemToObject] or [cJSON_AddItemToObjectCS], so that every
    member has a key, every created node detached and attached once),
    whose strings and keys need no backslash-u escape and whose numbers
    are finite.  Its text, followed by a comma, a closing bracket or
    brace or a terminator and then by any bytes whatever, parses to a
    tree structurally equal to the original, under any length that covers
    the text and, for [cJSON_Parse], wherever the terminator lies. *)
Theorem Parse_ignores_what_follows :
  forall t, built t -> plain t = true ->
    forall fuel c rest w,
      (fuel_for t <= fuel)%nat -> delimiter c -> grants_all w ->
      (forall len,
          (List.length (render t) <= len)%nat ->
          exists t' w',
            cJSON_ParseWithLength fuel (Some (render t ++ c :: rest)) len w
            = Ret (Some t', w') /\
            structurally_equal t t' = true) /\
      (forall n,
          strlen (render t ++ c :: rest) = Ret n ->
          exists t' w',
            cJSON_Parse fuel (Some (render t ++ c :: rest)) w = Ret (Some t', w') /\
            structurally_equal t t' = true) /\
      fst (cJSON_PrintUnformatted (Some t) w) = Some (render t).
Proof.
  intros t Hb Hpl fuel c rest w Hfuel Hc Hw.
  destruct (built_well_formed t Hb) as [Hwf Hkey].
  split; [| split].
  - intros len Hlen. apply ParseWithLength_render; assumption.
  - intros n Hn. unfold cJSON_Parse. rewrite Hn. cbn [bind].
    apply ParseWithLength_render; try assumption.
    eapply strlen_at_least; [apply render_nonzero; assumption | exact Hn].
  - unfold cJSON_PrintUnformatted, call_malloc. rewrite Hw. cbn [print_value].
    pose proof (print_item_render t Hwf (mk_printbuffer [] 256)
                  (log_event (ev_malloc (global_malloc w) 256 true) w)
                  (grants_all_log _ _ Hw)) as Hp.
    destruct (print_item t _ _) as [[ok p] w3]. destruct Hp as (-> & -> & _).
    reflexivity.
Qed.

Lemma built_type : forall t, built t -> type t = kind t.
Proof.
  intros t Hb.
  induction Hb as [w i w1 H | w i w1 H | w i w1 H | b w i w1 H | num w i w1 H
                  | s w i w1 H | w i w1 H | w i w1 H
                  | a i a1 Ha IHa Hk Hi IHi H
                  | o key i w o1 i1 w1 Ho IHo Hk Hi IHi H
                  | o key i w o1 i1 w1 Ho IHo Hk Hi IHi H].
  1-8: unfold cJSON_CreateNull, cJSON_CreateTrue, cJSON_CreateFalse, cJSON_CreateBool,
         cJSON_CreateNumber, cJSON_CreateString, cJSON_CreateArray, cJSON_CreateObject,
         create_with, cJSON_New_Item, strdup, call_malloc in H;
       repeat match type of H with
              | context [heap_grants ?w ?n] => destruct (heap_grants w n)
              | context [?x =? 0] => destruct (x =? 0)
              end; try discriminate; injection H as <- _; reflexivity.
  - injection H as <-. destruct a; exact IHa.
  - unfold cJSON_AddItemToObject, add_item_to_object, strdup, call_malloc in H.
    cbn [Z.eqb] in H. destruct (heap_grants w _); cbn iota beta in H; [| discriminate].
    injection H as <- _ _. destruct o; exact IHo.
  - unfold cJSON_AddItemToObjectCS, add_item_to_object in H. cbn [Z.eqb] in H.
    cbn iota beta in H. injection H as <- _ _. destruct o; exact IHo.
Qed.

(** ** Duplicate and compare *)

Lemma PrintUnformatted_render :
  forall t w, well_formed t -> grants_all w ->
    exists w1, cJSON_PrintUnformatted (Some t) w = (Some (render t), w1) /\ grants_all w1.
Proof.
  intros t w Hwf Hw. unfold cJSON_PrintUnformatted, call_malloc. rewrite Hw.
  cbn [print_value].
  pose proof (print_item_render t Hwf (mk_printbuffer [] 256)
                (log_event (ev_malloc (global_malloc w) 256 true) w)
                (grants_all_log _ _ Hw)) as Hp.
  destruct (print_item t _ _) as [[ok p] w3]. destruct Hp as (-> & -> & Hw3).
  exists w3. split; [reflexivity | exact Hw3].
Qed.

Lemma structurally_equal_kind :
  forall a b, structurally_equal a b = true -> kind a = kind b.
Proof.
  intros [c ty vs vi vd s] b H. cbn [structurally_equal] in H.
  apply andb_true_iff in H as [H _]. apply andb_true_iff in H as [H _].
  unfold same_value in H.
  apply andb_true_iff in H as [H _]. apply andb_true_iff in H as [H _].
  apply Z.eqb_eq in H. exact H.
Qed.

(** The copy of a String created from a null pointer holds the empty
    string: it is not structurally equal to the original, and
    [cJSON_Compare], which looks at the types only, still answers 1. *)
Example Duplicate_of_null_string :
  exists s w1 t' w2,
    cJSON_CreateString None initial_world = (Some s, w1) /\
    cJSON_Duplicate 1 (Some s) 1 w1 = Ret (Some t', w2) /\
    valuestring s = None /\ valuestring t' = Some [] /\
    structurally_equal s t' = false /\
    cJSON_Compare (Some s) (Some t') 1 = 1.
Proof.
  do 4 eexists.
  split; [vm_compute; reflexivity |].
  split; [vm_compute; reflexivity |].
  vm_compute. repeat split.
Qed.

(** X19: Take a tree the Builder API yields without Raw nodes and without
    strings created from a null pointer (scalars from the constructors,
    arrays grown by [cJSON_AddItemToArray], objects grown by
    [cJSON_AddItemToObject] or [cJSON_AddItemToObjectCS], so that every
    member has a key, every created node detached and attached once),
    whose strings and keys need no backslash-u escape and whose numbers
    are finite.  [cJSON_Duplicate] of it returns, when allocations are
    granted, a tree structurally equal to it, children included whatever
    the value of [recurse]; the copy compares equal to the original under
    [cJSON_Compare], and the only blocks held in addition afterwards are
    those of the copy, the intermediate text having been released.  A
    String created from a null pointer is left out: its copy holds the
    empty string ([Duplicate_of_null_string]). *)
Theorem Duplicate_copies_built_trees :
  forall t, built t -> plain t = true ->
    forall fuel recurse case_sensitive w,
      (fuel_for t <= fuel)%nat -> grants_all w ->
      exists t' w',
        cJSON_Duplicate fuel (Some t) recurse w = Ret (Some t', w') /\
        structurally_equal t t' = true /\
        cJSON_Compare (Some t) (Some t') case_sensitive = 1 /\
        live w' = live w + Z.of_nat (blocks t').
Proof.
  intros t Hb Hpl fuel recurse cs w Hfuel Hw.
  destruct (built_well_formed t Hb) as [Hwf Hkey].
  unfold cJSON_Duplicate.
  pose proof (PrintUnformatted_post (Some t) w) as Hprint.
  destruct (PrintUnformatted_render t w Hwf Hw) as (w1 & Hp & Hw1).
  rewrite Hp in *. cbn [fst snd] in Hprint.
  unfold cJSON_Parse, c_string.
  rewrite (strlen_c_string _ [] (render_nonzero t Hwf Hpl)). cbn [bind].
  destruct (ParseWithLength_render t Hwf Hpl Hkey fuel (List.length (render t)) NUL []
              w1 Hfuel (le_n _)) as (t' & w2 & Hparse & Hse); [| exact Hw1 |].
  { right. right. right. reflexivity. }
  rewrite Hparse. cbn [bind].
  exists t', (call_free (global_free w2) w2). split; [reflexivity |].
  split; [exact Hse |].
  destruct (ParseWithLength_post _ _ _ _ _ _ Hparse) as (Hacc & _ & Hshape).
  destruct (Hshape t' eq_refl) as (_ & _ & Hty). split.
  - unfold cJSON_Compare. rewrite (built_type t Hb), Hty.
    rewrite (structurally_equal_kind _ _ Hse), Z.eqb_refl. reflexivity.
  - destruct Hprint as (_ & _ & _ & Hl1 & _). destruct Hacc as (_ & _ & _ & Hl2 & _).
    unfold call_free. rewrite live_log. cbn [event_delta].
    cbn [chain_of chain_blocks fold_right] in Hl2. lia.
Qed.

Lemma Duplicate_copies_built_trees_witness :
  built sample_object /\ plain sample_object = true /\
  (fuel_for sample_object <= 9)%nat /\ grants_all initial_world /\
  exists t' w',
    cJSON_Duplicate 9 (Some sample_object) 0 initial_world = Ret (Some t', w') /\
    structurally_equal sample_object t' = true /\
    cJSON_Compare (Some sample_object) (Some t') 1 = 1 /\
    live w' = live initial_world + Z.of_nat (blocks t').
Proof.
  assert (Hp : plain sample_object = true) by reflexivity.
  assert (Hf : (fuel_for sample_object <= 9)%nat) by (vm_compute; lia).
  assert (Hg : grants_all initial_world) by (intros n; reflexivity).
  split; [exact sample_object_built |]. split; [exact Hp |]. split; [exact Hf |].
  split; [exact Hg |].
  exact (Duplicate_copies_built_trees sample_object sample_object_built Hp 9 0 1
           initial_world Hf Hg).
Defined.

(** ** Array creation helpers *)

Lemma skipn_nth_error :
  forall (A : Type) (l : list A) i x,
    nth_error l i = Some x -> skipn i l = x :: skipn (S i) l.
Proof.
  intros A l. induction l as [| y l IH]; intros [| i] x H; cbn in H; try discriminate.
  - injection H as ->. reflexivity.
  - cbn [skipn]. apply IH. exact H.
Qed.

Lemma set_child_twice :
  forall c1 c2 a, set_child c2 (set_child c1 a) = set_child c2 a.
Proof. intros c1 c2 [c ty vs vi vd s]. reflexivity. Qed.

Lemma fill_array_granted :
  forall (A : Type) (create : A -> world -> option cJSON * world) (f : A -> cJSON)
         (elements : list A),
    (forall x w, grants_all w ->
                 exists w1, create x w = (Some (f x), w1) /\ grants_all w1) ->
    forall n i a w,
      (i + n <= List.length elements)%nat -> grants_all w ->
      exists w',
        fill_array create elements n i (Some a) w
        = Ret (Some (set_child (child a ++ map f (firstn n (skipn i elements))) a), w') /\
        grants_all w'.
Proof.
  intros A create f elements Hcreate. induction n as [| n IH]; intros i a w Hn Hw.
  - exists w. cbn [fill_array firstn map]. rewrite List.app_nil_r.
    destruct a; split; [reflexivity | exact Hw].
  - cbn [fill_array].
    destruct (nth_error elements i) as [x |] eqn:Hx;
      [| apply nth_error_None in Hx; lia].
    destruct (Hcreate x w Hw) as (w1 & -> & Hw1).
    cbn [cJSON_AddItemToArray add_item_to_array snd].
    destruct (IH (S i) (set_child (child a ++ [f x]) a) w1) as (w' & -> & Hw'); [lia | exact Hw1 |].
    exists w'. split; [| exact Hw'].
    rewrite (skipn_nth_error _ _ _ _ Hx). cbn [firstn map].
    rewrite set_child_twice. destruct a as [c ty vs vi vd s]. cbn [child set_child].
    rewrite <- app_assoc. reflexivity.
Qed.

Lemma CreateNumber_granted :
  forall d w, grants_all w ->
    exists w1, cJSON_CreateNumber d w = (Some (number_node d), w1) /\ grants_all w1.
Proof.
  intros d w Hw. unfold cJSON_CreateNumber, create_with.
  destruct (New_Item_granted w Hw) as (w1 & -> & Hw1).
  exists w1. split; [reflexivity | exact Hw1].
Qed.

Lemma render_elements_joined :
  forall cs, render_elements render cs = joined (map render cs).
Proof.
  induction cs as [| c cs IH]; [reflexivity |].
  rewrite render_elements_cons. cbn [map joined]. rewrite IH.
  destruct cs; reflexivity.
Qed.

Lemma double_eqb_refl_int : forall n, double_eqb (double_of_int n) (double_of_int n) = true.
Proof.
  intros n. unfold double_of_int, double_eqb. apply Z.eqb_refl.
Qed.

Lemma render_array :
  forall a, kind a = cJSON_Array ->
    render a = LBRACKET :: render_elements render (child a) ++ [RBRACKET].
Proof. intros a H. rewrite render_eq. cbv zeta. rewrite H. reflexivity. Qed.

Lemma render_number : forall t, kind t = cJSON_Number -> render t = number_text t.
Proof. intros t H. rewrite render_eq. cbv zeta. rewrite H. reflexivity. Qed.

Lemma render_int_node :
  forall n, INT_MIN <= n <= INT_MAX -> render (number_node (double_of_int n)) = fmt_d n.
Proof.
  intros n Hn. rewrite render_number by reflexivity.
  unfold number_text. cbn [valuedouble valueint number_node set_number set_type zero_item].
  cbn [isnan isinf double_of_int orb].
  rewrite (int_of_double_of_int n Hn), double_eqb_refl_int. reflexivity.
Qed.

(** X20: On a heap that grants every request, [cJSON_CreateIntArray] on
    [count] readable numbers returns an array of exactly [count] Number
    nodes, in the order of the numbers, each holding its number as
    integer view and as double; the array serializes as the bracketed,
    comma-separated decimal texts of the numbers. *)
Theorem CreateIntArray_holds_the_numbers :
  forall numbers count w,
    grants_all w -> 0 <= count <= Z.of_nat (List.length numbers) ->
    Forall (fun n => INT_MIN <= n <= INT_MAX) numbers ->
    exists a w',
      cJSON_CreateIntArray numbers count w = Ret (Some a, w') /\
      cJSON_IsArray (Some a) = 1 /\
      cJSON_GetArraySize (Some a) = count /\
      Forall (fun c => cJSON_IsNumber (Some c) = 1) (child a) /\
      map valueint (child a) = firstn (Z.to_nat count) numbers /\
      map valuedouble (child a) = map double_of_int (firstn (Z.to_nat count) numbers) /\
      forall w2, grants_all w2 ->
        fst (cJSON_PrintUnformatted (Some a) w2)
        = Some (LBRACKET :: joined (map fmt_d (firstn (Z.to_nat count) numbers))
                         ++ [RBRACKET]).
Proof.
  intros numbers count w Hw Hcount Hrange.
  unfold cJSON_CreateIntArray, create_array_of, cJSON_CreateArray, create_with.
  destruct (New_Item_granted w Hw) as (w1 & -> & Hw1). cbn [option_map].
  destruct (fill_array_granted Z (fun n => cJSON_CreateNumber (double_of_int n))
              (fun n => number_node (double_of_int n)) numbers
              (fun x w0 Hw0 => CreateNumber_granted (double_of_int x) w0 Hw0)
              (Z.to_nat count) 0 (set_type cJSON_Array zero_item) w1)
    as (w' & -> & Hw'); [lia | exact Hw1 |].
  cbn [skipn child set_type zero_item app].
  set (nums := firstn (Z.to_nat count) numbers).
  assert (Hnums : Forall (fun n => INT_MIN <= n <= INT_MAX) nums).
  { apply Forall_forall. intros n Hin. unfold nums in Hin.
    rewrite Forall_forall in Hrange. apply Hrange.
    rewrite <- (firstn_skipn (Z.to_nat count) numbers). apply in_or_app. left. exact Hin. }
  eexists. exists w'. split; [reflexivity |].
  cbn [child set_child].
  split; [reflexivity |]. split.
  { unfold cJSON_GetArraySize. cbn [child set_child]. rewrite length_map.
    unfold nums. rewrite length_firstn. lia. }
  split.
  { apply Forall_map. apply Forall_forall. intros n _. reflexivity. }
  split.
  { rewrite map_map. cbn [valueint number_node set_number set_type].
    clear - Hnums. induction Hnums as [| n l Hn _ IH]; [reflexivity |].
    cbn [map]. rewrite IH, (int_of_double_of_int n Hn). reflexivity. }
  split.
  { rewrite map_map. reflexivity. }
  intros w2 Hw2.
  match goal with
  | |- fst (cJSON_PrintUnformatted (Some ?a) w2) = _ =>
      assert (Hwf : well_formed a)
  end.
  { apply wf_array; try reflexivity; cbn [child set_child].
    - apply Forall_map. apply Forall_forall. intros n _. apply wf_number; reflexivity.
    - apply Forall_map. apply Forall_forall. intros n _. reflexivity. }
  destruct (PrintUnformatted_render _ w2 Hwf Hw2) as (w3 & -> & _). cbn [fst].
  f_equal. rewrite render_array by reflexivity. cbn [child set_child].
  rewrite render_elements_joined, map_map. do 3 f_equal.
  clear - Hnums. induction Hnums as [| n l Hn _ IH]; [reflexivity |].
  cbn [map]. rewrite IH, (render_int_node n Hn). reflexivity.
Qed.

Lemma blocks_append :
  forall a i,
    has_flag cJSON_IsReference a = false ->
    blocks (set_child (child a ++ [i]) a) = (blocks a + blocks i)%nat.
Proof.
  intros [c ty vs vi vd s] i Hf. unfold has_flag in *.
  cbn [blocks set_child child valuestring string type] in *.
  unfold has_flag. cbn [type]. rewrite Hf.
  fold (chain_blocks (c ++ [i])). fold (chain_blocks c).
  rewrite chain_blocks_app. lia.
Qed.

Lemma fill_array_any :
  forall (A : Type) (create : A -> world -> option cJSON * world) (elements : list A),
    (forall x w, created_ok w (create x w)) ->
    forall n i a w,
      (i + n <= List.length elements)%nat ->
      has_flag cJSON_IsReference a = false ->
      exists a' w',
        fill_array create elements n i (Some a) w = Ret (Some a', w') /\
        live w' - live w = Z.of_nat (blocks a') - Z.of_nat (blocks a) /\
        type a' = type a /\
        (List.length (child a) <= List.length (child a') <= List.length (child a) + n)%nat.
Proof.
  intros A create elements Hcreate. induction n as [| n IH]; intros i a w Hn Hf.
  - exists a, w. cbn [fill_array]. repeat split; lia.
  - cbn [fill_array].
    destruct (nth_error elements i) as [x |] eqn:Hx;
      [| apply nth_error_None in Hx; lia].
    pose proof (Hcreate x w) as [Hlive _].
    destruct (create x w) as [[item |] w1]; cbn [fst snd chain_of chain_blocks fold_right] in Hlive;
      cbn [cJSON_AddItemToArray add_item_to_array snd].
    + destruct (IH (S i) (set_child (child a ++ [item]) a) w1)
        as (a' & w' & -> & Hl & Hty & Hlen); [lia | destruct a; exact Hf |].
      exists a', w'. split; [reflexivity |].
      rewrite blocks_append in Hl by exact Hf.
      assert (Hc : child (set_child (child a ++ [item]) a) = child a ++ [item])
        by (destruct a; reflexivity).
      rewrite Hc, length_app in Hlen. cbn [List.length] in Hlen.
      repeat split; try lia. rewrite Hty. destruct a; reflexivity.
    + destruct (IH (S i) a w1) as (a' & w' & -> & Hl & Hty & Hlen); [lia | exact Hf |].
      exists a', w'. split; [reflexivity |]. repeat split; lia.
Qed.

Lemma create_array_of_post :
  forall (A : Type) (create : A -> world -> option cJSON * world) (elements : list A),
    (forall x w, created_ok w (create x w)) ->
    forall count w,
      (Z.to_nat count <= List.length elements)%nat ->
      array_helper_post count w (create_array_of create elements count w).
Proof.
  intros A create elements Hcreate count w Hcount.
  unfold array_helper_post, create_array_of, cJSON_CreateArray, create_with,
    cJSON_New_Item, call_malloc, next_granted.
  destruct (heap_grants w (List.length (heap_trace w))) eqn:Hg; cbn [option_map].
  - destruct (fill_array_any A create elements Hcreate (Z.to_nat count) 0
                (set_type cJSON_Array zero_item)
                (log_event (ev_malloc (global_malloc w) sizeof_cJSON true) w))
      as (a' & w' & -> & Hl & Hty & Hlen); [lia | reflexivity |].
    exists (Some a'), w'. split; [reflexivity |].
    rewrite live_log in Hl. cbn [event_delta] in Hl.
    change (blocks (set_type cJSON_Array zero_item)) with 1%nat in Hl.
    cbn [chain_of chain_blocks fold_right]. split; [lia |].
    split; [reflexivity |]. split.
    + unfold cJSON_IsArray, kind. rewrite Hty. reflexivity.
    + unfold cJSON_GetArraySize. cbn [child set_type zero_item List.length] in Hlen. lia.
  - exists None, (log_event (ev_malloc (global_malloc w) sizeof_cJSON false) w).
    split; [reflexivity |]. rewrite live_log. cbn [event_delta chain_of chain_blocks fold_right].
    split; [lia | discriminate].
Qed.

Lemma CreateNumber_ok : forall d w, created_ok w (cJSON_CreateNumber d w).
Proof. intros d w. apply create_with_ok; reflexivity. Qed.

(** X21: The four array helpers never report a refused element: once the
    array node is granted they return an array, of at most [count]
    elements, an element whose node or text was refused being left out;
    the blocks held afterwards are those of the array returned.  With
    only the first request granted, two strings give the empty array. *)
Theorem array_helpers_drop_refused_elements :
  forall count w,
    (forall numbers, (Z.to_nat count <= List.length numbers)%nat ->
       array_helper_post count w (cJSON_CreateIntArray numbers count w)) /\
    (forall numbers, (Z.to_nat count <= List.length numbers)%nat ->
       array_helper_post count w (cJSON_CreateFloatArray numbers count w)) /\
    (forall numbers, (Z.to_nat count <= List.length numbers)%nat ->
       array_helper_post count w (cJSON_CreateDoubleArray numbers count w)) /\
    (forall strings, (Z.to_nat count <= List.length strings)%nat ->
       array_helper_post count w (cJSON_CreateStringArray strings count w)) /\
    exists w',
      cJSON_CreateStringArray [Some (bytes_of_string "a"); Some (bytes_of_string "b")] 2
                              one_block_world
      = Ret (Some (set_type cJSON_Array zero_item), w').
Proof.
  intros count w. repeat split.
  - intros numbers H. apply create_array_of_post; [| exact H].
    intros x w0. apply CreateNumber_ok.
  - intros numbers H. apply create_array_of_post; [| exact H]. apply CreateNumber_ok.
  - intros numbers H. apply create_array_of_post; [| exact H]. apply CreateNumber_ok.
  - intros strings H. apply create_array_of_post; [| exact H]. apply CreateString_ok.
  - eexists. vm_compute. reflexivity.
Qed.

(** ** Literals and blank input *)

(** X22: A literal is recognised by its first bytes alone: a text that
    starts with null, false or true parses to that literal whatever bytes
    follow it, as soon as the length covers the literal. *)
Theorem literal_is_recognised_by_its_prefix :
  forall lit tag rest len fuel w,
    (lit = bytes_of_string "null" /\ tag = cJSON_NULL) \/
    (lit = bytes_of_string "false" /\ tag = cJSON_False) \/
    (lit = bytes_of_string "true" /\ tag = cJSON_True) ->
    (List.length lit <= len)%nat -> next_granted w ->
    exists w',
      cJSON_ParseWithLength (S fuel) (Some (lit ++ rest)) len w
      = Ret (Some (set_type tag zero_item), w').
Proof.
  intros lit tag rest len fuel w Hlit Hlen Hw. unfold cJSON_ParseWithLength.
  assert (Hpos : (0 < List.length lit)%nat)
    by (destruct Hlit as [[-> _] | [[-> _] | [-> _]]]; cbn; lia).
  destruct (Nat.eqb_spec len 0); [lia |].
  unfold cJSON_New_Item, call_malloc. unfold next_granted in Hw.
  cbn [set_error heap_grants heap_trace]. rewrite Hw.
  rewrite (parse_value_literal fuel zero_item _ _ lit rest tag Hlit).
  - cbn [bind]. destruct Hlit as [[_ ->] | [[_ ->] | [_ ->]]]; eexists; reflexivity.
  - split; [reflexivity | cbn [offset length]; lia].
Qed.

Lemma literal_is_recognised_by_its_prefix_witness :
  ((bytes_of_string "null" = bytes_of_string "null" /\ cJSON_NULL = cJSON_NULL) \/
   (bytes_of_string "null" = bytes_of_string "false" /\ cJSON_NULL = cJSON_False) \/
   (bytes_of_string "null" = bytes_of_string "true" /\ cJSON_NULL = cJSON_True)) /\
  (List.length (bytes_of_string "null") <= 5)%nat /\ next_granted initial_world /\
  exists w',
    cJSON_ParseWithLength 1 (Some (bytes_of_string "null" ++ bytes_of_string "x")) 5
                          initial_world
    = Ret (Some (set_type cJSON_NULL zero_item), w').
Proof.
  assert (H1 : (bytes_of_string "null" = bytes_of_string "null" /\ cJSON_NULL = cJSON_NULL) \/
               (bytes_of_string "null" = bytes_of_string "false" /\ cJSON_NULL = cJSON_False) \/
               (bytes_of_string "null" = bytes_of_string "true" /\ cJSON_NULL = cJSON_True))
    by (left; split; reflexivity).
  assert (H2 : (List.length (bytes_of_string "null") <= 5)%nat) by (cbn; lia).
  split; [exact H1 |]. split; [exact H2 |]. split; [reflexivity |].
  exact (literal_is_recognised_by_its_prefix (bytes_of_string "null") cJSON_NULL
           (bytes_of_string "x") 5 0 initial_world H1 H2 eq_refl).
Defined.

Lemma live_set_error : forall e w, live (set_error e w) = live w.
Proof. reflexivity. Qed.

Lemma nth_app_left :
  forall (l r : list byte) k, (k < List.length l)%nat -> nth k (l ++ r) 0 = nth k l 0.
Proof. intros l r k H. apply app_nth1. exact H. Qed.

Lemma blank_nonzero :
  forall ws : list byte, Forall (fun c => 0 < c <= 32) ws -> nonzero ws.
Proof.
  intros ws H. eapply Forall_impl; [| exact H]. intros c Hc. unfold NUL. cbn beta in Hc. lia.
Qed.

(** X23: A text of white space only (bytes from 1 to 32) holds no value:
    [cJSON_Parse] returns null, with the error Null input for the empty
    text and, when the root node is granted, Unexpected end otherwise;
    the node obtained for the root has been released. *)
Theorem Parse_of_blank_text :
  forall (ws junk : list byte) fuel w,
    Forall (fun c => 0 < c <= 32) ws ->
    exists w',
      cJSON_Parse (S fuel) (Some (ws ++ NUL :: junk)) w = Ret (None, w') /\
      live w' = live w /\
      (ws = [] -> cJSON_GetErrorPtr w' = Some "Null input"%string) /\
      (ws <> [] -> next_granted w -> cJSON_GetErrorPtr w' = Some "Unexpected end"%string).
Proof.
  intros ws junk fuel w Hws. unfold cJSON_Parse.
  rewrite (strlen_c_string ws junk (blank_nonzero ws Hws)). cbn [bind].
  unfold cJSON_ParseWithLength.
  destruct ws as [| c0 ws0] eqn:Hshape.
  - cbn [List.length Nat.eqb]. eexists. split; [reflexivity |].
    split; [reflexivity |]. split; [reflexivity | congruence].
  - rewrite <- Hshape in *. assert (Hlen : (0 < List.length ws)%nat) by (subst ws; cbn; lia).
    destruct (Nat.eqb_spec (List.length ws) 0); [lia |].
    unfold cJSON_New_Item, call_malloc. cbn [set_error heap_grants heap_trace].
    destruct (heap_grants w (List.length (heap_trace w))) eqn:Hg; cbn iota beta.
    + cbn [parse_value].
      set (b := mk_parse_buffer (ws ++ NUL :: junk) (List.length ws) 0).
      assert (Hskip : skip_whitespace b = Ret (set_offset (List.length ws) b)).
      { unfold skip_whitespace.
        destruct (skip_whitespace_loop_spec (length b - offset b) b)
          as (b1 & -> & Hc & Hl & Ho & Hbelow & Hstop).
        - cbn [b offset length]. lia.
        - cbn [b length content]. rewrite length_app. lia.
        - cbn [bind]. cbn [b offset length content] in *.
          assert (Hend : offset b1 = List.length ws).
          { destruct (Nat.eq_dec (offset b1) (List.length ws)) as [He | Hne]; [exact He |].
            exfalso. assert (Hlt : (offset b1 < List.length ws)%nat) by lia.
            specialize (Hstop ltac:(lia)).
            rewrite nth_app_left in Hstop by exact Hlt.
            rewrite Forall_forall in Hws.
            specialize (Hws (nth (offset b1) ws 0) (nth_In ws 0 Hlt)). cbn beta in Hws. lia. }
          destruct b1 as [c1 l1 o1]. cbn [offset length content] in *. subst.
          rewrite Nat.leb_refl. reflexivity. }
      rewrite Hskip. cbn [bind]. unfold can_access_at_index.
      cbn [set_offset b offset length]. rewrite Nat.add_0_r, Nat.ltb_irrefl. cbn [negb bind Z.eqb].
      eexists. split; [reflexivity |].
      split; [| split; [intros [=]; subst; discriminate | intros _ _; reflexivity]].
      change (live (cJSON_Delete [zero_item]
                      (set_error (Some "Unexpected end"%string)
                         (log_event (ev_malloc (global_malloc w) sizeof_cJSON true)
                                    (set_error None w)))) = live w).
      rewrite live_Delete, live_set_error, live_log, live_set_error.
      change (chain_blocks [zero_item]) with 1%nat. cbn [event_delta]. lia.
    + eexists. split; [reflexivity |].
      split; [rewrite live_set_error, live_log, live_set_error; cbn [event_delta]; lia |].
      split; [intros [=]; subst; discriminate |].
      intros _ Hng. unfold next_granted in Hng. congruence.
Qed.

Lemma Parse_of_blank_text_witness :
  Forall (fun c => 0 < c <= 32) [32; TAB] /\
  exists w',
    cJSON_Parse 1 (Some ([32; TAB] ++ NUL :: [])) initial_world = Ret (None, w') /\
    live w' = live initial_world /\
    ([32; TAB] = [] -> cJSON_GetErrorPtr w' = Some "Null input"%string) /\
    ([32; TAB] <> [] -> next_granted initial_world ->
     cJSON_GetErrorPtr w' = Some "Unexpected end"%string).
Proof.
  assert (H : Forall (fun c => 0 < c <= 32) [32; TAB])
    by (repeat constructor; unfold TAB; lia).
  split; [exact H |].
  exact (Parse_of_blank_text [32; TAB] [] 0 initial_world H).
Defined.

(** ** Instances *)

Lemma parse_of_one :
  cJSON_Parse 1 (Some one_text) initial_world = Ret (Some parsed_one, after_parsing_one).
Proof. vm_compute. reflexivity. Qed.

Lemma parse_with_length_of_one :
  cJSON_ParseWithLength 1 (Some one_text) 1 initial_world
  = Ret (Some parsed_one, after_parsing_one).
Proof. vm_compute. reflexivity. Qed.

Lemma grants_all_initial : grants_all initial_world.
Proof. intros n. reflexivity. Qed.

Lemma Parse_holds_the_tree_only_witness :
  (cJSON_ParseWithLength 1 (Some one_text) 1 initial_world
   = Ret (Some parsed_one, after_parsing_one)
   \/ cJSON_Parse 1 (Some one_text) initial_world
      = Ret (Some parsed_one, after_parsing_one)) /\
  live after_parsing_one
  = live initial_world + Z.of_nat (chain_blocks (chain_of (Some parsed_one))) /\
  live (cJSON_Delete (chain_of (Some parsed_one)) after_parsing_one) = live initial_world.
Proof.
  split; [right; exact parse_of_one |].
  exact (Parse_holds_the_tree_only 1 (Some one_text) 1%nat initial_world
           (Some parsed_one) after_parsing_one (or_intror parse_of_one)).
Defined.

Lemma Parse_through_installed_pair_witness :
  (cJSON_ParseWithLength 1 (Some one_text) 1 initial_world
   = Ret (Some parsed_one, after_parsing_one)
   \/ cJSON_Parse 1 (Some one_text) initial_world
      = Ret (Some parsed_one, after_parsing_one)) /\
  global_malloc after_parsing_one = global_malloc initial_world /\
  global_free after_parsing_one = global_free initial_world /\
  exists evs,
    heap_trace after_parsing_one = evs ++ heap_trace initial_world /\
    Forall (through (global_malloc initial_world) (global_free initial_world)) evs.
Proof.
  split; [left; exact parse_with_length_of_one |].
  exact (Parse_through_installed_pair 1 (Some one_text) 1%nat initial_world
           (Some parsed_one) after_parsing_one (or_introl parse_with_length_of_one)).
Defined.

Lemma Parse_error_iff_null_witness :
  grants_all initial_world /\
  cJSON_ParseWithLength 1 (Some one_text) 1 initial_world
  = Ret (Some parsed_one, after_parsing_one) /\
  (Some parsed_one = None <-> cJSON_GetErrorPtr after_parsing_one <> None).
Proof.
  split; [exact grants_all_initial |]. split; [exact parse_with_length_of_one |].
  exact (Parse_error_iff_null 1 (Some one_text) 1%nat initial_world (Some parsed_one)
           after_parsing_one grants_all_initial parse_with_length_of_one).
Defined.

Lemma Parse_returns_well_formed_witness :
  cJSON_ParseWithLength 1 (Some one_text) 1 initial_world
  = Ret (Some parsed_one, after_parsing_one) /\
  well_formed parsed_one /\ string parsed_one = None /\
  forall w2, grants_all w2 ->
    fst (cJSON_PrintUnformatted (Some parsed_one) w2) = Some (render parsed_one).
Proof.
  split; [exact parse_with_length_of_one |].
  exact (Parse_returns_well_formed 1 (Some one_text) 1%nat initial_world parsed_one
           after_parsing_one parse_with_length_of_one).
Defined.

Lemma Parse_terminates_witness :
  (2 * 1 + 1 <= 3)%nat /\
  cJSON_ParseWithLength 3 (Some one_text) 1 initial_world <> OutOfFuel.
Proof.
  assert (H : (2 * 1 + 1 <= 3)%nat) by lia.
  split; [exact H |].
  exact (proj1 (Parse_terminates (Some one_text) initial_world) 1%nat 3%nat H).
Defined.

Lemma AddItemToObject_then_lookup_witness :
  (cJSON_AddItemToObject (Some (set_type cJSON_Object zero_item))
                         (Some (bytes_of_string "a")) (Some sample_one) initial_world
   = (1, Some (set_child [set_string (Some (bytes_of_string "a")) sample_one]
                         (set_type cJSON_Object zero_item)),
      Some (set_string (Some (bytes_of_string "a")) sample_one),
      log_event (ev_malloc libc 2 true) initial_world)
   \/ cJSON_AddItemToObjectCS (Some (set_type cJSON_Object zero_item))
                              (Some (bytes_of_string "a")) (Some sample_one) initial_world
      = (1, Some (set_child [set_string (Some (bytes_of_string "a")) sample_one]
                            (set_type cJSON_Object zero_item)),
         Some (set_string (Some (bytes_of_string "a")) sample_one),
         log_event (ev_malloc libc 2 true) initial_world)) /\
  cJSON_GetObjectItem
    (Some (set_child [set_string (Some (bytes_of_string "a")) sample_one]
                     (set_type cJSON_Object zero_item)))
    (Some (bytes_of_string "a"))
  = Some (set_string (Some (bytes_of_string "a")) sample_one).
Proof.
  assert (H : cJSON_AddItemToObject (Some (set_type cJSON_Object zero_item))
                (Some (bytes_of_string "a")) (Some sample_one) initial_world
              = (1, Some (set_child [set_string (Some (bytes_of_string "a")) sample_one]
                                    (set_type cJSON_Object zero_item)),
                 Some (set_string (Some (bytes_of_string "a")) sample_one),
                 log_event (ev_malloc libc 2 true) initial_world))
    by (vm_compute; reflexivity).
  split; [left; exact H |].
  destruct (AddItemToObject_then_lookup _ _ _ _ _ _ _ (or_introl H))
    as (_ & _ & _ & _ & _ & _ & Hlookup).
  exact Hlookup.
Defined.

Lemma CreateString_and_CreateRaw_on_refusal_witness :
  heap_grants one_block_world (List.length (heap_trace one_block_world)) = true /\
  heap_grants one_block_world (S (List.length (heap_trace one_block_world))) = false /\
  fst (cJSON_CreateString (Some (bytes_of_string "x")) one_block_world) = None /\
  exists i, fst (cJSON_CreateRaw (Some (bytes_of_string "x")) one_block_world) = Some i /\
            kind i = cJSON_Raw /\ valuestring i = None.
Proof.
  split; [reflexivity |]. split; [reflexivity |].
  destruct (CreateString_and_CreateRaw_on_refusal (bytes_of_string "x") one_block_world)
    as (_ & _ & _ & H).
  exact (H eq_refl eq_refl).
Defined.

Lemma Parse_ignores_what_follows_witness :
  built sample_object /\ plain sample_object = true /\
  (fuel_for sample_object <= 9)%nat /\ delimiter RBRACKET /\ grants_all initial_world /\
  exists t' w',
    cJSON_ParseWithLength 9 (Some (render sample_object ++ RBRACKET :: bytes_of_string "]]"))
                          (List.length (render sample_object) + 2) initial_world
    = Ret (Some t', w') /\
    structurally_equal sample_object t' = true.
Proof.
  assert (Hp : plain sample_object = true) by reflexivity.
  assert (Hf : (fuel_for sample_object <= 9)%nat) by (vm_compute; lia).
  assert (Hd : delimiter RBRACKET) by (right; left; reflexivity).
  split; [exact sample_object_built |]. split; [exact Hp |]. split; [exact Hf |].
  split; [exact Hd |]. split; [exact grants_all_initial |].
  exact (proj1 (Parse_ignores_what_follows sample_object sample_object_built Hp 9
                  RBRACKET (bytes_of_string "]]") initial_world Hf Hd grants_all_initial)
               (List.length (render sample_object) + 2)%nat ltac:(lia)).
Defined.

Lemma CreateIntArray_holds_the_numbers_witness :
  grants_all initial_world /\ 0 <= 2 <= Z.of_nat (List.length [7; -3; 5]) /\
  Forall (fun n => INT_MIN <= n <= INT_MAX) [7; -3; 5] /\
  exists a w',
    cJSON_CreateIntArray [7; -3; 5] 2 initial_world = Ret (Some a, w') /\
    cJSON_GetArraySize (Some a) = 2 /\
    map valueint (child a) = [7; -3] /\
    forall w2, grants_all w2 ->
      fst (cJSON_PrintUnformatted (Some a) w2) = Some (bytes_of_string "[7,-3]").
Proof.
  assert (H1 : 0 <= 2 <= Z.of_nat (List.length [7; -3; 5])) by (cbn; lia).
  assert (H2 : Forall (fun n => INT_MIN <= n <= INT_MAX) [7; -3; 5])
    by (repeat constructor; unfold INT_MIN, INT_MAX; lia).
  split; [exact grants_all_initial |]. split; [exact H1 |]. split; [exact H2 |].
  destruct (CreateIntArray_holds_the_numbers [7; -3; 5] 2 initial_world
              grants_all_initial H1 H2)
    as (a & w' & Hrun & _ & Hsize & _ & Hints & _ & Hprint).
  exists a, w'. split; [exact Hrun |]. split; [exact Hsize |]. split; [exact Hints |].
  exact Hprint.
Defined.

(** ** The agent's JSON helpers *)

(** X24: [json_escape_string] returns the quoted, escaped text of its
    argument (the empty string for a null argument) when allocations are
    granted; whatever the heap refuses, the only block it holds when it
    returns is the text returned, the node it built having been deleted. *)
Theorem json_escape_string_returns_the_quoted_text :
  forall src w,
    live (snd (file_agent.json_escape_string src w))
    = live w + (match fst (file_agent.json_escape_string src w) with
                | Some _ => 1
                | None => 0
                end) /\
    (grants_all w ->
     fst (file_agent.json_escape_string src w) = Some (string_text src)).
Proof.
  intros src w. unfold file_agent.json_escape_string. split.
  - pose proof (CreateString_ok src w) as [Hlive _].
    destruct (cJSON_CreateString src w) as [[s |] w1];
      cbn [fst snd chain_of chain_blocks fold_right] in *; [| lia].
    pose proof (PrintUnformatted_post (Some s) w1) as (_ & _ & _ & Hp & _).
    destruct (cJSON_PrintUnformatted (Some s) w1) as [printed w2]. cbn [fst snd] in *.
    rewrite live_Delete. cbn [chain_blocks fold_right]. lia.
  - intros Hw. unfold cJSON_CreateString, strdup.
    destruct (New_Item_granted w Hw) as (w1 & -> & Hw1).
    destruct src as [s |].
    + unfold call_malloc. rewrite Hw1.
      match goal with
      | |- context [cJSON_PrintUnformatted (Some ?i) ?w2] =>
          destruct (PrintUnformatted_render i w2) as (w3 & -> & _);
          [apply (wf_string _ (strdup_text s)); reflexivity
          | apply grants_all_log; exact Hw1 |]
      end.
      cbn [fst]. f_equal. rewrite render_eq. cbv zeta.
      unfold string_text, strdup_text. cbn.
      replace (c_str (c_str s)) with (c_str s); [reflexivity |].
      clear. induction s as [| c s IH]; [reflexivity |].
      cbn [c_str]. destruct (Z.eqb_spec c NUL) as [-> | Hc]; [reflexivity |].
      cbn [c_str]. destruct (Z.eqb_spec c NUL); [contradiction | congruence].
    + unfold cJSON_PrintUnformatted, call_malloc. rewrite Hw1. reflexivity.
Qed.

Lemma live_delete_node :
  forall i w, live (delete_node i w) = live w - Z.of_nat (blocks i).
Proof.
  intros i w. change (delete_node i w) with (cJSON_Delete [i] w).
  rewrite live_Delete. cbn [chain_blocks fold_right]. lia.
Qed.

Lemma strncpy_length :
  forall src n, 0 <= n -> Z.of_nat (List.length (file_agent.strncpy src n)) <= n.
Proof.
  intros src n Hn. unfold file_agent.strncpy. rewrite length_firstn. lia.
Qed.

(** X25: [parse_command] on any text, whatever the heap refuses: the tree it
    parsed is deleted before it returns, so it holds no block more than
    before; each field it fills stays one byte short of its array.  A
    command that is not valid has empty fields and comes with exactly one
    warning; a valid one comes with none, and its action is the start of
    the string value of the first member named action of the parsed
    object. *)
Theorem parse_command_contract :
  forall fuel json_str w log cmd w' log',
    file_agent.parse_command fuel json_str w log = Ret (cmd, w', log') ->
    live w' = live w /\
    Z.of_nat (List.length (file_agent.action cmd)) < file_agent.sizeof_action /\
    Z.of_nat (List.length (file_agent.path cmd)) < file_agent.MAX_PATH_LEN /\
    Z.of_nat (List.length (file_agent.content cmd)) < file_agent.MAX_CONTENT /\
    (file_agent.valid cmd = false ->
     file_agent.action cmd = [] /\ file_agent.path cmd = [] /\
     file_agent.content cmd = [] /\
     exists entry, log' = log ++ [entry] /\
                   file_agent.level entry = file_agent.LOG_WARN) /\
    (file_agent.valid cmd = true ->
     log' = log /\
     exists tree w1 member text,
       cJSON_Parse fuel json_str w = Ret (Some tree, w1) /\
       cJSON_GetObjectItemCaseSensitive (Some tree) (Some (bytes_of_string "action"))
       = Some member /\
       cJSON_IsString (Some member) = 1 /\ valuestring member = Some text /\
       file_agent.action cmd = firstn 31 (c_str text)).
Proof.
  intros fuel json_str w log cmd w' log' H. unfold file_agent.parse_command in H.
  destruct (cJSON_Parse fuel json_str w) as [[json w1] | |] eqn:Hparse;
    cbn [bind] in H; try discriminate.
  assert (Hlive : live w1 = live w + Z.of_nat (chain_blocks (chain_of json))).
  { destruct (Parse_post _ _ _ _ _ Hparse) as [n Hn].
    apply ParseWithLength_post in Hn. destruct Hn as ((_ & _ & _ & Hl & _) & _).
    exact Hl. }
  destruct json as [j |].
  - cbn [chain_of chain_blocks fold_right] in Hlive.
    destruct (file_agent.string_value
                (cJSON_GetObjectItemCaseSensitive (Some j) (Some (bytes_of_string "action"))))
      as [text |] eqn:Haction; injection H as <- <- <-;
      cbn [file_agent.action file_agent.path file_agent.content file_agent.valid].
    + split; [rewrite live_delete_node; lia |].
      unfold file_agent.strncpy, file_agent.sizeof_action, file_agent.MAX_PATH_LEN,
        file_agent.MAX_CONTENT.
      split; [rewrite length_firstn; lia |].
      split.
      { match goal with
        | |- context [match ?x with Some _ => _ | None => _ end] => destruct x as [s |]
        end; [rewrite length_firstn | cbn]; lia. }
      split.
      { match goal with
        | |- context [match ?x with Some _ => _ | None => _ end] => destruct x as [s |]
        end; [rewrite length_firstn | cbn]; lia. }
      split; [discriminate |]. intros _. split; [reflexivity |].
      unfold file_agent.string_value in Haction.
      destruct (cJSON_GetObjectItemCaseSensitive (Some j) (Some (bytes_of_string "action")))
        as [m |] eqn:Hm; [| discriminate].
      destruct (Z.eqb_spec (cJSON_IsString (Some m)) 0) as [Hz | Hnz]; [discriminate |].
      exists j, w1, m, text. split; [reflexivity |]. split; [exact Hm |].
      split; [| split; [exact Haction | reflexivity]].
      unfold cJSON_IsString in *. destruct (kind m =? cJSON_String); [reflexivity | contradiction].
    + split; [rewrite live_delete_node; lia |].
      cbn [List.length]. unfold file_agent.sizeof_action, file_agent.MAX_PATH_LEN,
                           file_agent.MAX_CONTENT.
      repeat split; try lia; try discriminate.
      eexists. split; [reflexivity | reflexivity].
  - injection H as <- <- <-.
    cbn [file_agent.action file_agent.path file_agent.content file_agent.valid
         chain_of chain_blocks fold_right List.length] in *.
    unfold file_agent.sizeof_action, file_agent.MAX_PATH_LEN, file_agent.MAX_CONTENT.
    repeat split; try lia; try discriminate.
    eexists. split; [reflexivity | reflexivity].
Qed.

Example parse_command_reads_first_action :
  exists w',
    file_agent.parse_command 6 (Some (c_string file_agent.read_command_text))
                             initial_world []
    = Ret (file_agent.mk_Command (bytes_of_string "read") (bytes_of_string "notes.txt")
                                 [] true, w', []).
Proof. eexists. vm_compute. reflexivity. Qed.

Lemma parse_command_contract_witness :
  exists w',
    file_agent.parse_command 6 (Some (c_string file_agent.read_command_text))
                             initial_world []
    = Ret (file_agent.mk_Command (bytes_of_string "read") (bytes_of_string "notes.txt")
                                 [] true, w', []) /\
    List.length (heap_trace w') = 20%nat /\
    live w' = live initial_world /\
    exists tree w1 member text,
      cJSON_Parse 6 (Some (c_string file_agent.read_command_text)) initial_world
      = Ret (Some tree, w1) /\
      cJSON_GetObjectItemCaseSensitive (Some tree) (Some (bytes_of_string "action"))
      = Some member /\
      cJSON_IsString (Some member) = 1 /\ valuestring member = Some text /\
      bytes_of_string "read" = firstn 31 (c_str text).
Proof.
  eassert (H : file_agent.parse_command 6 (Some (c_string file_agent.read_command_text))
                 initial_world []
               = Ret (file_agent.mk_Command (bytes_of_string "read")
                        (bytes_of_string "notes.txt") [] true, _, []))
    by (vm_compute; reflexivity).
  eexists. split; [exact H |]. split; [vm_compute; reflexivity |].
  destruct (parse_command_contract _ _ _ _ _ _ _ H) as (Hlive & _ & _ & _ & _ & Hvalid).
  split; [exact Hlive |].
  exact (proj2 (Hvalid eq_refl)).
Defined.

Lemma GetArrayItem_in_bounds_witness :
  0 <= 1 < cJSON_GetArraySize (Some sample_array) /\
  exists item, cJSON_GetArrayItem (Some sample_array) 1 = Some item.
Proof.
  assert (H : 0 <= 1 < cJSON_GetArraySize (Some sample_array)) by (cbn; lia).
  split; [exact H |].
  exact (proj2 (GetArrayItem_in_bounds (Some sample_array) 1) H).
Defined.

Lemma AddItemToArray_appends_witness :
  0 < cJSON_GetArraySize (Some sample_array) /\
  exists a1,
    cJSON_AddItemToArray (Some sample_array) (Some sample_one) = (1, Some a1) /\
    cJSON_GetArrayItem (Some a1) 3 = Some sample_one /\
    cJSON_GetArrayItem (Some a1) 0 = cJSON_GetArrayItem (Some sample_array) 0.
Proof.
  assert (H : 0 < cJSON_GetArraySize (Some sample_array)) by (cbn; lia).
  split; [exact H |].
  destruct (AddItemToArray_appends sample_array sample_one)
    as (a1 & Hadd & _ & Hlast & Hkeep & _).
  exists a1. split; [exact Hadd |]. split; [exact Hlast |]. exact (Hkeep 0 H).
Defined.

Lemma HasObjectItem_ignores_case_witness :
  cJSON_HasObjectItem (Some sample_object) (Some (bytes_of_string "b")) <> 1 /\
  cJSON_HasObjectItem (Some sample_object) (Some (bytes_of_string "A")) = 1 /\
  cJSON_GetObjectItemCaseSensitive (Some sample_object) (Some (bytes_of_string "b")) = None.
Proof.
  assert (H : cJSON_HasObjectItem (Some sample_object) (Some (bytes_of_string "b")) <> 1)
    by (vm_compute; discriminate).
  split; [exact H |]. split; [reflexivity |].
  destruct (HasObjectItem_ignores_case sample_object (bytes_of_string "b"))
    as (_ & Hmiss & _).
  exact (proj2 (Hmiss H)).
Defined.

Lemma array_helpers_drop_refused_elements_witness :
  (Z.to_nat 2 <= List.length [Some (bytes_of_string "a"); Some (bytes_of_string "b")])%nat /\
  array_helper_post 2 one_block_world
    (cJSON_CreateStringArray [Some (bytes_of_string "a"); Some (bytes_of_string "b")] 2
                             one_block_world).
Proof.
  assert (H : (Z.to_nat 2
               <= List.length [Some (bytes_of_string "a"); Some (bytes_of_string "b")])%nat)
    by (cbn; lia).
  split; [exact H |].
  destruct (array_helpers_drop_refused_elements 2 one_block_world)
    as (_ & _ & _ & Hstrings & _).
  exact (Hstrings _ H).
Defined.

Lemma json_escape_string_returns_the_quoted_text_witness :
  grants_all initial_world /\
  fst (file_agent.json_escape_string (Some (bytes_of_string "x")) initial_world)
  = Some (string_text (Some (bytes_of_string "x"))).
Proof.
  split; [exact grants_all_initial |].
  exact (proj2 (json_escape_string_returns_the_quoted_text
                  (Some (bytes_of_string "x")) initial_world) grants_all_initial).
Defined.
